(** * gcs-upload: a shallow embedding of the bulk uploader and its properties

    The repository holds four revisions of one [main.go]:
    - [Part000]  (src/unnamed/part_000): WalkDir + shuffle, counter bumped
      inside the verbose log call, object name built from [dest.Path];
    - [MainA]    (src/main.go, first file): adds [-buf], [-chunk] in MiB,
      [-gc], opens [filepath.Join(src, f)], strips the leading slash;
    - [MainB]    (src/main.go, second file): [-buf]/[-chunk] as byte sizes
      parsed by [bytesValue];
    - [Part001]  (src/unnamed/part_001): work list read from a list file
      ([-l]) or written from a directory ([-d]), optional [-shuffle].

    Go strings are byte sequences: they are modelled as [string] (a list
    of 8-bit [ascii]).  [uint64] values are [Z] with the wrap-around
    written out; the counter, an [int64] that never exceeds the number
    of work items, is an unbounded [Z].  Calls into the Go standard
    library are modelled from their documented behaviour. *)

From Stdlib Require Import ZArith Ascii String List Lia DecimalString Permutation.
From Stdlib Require DecimalFacts DecimalPos DecimalN.
From stdpp Require Import base tactics option list strings gmap.

Open Scope Z_scope.

(** ** Package [strings] *)

Module GoStrings.

(** [strings.HasSuffix]:
    [len(s) >= len(suffix) && s[len(s)-len(suffix):] == suffix]. *)
Definition HasSuffix (s suffix : string) : bool :=
  (String.length suffix <=? String.length s)%nat
  && String.eqb
       (substring (String.length s - String.length suffix)
                  (String.length suffix) s)
       suffix.

(** [strings.TrimSuffix]: [s[:len(s)-len(suffix)]] when the suffix is
    there, [s] otherwise. *)
Definition TrimSuffix (s suffix : string) : string :=
  if HasSuffix s suffix
  then substring 0 (String.length s - String.length suffix) s
  else s.

(** [strings.ReplaceAll(s, string(old), string(new))] for one-byte
    [old] and [new]. *)
Fixpoint ReplaceByte (s : string) (old new : ascii) : string :=
  match s with
  | EmptyString => EmptyString
  | String c r =>
      String (if Ascii.eqb c old then new else c) (ReplaceByte r old new)
  end.

(** [strings.Join(elems, sep)]. *)
Fixpoint Join (elems : list string) (sep : string) : string :=
  match elems with
  | [] => EmptyString
  | [e] => e
  | e :: rest => e +:+ sep +:+ Join rest sep
  end.

(** [strings.ToLower] restricted to ASCII input, where it maps
    ['A'..'Z'] to ['a'..'z'] and leaves every other byte alone. *)
Definition lowerByte (c : ascii) : ascii :=
  let k := N_of_ascii c in
  if ((65 <=? k) && (k <=? 90))%N then ascii_of_N (k + 32) else c.

Fixpoint ToLowerASCII (s : string) : string :=
  match s with
  | EmptyString => EmptyString
  | String c r => String (lowerByte c) (ToLowerASCII r)
  end.

End GoStrings.

(** ** Package [strconv] *)

Module GoStrconv.

Definition maxUint64 : Z := 2 ^ 64 - 1.

(** Unsigned 64-bit wrap-around. *)
Definition wrap64 (x : Z) : Z := x mod 2 ^ 64.

(** [strconv.NumError.Err]: [ErrSyntax] or [ErrRange]. *)
Inductive NumError := ErrSyntax | ErrRange.

(** The digit value of a byte for base 10; letters and every other
    byte are a syntax error in [ParseUint(_, 10, 64)]. *)
Definition digit (c : ascii) : option Z :=
  let k := Z.of_N (N_of_ascii c) in
  if (48 <=? k) && (k <=? 57) then Some (k - 48) else None.

(** [cutoff] is the smallest number such that [cutoff*10 > maxUint64]. *)
Definition cutoff : Z := maxUint64 / 10 + 1.

(** The digit loop of [ParseUint] with [base = 10], [bitSize = 64]:
    accumulator [n], rest of the input [cs]. *)
Fixpoint ParseUint_loop (cs : string) (n : Z) : Z * option NumError :=
  match cs with
  | EmptyString => (n, None)
  | String c r =>
      match digit c with
      | None => (0, Some ErrSyntax)
      | Some d =>
          if cutoff <=? n then (maxUint64, Some ErrRange)
          else
            let n10 := wrap64 (n * 10) in
            let n1 := wrap64 (n10 + d) in
            if (n1 <? n10) || (maxUint64 <? n1)
            then (maxUint64, Some ErrRange)
            else ParseUint_loop r n1
      end
  end.

(** [strconv.ParseUint(s, 10, 64)]. *)
Definition ParseUint (s : string) : Z * option NumError :=
  match s with
  | EmptyString => (0, Some ErrSyntax)
  | _ => ParseUint_loop s 0
  end.

(** [strconv.Itoa] on a non-negative or negative integer. *)
Definition Itoa (z : Z) : string := NilZero.string_of_int (Z.to_int z).

End GoStrconv.

(** ** The byte-size flag value ([bytesValue], revisions MainB and Part001) *)

Module BytesValue.

Import GoStrings GoStrconv.

(** [var bytesUnits = []struct{ suffix string; value uint64 }]. *)
Definition bytesUnits : list (string * Z) :=
  [ ("m",  1 * 1024 * 1024);
    ("k",  1 * 1024);
    ("mb", 1 * 1024 * 1024);
    ("kb", 1 * 1024);
    ("b",  1);
    ("",   1) ].

(** What a call of the method [Set] of [bytesValue] does: it returns, leaving the
    receiver at [value] and handing back [err] (the
    [fmt.Errorf("parse(%s): %w", s, err)] is kept as the pair of the
    input and the [strconv] error), or it panics. *)
Inductive SetResult :=
| Returned (value : Z) (err : option (string * NumError))
| Panicked (msg : string).

Section SetMethod.

(** [strings.ToLower] maps Unicode letters through tables that are not
    reproduced here; [Set] is studied for an arbitrary lowering
    function, and run with [ToLowerASCII]. *)
Variable ToLower : string -> string.

(** The [for _, u := range bytesUnits] loop of [Set], on receiver
    value [b], argument [s] and [x = strings.ToLower(s)]. *)
Fixpoint Set_loop (units : list (string * Z)) (b : Z) (s x : string)
  : SetResult :=
  match units with
  | [] => Panicked "unreachable"
  | (suffix, value) :: rest =>
      if negb (HasSuffix x suffix) then Set_loop rest b s x
      else
        match ParseUint (TrimSuffix x suffix) with
        | (_, Some e) => Returned b (Some (s, e))
        | (v, None) => Returned (wrap64 (v * value)) None
        end
  end.

(** [func (b *bytesValue) Set(s string) error]. *)
Definition bytesValue_Set (b : Z) (s : string) : SetResult :=
  Set_loop bytesUnits b s (ToLower s).

End SetMethod.

End BytesValue.

(** ** Package [path] *)

Module GoPath.

(** The elements of a path: the pieces between slashes, empty pieces
    included, so that ["a//b/"] has elements [a], empty, [b], empty. *)
Fixpoint elements (path : string) : list string :=
  match path with
  | EmptyString => [EmptyString]
  | String c r =>
      if Ascii.eqb c "/" then EmptyString :: elements r
      else match elements r with
           | e :: es => String c e :: es
           | [] => [String c EmptyString]
           end
  end.

(** One turn of the loop of [path.Clean], on the output so far kept as
    the stack [out] of its elements (last one first).  An empty element
    and [.] are dropped; [..] removes the last real element when there
    is one ("can backtrack"), is appended when the path is not rooted,
    and is dropped at the root; any other element is appended.  The
    only [..] on the stack are the leading ones that cannot be
    backtracked over (what [dotdot] records in the Go code). *)
Definition Clean_step (rooted : bool) (out : list string) (e : string)
  : list string :=
  if String.eqb e "" then out
  else if String.eqb e "." then out
  else if String.eqb e ".." then
    match out with
    | top :: rest =>
        if String.eqb top ".." then e :: out else rest
    | [] => if rooted then [] else [e]
    end
  else e :: out.

Definition rooted (path : string) : bool :=
  match path with
  | String c _ => Ascii.eqb c "/"
  | EmptyString => false
  end.

(** [path.Clean]: the shortest path name equivalent to [path]. *)
Definition Clean (path : string) : string :=
  match path with
  | EmptyString => "."
  | _ =>
      let out := fold_left (Clean_step (rooted path)) (elements path) [] in
      let body := GoStrings.Join (rev out) "/" in
      if rooted path then String "/" body
      else if String.eqb body "" then "." else body
  end.

(** The body of the loop of [path.Join] that fills [buf]. *)
Definition Join_step (buf e : string) : string :=
  if (0 <? String.length buf)%nat || negb (String.eqb e "") then
    (if (0 <? String.length buf)%nat then buf +:+ "/" else buf) +:+ e
  else buf.

(** [path.Join(elem...)]: empty when every element is empty, otherwise
    the elements from the first non-empty one on, separated by slashes
    and cleaned. *)
Definition Join (elem : list string) : string :=
  if forallb (fun e => String.eqb e "") elem then EmptyString
  else Clean (fold_left Join_step elem EmptyString).

End GoPath.

(** ** Package [path/filepath]

    The package depends on the host: [Separator] is a slash on Unix and a
    backslash on Windows. *)

Module filepath.

(** [filepath.ToSlash]: the path itself when [Separator] is a slash,
    otherwise each separator replaced by a slash. *)
Definition ToSlash (Separator : ascii) (path : string) : string :=
  if Ascii.eqb Separator "/" then path
  else GoStrings.ReplaceByte path Separator "/".

(** [filepath.Join] as built for Unix: the elements from the first
    non-empty one on, joined by [Separator] and cleaned; on Unix
    [filepath.Clean] is [path.Clean]. *)
Fixpoint Join_unix (elem : list string) : string :=
  match elem with
  | [] => EmptyString
  | e :: rest =>
      if negb (String.eqb e "") then GoPath.Clean (GoStrings.Join elem "/")
      else Join_unix rest
  end.

(** What the program uses of the host's [filepath]. *)
Record host := {
  Separator : ascii;
  Join : list string -> string;
}.

Definition unix : host := {| Separator := "/"; Join := Join_unix |}.

End filepath.

(** ** Package [bufio]: a [Scanner] with the default split function *)

Module bufio.

(** [bufio.MaxScanTokenSize]. *)
Definition MaxScanTokenSize : nat := 64 * 1024.

(** [dropCR]: drop one trailing carriage return. *)
Fixpoint dropCR (data : string) : string :=
  match data with
  | EmptyString => EmptyString
  | String c EmptyString => if Ascii.eqb c "013" then EmptyString else data
  | String c r => String c (dropCR r)
  end.

(** The tokens a [Scanner] with [ScanLines] delivers on the input
    [data], and whether it stopped with [ErrTooLong].  [line] is the
    part of the current line read so far.  A line ends at a newline; a
    last line without a newline is delivered when it is not empty; a
    line that fills the buffer ([MaxScanTokenSize] bytes) before its
    newline stops the scanner. *)
Fixpoint ScanLines_from (line data : string) : list string * bool :=
  match data with
  | EmptyString =>
      (if String.eqb line "" then [] else [dropCR line], false)
  | String c r =>
      if Ascii.eqb c "010" then
        let '(toks, tooLong) := ScanLines_from EmptyString r in
        (dropCR line :: toks, tooLong)
      else if (MaxScanTokenSize <=? String.length line + 1)%nat then ([], true)
      else ScanLines_from (line +:+ String c EmptyString) r
  end.

(** All the values of [s.Text()] while [s.Scan()] is true, and whether
    [s.Err()] is [ErrTooLong] afterwards. *)
Definition ScanLines (data : string) : list string * bool :=
  ScanLines_from EmptyString data.

(** A path that a list file carries as one line: no newline in it,
    shorter than the scanner's buffer, and no carriage return at the
    end (the scanner would take it for a part of the line ending). *)
Fixpoint no_newline (p : string) : bool :=
  match p with
  | EmptyString => true
  | String c r => negb (Ascii.eqb c "010") && no_newline r
  end.

Definition line_safe (p : string) : Prop :=
  no_newline p = true /\
  (String.length p < MaxScanTokenSize)%nat /\
  dropCR p = p.

End bufio.

(** ** Package [math/rand]: [rand.Shuffle] *)

Module rand.

Section Shuffle.

Context {A : Type}.

(** The random source: [draw i] is the number the generator hands out
    when the loop is at index [i]; [Int63n(i+1)] and [int31n(i+1)]
    reduce it to the range [0..i]. *)
Variable draw : nat -> nat.

(** The closure passed by the program,
    [files[i], files[j] = files[j], files[i]]; an index out of range
    panics ([None]). *)
Definition swap (files : list A) (i j : nat) : option (list A) :=
  match files !! i, files !! j with
  | Some x, Some y => Some (<[i:=y]> (<[j:=x]> files))
  | _, _ => None
  end.

(** [for i := n - 1; i > 0; i-- { j := intn(i+1); swap(i, j) }],
    entered with [i = k]. *)
Fixpoint Shuffle_loop (k : nat) (files : list A) : option (list A) :=
  match k with
  | O => Some files
  | S k' =>
      match swap files k (draw k mod (k + 1)) with
      | Some files' => Shuffle_loop k' files'
      | None => None
      end
  end.

(** [rand.Shuffle(len(files), func(i, j int) {...})]. *)
Definition Shuffle (files : list A) : option (list A) :=
  Shuffle_loop (length files - 1) files.

End Shuffle.

End rand.

(** ** Package [fmt]: the verbs the program uses *)

Module fmt.

Fixpoint spaces (k : nat) : string :=
  match k with O => EmptyString | S k' => String " " (spaces k') end.


(** [%Nd] (and [%*d] with width argument [N]): the decimal digits,
    padded on the left with spaces up to [width] bytes. *)
Definition pad_d (width : nat) (c : Z) : string :=
  let digits := GoStrconv.Itoa c in
  spaces (width - String.length digits) +:+ digits.


End fmt.

(** ** The upload worker pool of [run]

    The goroutines started by [eg.Go] run concurrently.  Each one is a
    sequence of atomic actions (one statement of the closure each); a run
    of the program is an interleaving of these actions with the
    submissions of the main loop, chosen by the scheduler.  The outcome
    of the calls that leave the program (file system, object store, clock,
    [sync.Pool]) is given by a [world]. *)

Module Upload.

Inductive revision := Part000 | MainA | MainB | Part001.

(** What the program reads of [dest], the result of
    [url.ParseRequestURI]. *)
Record URL := {
  Scheme : string;
  Hostname : string;
  Path : string;
}.

(** The variables of [run] the closure captures. *)
Record settings := {
  rev : revision;
  n : Z;                      (* -n *)
  verbose : bool;             (* -v *)
  gcInterval : Z;             (* -gc *)
  bufSize : Z;                (* the length of the buffers New makes *)
  src : string;               (* src, or *dir in Part001 *)
  dest : URL;
  host : filepath.host;
}.

(** The three errors a task returns: ["open upload file: %w"],
    ["upload: %w"], ["close writer: %w"]. *)
Inductive task_error :=
| OpenUploadFile (path : string)
| UploadError (name : string)
| CloseWriter (name : string).

(** How a task ends: after [count.Add] and the log line ([return nil]
    at the end), at the admission check ([return nil] under
    [<-ctx.Done()]), or with an error. *)
Inductive outcome := Uploaded | Skipped | Failed (e : task_error).

(** The value the closure returns. *)
Definition returned (r : outcome) : option task_error :=
  match r with
  | Uploaded | Skipped => None
  | Failed e => Some e
  end.

(** Calls on the local file system and on the object store. *)
Inductive io_event :=
| OsOpen (path : string)
| NewWriter (name : string)
| CopyBuffer (name path : string)
| WriterClose (name : string)
| FileClose (path : string).

(** The [defer] statements of the closure. *)
Inductive deferred := DeferFileClose | DeferWriterClose | DeferPoolPut.

(** The run-time panics of the closure: ["slice bounds out of range"]
    in [dest.Path[1:]], ["makeslice: len out of range"] in the pool's
    [New], ["empty buffer in CopyBuffer"]. *)
Inductive panic_value := SliceBounds | MakesliceLen | EmptyBuffer.

(** The statement a task is at. *)
Inductive pc :=
| Queued                 (* not yet handed to eg.Go *)
| AtSelect               (* select { case <-ctx.Done(): return nil; default: } *)
| AtOpen                 (* r, err := os.Open(...); defer r.Close() *)
| AtNewWriter            (* name := ...; w := o.NewWriter(ctx); defer w.Close() *)
| AtPoolGet              (* buf := uploadBufPool.Get(); defer uploadBufPool.Put(buf) *)
| AtStart                (* if *verbose { start = time.Now() } *)
| AtCopy                 (* io.CopyBuffer(w, r, buf) *)
| AtClose                (* w.Close() *)
| AtCountAdd             (* c := count.Add(1) *)
| AtGC                   (* if *gcInterval > 0 && int(c)%*gcInterval == 0 { runtime.GC() } *)
| AtLog                  (* if *verbose { log.Printf(...) }; return nil *)
| Returning (r : outcome) (* the deferred calls, then the end of the goroutine *)
| Done (r : outcome)
| Panicking (v : panic_value).
                         (* the deferred calls, then the end of the process *)

Record task := {
  file : string;           (* f *)
  at_ : pc;
  defers : list deferred;  (* pending deferred calls, last registered first *)
  buf : option nat;        (* the buffer held, by its identity *)
  name : string;           (* name *)
  start : Z;               (* start *)
  c : Z;                   (* c, the value count.Add returned *)
}.

(** What the tasks share. *)
Record shared := {
  count : Z;                 (* var count atomic.Int64 *)
  ctxDone : bool;            (* ctx.Done() is closed *)
  err : option task_error;   (* the error eg.Wait() returns *)
  idle : list nat;           (* buffers put back into uploadBufPool *)
  allocated : nat;           (* calls of uploadBufPool.New so far *)
  gcRuns : nat;              (* calls of runtime.GC() so far *)
  logged : list string;      (* lines printed by log.Printf, last first *)
  io : list io_event;        (* file and object store calls, last first *)
  ticks : nat;               (* actions so far; indexes the clock *)
  panicked : bool;           (* a panic was not recovered, or the runtime
                                gave up: the process is gone *)
}.

Record state := {
  tasks : list task;
  sh : shared;
}.

Record world := {
  open_ok : nat -> string -> bool;    (* os.Open of task i on this path succeeds *)
  copy_ok : nat -> string -> bool;    (* io.CopyBuffer of task i succeeds *)
  close_ok : nat -> string -> bool;   (* w.Close() of task i succeeds *)
  pool_reuse : nat -> bool;           (* Get of task i takes an idle buffer if there is one *)
  make_ok : nat -> bool;              (* the k-th buffer finds the memory it needs *)
  now : nat -> Z;                     (* time.Now() at an action, in ns *)
  duration : Z -> string;             (* time.Duration.String *)
}.

(** *** The expressions of the closure *)

(** [s[1:]]; out of range on the empty string. *)
Definition slice_from_1 (s : string) : option string :=
  match s with
  | EmptyString => None
  | String _ r => Some r
  end.

(** The argument of [os.Open]. *)
Definition localPath (cfg : settings) (f : string) : string :=
  match rev cfg with
  | Part000 => f
  | _ => filepath.Join (host cfg) [src cfg; f]
  end.

(** [name := path.Join(dest.Path[1:], filepath.ToSlash(f))]
    ([dest.Path] itself in Part000); [None] when the slice expression
    panics. *)
Definition objectName (r : revision) (Separator : ascii) (destPath f : string)
  : option string :=
  match r with
  | Part000 => Some (GoPath.Join [destPath; filepath.ToSlash Separator f])
  | _ =>
      match slice_from_1 destPath with
      | Some prefix => Some (GoPath.Join [prefix; filepath.ToSlash Separator f])
      | None => None
      end
  end.

(** [countWidth := len(strconv.Itoa(len(files)))]; Part001 prints with
    [%7d]. *)
Definition countWidth (r : revision) (nfiles : nat) : nat :=
  match r with
  | Part001 => 7%nat
  | _ => String.length (GoStrconv.Itoa (Z.of_nat nfiles))
  end.

(** ["gs://"+path.Join(o.BucketName(), o.ObjectName())]. *)
Definition qualified (bucket name : string) : string :=
  "gs://" +:+ GoPath.Join [bucket; name].

(** The text [log.Printf("%*d: -> %s: %s", countWidth, c, ..., elapsed)]
    prints ([%7d] in Part001). *)
Definition logLine (width : nat) (c : Z) (destination elapsed : string)
  : string :=
  fmt.pad_d width c +:+ ": -> " +:+ destination +:+ ": " +:+ elapsed.

(** [*gcInterval > 0 && int(c)%*gcInterval == 0]; Go's [%] truncates
    ([Z.rem]). *)
Definition gcDue (gcInterval c : Z) : bool :=
  (0 <? gcInterval) && (Z.rem c gcInterval =? 0).

(** *** Updates *)

Definition goto (t : task) (p : pc) : task :=
  {| file := file t; at_ := p; defers := defers t; buf := buf t;
     name := name t; start := start t; c := c t |}.

Definition defer (t : task) (d : deferred) : task :=
  {| file := file t; at_ := at_ t; defers := d :: defers t; buf := buf t;
     name := name t; start := start t; c := c t |}.

Definition with_defers (t : task) (ds : list deferred) : task :=
  {| file := file t; at_ := at_ t; defers := ds; buf := buf t;
     name := name t; start := start t; c := c t |}.

Definition with_buf (t : task) (b : option nat) : task :=
  {| file := file t; at_ := at_ t; defers := defers t; buf := b;
     name := name t; start := start t; c := c t |}.

Definition with_name (t : task) (nm : string) : task :=
  {| file := file t; at_ := at_ t; defers := defers t; buf := buf t;
     name := nm; start := start t; c := c t |}.

Definition with_start (t : task) (z : Z) : task :=
  {| file := file t; at_ := at_ t; defers := defers t; buf := buf t;
     name := name t; start := z; c := c t |}.

Definition with_c (t : task) (z : Z) : task :=
  {| file := file t; at_ := at_ t; defers := defers t; buf := buf t;
     name := name t; start := start t; c := z |}.

Definition with_count (g : shared) (z : Z) : shared :=
  {| count := z; ctxDone := ctxDone g; err := err g; idle := idle g;
     allocated := allocated g; gcRuns := gcRuns g; logged := logged g;
     io := io g; ticks := ticks g; panicked := panicked g |}.

Definition cancel (g : shared) (e : task_error) : shared :=
  {| count := count g; ctxDone := true; err := Some e; idle := idle g;
     allocated := allocated g; gcRuns := gcRuns g; logged := logged g;
     io := io g; ticks := ticks g; panicked := panicked g |}.

Definition with_pool (g : shared) (bs : list nat) (k : nat) : shared :=
  {| count := count g; ctxDone := ctxDone g; err := err g; idle := bs;
     allocated := k; gcRuns := gcRuns g; logged := logged g;
     io := io g; ticks := ticks g; panicked := panicked g |}.

Definition runtime_GC (g : shared) : shared :=
  {| count := count g; ctxDone := ctxDone g; err := err g; idle := idle g;
     allocated := allocated g; gcRuns := S (gcRuns g); logged := logged g;
     io := io g; ticks := ticks g; panicked := panicked g |}.

Definition Printf (g : shared) (line : string) : shared :=
  {| count := count g; ctxDone := ctxDone g; err := err g; idle := idle g;
     allocated := allocated g; gcRuns := gcRuns g; logged := line :: logged g;
     io := io g; ticks := ticks g; panicked := panicked g |}.

Definition emit (g : shared) (e : io_event) : shared :=
  {| count := count g; ctxDone := ctxDone g; err := err g; idle := idle g;
     allocated := allocated g; gcRuns := gcRuns g; logged := logged g;
     io := e :: io g; ticks := ticks g; panicked := panicked g |}.

Definition tick (g : shared) : shared :=
  {| count := count g; ctxDone := ctxDone g; err := err g; idle := idle g;
     allocated := allocated g; gcRuns := gcRuns g; logged := logged g;
     io := io g; ticks := S (ticks g); panicked := panicked g |}.

Definition panic (g : shared) : shared :=
  {| count := count g; ctxDone := ctxDone g; err := err g; idle := idle g;
     allocated := allocated g; gcRuns := gcRuns g; logged := logged g;
     io := io g; ticks := ticks g; panicked := true |}.

(** *** The closure passed to [eg.Go], one action at a time *)

(** Where a task goes after [w.Close()] succeeded: Part000 has no
    [c := count.Add(1)] and no [runtime.GC()] statement. *)
Definition after_close (r : revision) : pc :=
  match r with
  | Part000 => AtLog
  | _ => AtCountAdd
  end.

(** The largest length [make([]byte, n)] accepts: the runtime's
    [maxAlloc], which is [1 << 48] on the 64-bit platforms. *)
Definition maxAlloc : Z := 2 ^ 48.

(** What a [Get] comes to: a buffer (and the pool it leaves), a panic
    in [New], or the fatal error ["out of memory"]. *)
Inductive got :=
| Buffer (b : nat) (g : shared)
| NewPanics
| OutOfMemory.

(** [New]: [make([]byte, bufSize)], which panics on a length that is
    out of range, negative or above [maxAlloc]; a [uint64] from [2^63]
    on is out of range as well.  A buffer of length 0 takes no memory;
    for any other the runtime may find none. *)
Definition pool_New (w : world) (cfg : settings) (g : shared) : got :=
  if bufSize cfg <? 0 then NewPanics
  else if maxAlloc <? bufSize cfg then NewPanics
  else if bufSize cfg =? 0
  then Buffer (allocated g) (with_pool g (idle g) (S (allocated g)))
  else if make_ok w (allocated g)
  then Buffer (allocated g) (with_pool g (idle g) (S (allocated g)))
  else OutOfMemory.

(** [uploadBufPool.Get()] by task [i]: an idle buffer when the pool
    hands one out, a new one from [New] otherwise. *)
Definition pool_Get (w : world) (cfg : settings) (i : nat) (g : shared)
  : got :=
  match idle g with
  | b :: rest =>
      if pool_reuse w i then Buffer b (with_pool g rest (allocated g))
      else pool_New w cfg g
  | [] => pool_New w cfg g
  end.

(** [uploadBufPool.Put(buf)]. *)
Definition pool_Put (b : option nat) (g : shared) : shared :=
  match b with
  | Some x => with_pool g (x :: idle g) (allocated g)
  | None => g
  end.

(** The end of the goroutine in [errgroup]: the first error is kept and
    cancels the context ([g.errOnce.Do]). *)
Definition eg_done (r : outcome) (g : shared) : shared :=
  match returned r, err g with
  | Some e, None => cancel g e
  | _, _ => g
  end.

(** The deferred call [d] of task [t], whose other pending calls are
    [ds]. *)
Definition call_deferred (cfg : settings) (t : task) (d : deferred)
    (ds : list deferred) (g : shared) : task * shared :=
  match d with
  | DeferPoolPut => (with_buf (with_defers t ds) None, pool_Put (buf t) g)
  | DeferWriterClose => (with_defers t ds, emit g (WriterClose (name t)))
  | DeferFileClose =>
      (with_defers t ds, emit g (FileClose (localPath cfg (file t))))
  end.

(** The next action of task [i], which stands at [at_ t], on the shared
    state [g]; [nfiles] is [len(files)].  A goroutine that panics runs
    its deferred calls, last registered first, as one that returns does;
    the panic is not recovered, so the process ends when they have run
    (the deferred [g.done()] of the group and the exit are one action
    here).  A fatal error of the runtime ends the process at once. *)
Definition step_task (w : world) (cfg : settings) (nfiles i : nat)
    (t : task) (g : shared) : task * shared :=
  match at_ t with
  | Queued | Done _ => (t, g)
  | AtSelect =>
      if ctxDone g then (goto t (Returning Skipped), g)
      else (goto t AtOpen, g)
  | AtOpen =>
      let p := localPath cfg (file t) in
      if open_ok w i p
      then (goto (defer t DeferFileClose) AtNewWriter, emit g (OsOpen p))
      else (goto t (Returning (Failed (OpenUploadFile p))), emit g (OsOpen p))
  | AtNewWriter =>
      match objectName (rev cfg) (filepath.Separator (host cfg))
              (Path (dest cfg)) (file t) with
      | None => (goto t (Panicking SliceBounds), g)
      | Some nm =>
          (goto (defer (with_name t nm) DeferWriterClose) AtPoolGet,
           emit g (NewWriter nm))
      end
  | AtPoolGet =>
      match pool_Get w cfg i g with
      | NewPanics => (goto t (Panicking MakesliceLen), g)
      | OutOfMemory => (t, panic g)
      | Buffer b g' =>
          (goto (defer (with_buf t (Some b)) DeferPoolPut) AtStart, g')
      end
  | AtStart =>
      (goto (if verbose cfg then with_start t (now w (ticks g)) else t) AtCopy, g)
  | AtCopy =>
      (* io.CopyBuffer panics on a buffer of length 0 *)
      if bufSize cfg =? 0 then (goto t (Panicking EmptyBuffer), g)
      else
        let g' := emit g (CopyBuffer (name t) (localPath cfg (file t))) in
        if copy_ok w i (name t) then (goto t AtClose, g')
        else (goto t (Returning (Failed (UploadError (name t)))), g')
  | AtClose =>
      let g' := emit g (WriterClose (name t)) in
      if close_ok w i (name t) then (goto t (after_close (rev cfg)), g')
      else (goto t (Returning (Failed (CloseWriter (name t)))), g')
  | AtCountAdd =>
      (goto (with_c t (count g + 1)) AtGC, with_count g (count g + 1))
  | AtGC =>
      (goto t AtLog, if gcDue (gcInterval cfg) (c t) then runtime_GC g else g)
  | AtLog =>
      if verbose cfg then
        let '(t', g') :=
          match rev cfg with
          | Part000 => (with_c t (count g + 1), with_count g (count g + 1))
          | _ => (t, g)
          end in
        let line :=
          logLine (countWidth (rev cfg) nfiles) (c t')
            (qualified (Hostname (dest cfg)) (name t'))
            (duration w (now w (ticks g) - start t')) in
        (goto t' (Returning Uploaded), Printf g' line)
      else (goto t (Returning Uploaded), g)
  | Returning r =>
      match defers t with
      | d :: ds => call_deferred cfg t d ds g
      | [] => (goto t (Done r), eg_done r g)
      end
  | Panicking _ =>
      match defers t with
      | d :: ds => call_deferred cfg t d ds g
      | [] => (t, panic g)
      end
  end.

(** *** The group *)

(** A goroutine that was started and has not ended holds a slot of the
    group. *)
Definition runnable (t : task) : bool :=
  match at_ t with
  | Queued | Done _ => false
  | _ => true
  end.

Definition is_queued (t : task) : bool :=
  match at_ t with
  | Queued => true
  | _ => false
  end.

Definition b2n (b : bool) : nat := if b then 1%nat else 0%nat.

(** How many tasks satisfy [f]. *)
Fixpoint tally (f : task -> bool) (ts : list task) : nat :=
  match ts with
  | [] => O
  | t :: r => (b2n (f t) + tally f r)%nat
  end.

Definition running (ts : list task) : nat := tally runnable ts.

(** The next item of the [for ... range]/[Scan] loop. *)
Fixpoint next_queued (ts : list task) : option nat :=
  match ts with
  | [] => None
  | t :: r =>
      if is_queued t then Some O
      else match next_queued r with
           | Some k => Some (S k)
           | None => None
           end
  end.

(** [eg.SetLimit(n)]: no limit when [n] is negative, otherwise [eg.Go]
    blocks while [n] goroutines are active. *)
Definition admits (cfg : settings) (ts : list task) : bool :=
  (n cfg <? 0) || (Z.of_nat (running ts) <? n cfg).

(** What the scheduler can pick: the main loop's next [eg.Go], the next
    action of task [i], or the runtime emptying the pool ([sync.Pool]
    may drop idle items at any time). *)
Inductive event := Go | Run (i : nat) | PoolCleanup.

Definition exec (w : world) (cfg : settings) (i : nat) (s : state)
  : option state :=
  match tasks s !! i with
  | Some t =>
      if runnable t then
        let '(t', g') := step_task w cfg (length (tasks s)) i t (sh s) in
        Some {| tasks := <[i := t']> (tasks s); sh := tick g' |}
      else None
  | None => None
  end.

Definition go (cfg : settings) (s : state) : option state :=
  match next_queued (tasks s) with
  | Some i =>
      match tasks s !! i with
      | Some t =>
          if admits cfg (tasks s)
          then Some {| tasks := <[i := goto t AtSelect]> (tasks s);
                       sh := tick (sh s) |}
          else None
      | None => None
      end
  | None => None
  end.

(** One scheduling step; [None] when the event is not enabled. *)
Definition apply_event (w : world) (cfg : settings) (e : event) (s : state)
  : option state :=
  if panicked (sh s) then None
  else match e with
       | Go => go cfg s
       | Run i => exec w cfg i s
       | PoolCleanup =>
           Some {| tasks := tasks s;
                   sh := with_pool (sh s) [] (allocated (sh s)) |}
       end.

Fixpoint run_events (w : world) (cfg : settings) (es : list event) (s : state)
  : option state :=
  match es with
  | [] => Some s
  | e :: r =>
      match apply_event w cfg e s with
      | Some s' => run_events w cfg r s'
      | None => None
      end
  end.

Definition new_task (f : string) : task :=
  {| file := f; at_ := Queued; defers := []; buf := None;
     name := EmptyString; start := 0; c := 0 |}.

Definition init (files : list string) : state :=
  {| tasks := map new_task files;
     sh := {| count := 0; ctxDone := false; err := None; idle := [];
              allocated := O; gcRuns := O; logged := []; io := [];
              ticks := O; panicked := false |} |}.

(** The states a run over the work list [files] passes through. *)
Definition reachable (w : world) (cfg : settings) (files : list string)
    (s : state) : Prop :=
  exists es, run_events w cfg es (init files) = Some s.

Definition is_done (t : task) : bool :=
  match at_ t with
  | Done _ => true
  | _ => false
  end.

Definition is_panicking (t : task) : bool :=
  match at_ t with
  | Panicking _ => true
  | _ => false
  end.

(** [eg.Wait()] returns: every item was submitted and every goroutine
    has ended. *)
Definition finished (s : state) : bool := forallb is_done (tasks s).

(** Buffers checked out of the pool, and buffers alive in all. *)
Definition holds (t : task) : bool :=
  match buf t with
  | Some _ => true
  | None => false
  end.




(** *** What the proofs keep track of *)

Definition all_defers : list deferred :=
  [DeferPoolPut; DeferWriterClose; DeferFileClose].

(** The deferred calls and the buffer of a task, statement by
    statement. *)
Definition task_ok (t : task) : Prop :=
  match at_ t with
  | Queued | AtSelect | AtOpen | Done _ =>
      defers t = [] /\ buf t = None
  | AtNewWriter =>
      defers t = [DeferFileClose] /\ buf t = None
  | AtPoolGet =>
      defers t = [DeferWriterClose; DeferFileClose] /\ buf t = None
  | AtStart | AtCopy | AtClose | AtCountAdd | AtGC | AtLog =>
      defers t = all_defers /\ holds t = true
  | Returning _ | Panicking _ =>
      (defers t = all_defers /\ holds t = true) \/
      (buf t = None /\
       (defers t = [DeferWriterClose; DeferFileClose] \/
        defers t = [DeferFileClose] \/ defers t = []))
  end.

(** Part000 has no [count.Add] and no [runtime.GC] statement of its
    own. *)
Definition in_revision (cfg : settings) (t : task) : Prop :=
  rev cfg = Part000 -> at_ t <> AtCountAdd /\ at_ t <> AtGC.

(** The task is past the log statement of a successful upload. *)
Definition uploaded (t : task) : bool :=
  match at_ t with
  | Returning Uploaded | Done Uploaded => true
  | _ => false
  end.

(** The task has executed its [count.Add(1)]: the statement after
    [w.Close()] from MainA on, an argument of [log.Printf] under
    [if *verbose] in Part000. *)
Definition counted (cfg : settings) (t : task) : bool :=
  match rev cfg with
  | Part000 => verbose cfg && uploaded t
  | _ =>
      match at_ t with
      | AtGC | AtLog => true
      | _ => uploaded t
      end
  end.

Definition skipped (t : task) : bool :=
  match at_ t with
  | Returning Skipped | Done Skipped => true
  | _ => false
  end.

Definition failed (t : task) : bool :=
  match at_ t with
  | Done (Failed _) => true
  | _ => false
  end.

(** The task stands before a [runtime.GC()] that is due. *)
Definition gc_pending (cfg : settings) (t : task) : bool :=
  match at_ t with
  | AtGC => gcDue (gcInterval cfg) (c t)
  | _ => false
  end.

(** The task has computed [name]. *)
Definition named (t : task) : bool :=
  match at_ t with
  | AtPoolGet | AtStart | AtCopy | AtClose | AtCountAdd | AtGC | AtLog => true
  | _ => uploaded t
  end.

(** The tasks are the work list, each one is well-formed, and the
    group's limit is respected. *)
Definition structure (cfg : settings) (files : list string) (s : state) : Prop :=
  Forall task_ok (tasks s) /\
  Forall (in_revision cfg) (tasks s) /\
  map file (tasks s) = files /\
  (0 <= n cfg -> Z.of_nat (running (tasks s)) <= n cfg).


(** The counter is the number of tasks that executed [count.Add(1)],
    and each of them got a value between 1 and the counter. *)
Definition counting (cfg : settings) (s : state) : Prop :=
  count (sh s) = Z.of_nat (tally (counted cfg) (tasks s)) /\
  Forall (fun t => counted cfg t = true -> 1 <= c t <= count (sh s)) (tasks s).

(** The context is cancelled exactly when the group has an error; a
    task is skipped only under a cancelled context, and fails only
    into a group with an error. *)
Definition cancelling (s : state) : Prop :=
  (ctxDone (sh s) = true <-> err (sh s) <> None) /\
  Forall (fun t => skipped t = true -> ctxDone (sh s) = true) (tasks s) /\
  Forall (fun t => failed t = true -> err (sh s) <> None) (tasks s).

(** How many calls of [runtime.GC()] the counter calls for. *)
Definition gc_goal (cfg : settings) (g : shared) : Z :=
  if 0 <? gcInterval cfg then count g / gcInterval cfg else 0.

(** The calls of [runtime.GC()] so far and those about to happen are
    the multiples of the interval up to the counter. *)
Definition reclaiming (cfg : settings) (s : state) : Prop :=
  match rev cfg with
  | Part000 => gcRuns (sh s) = O
  | _ =>
      Z.of_nat (gcRuns (sh s) + tally (gc_pending cfg) (tasks s)) =
      if 0 <? gcInterval cfg then count (sh s) / gcInterval cfg else 0
  end.

(** The line task [t] prints when it logs at tick [k]. *)
Definition line_of (w : world) (cfg : settings) (nfiles : nat) (t : task)
    (k : nat) : string :=
  logLine (countWidth (rev cfg) nfiles) (c t)
    (qualified (Hostname (dest cfg)) (name t))
    (duration w (now w k - start t)).

(** One line per task past the log statement when [-v] is given, none
    otherwise; and [name] is the object name of the task's file. *)
Definition logging (w : world) (cfg : settings) (s : state) : Prop :=
  length (logged (sh s)) =
    (if verbose cfg then tally uploaded (tasks s) else O) /\
  Forall (fun t => uploaded t = true -> verbose cfg = true ->
                   exists k, In (line_of w cfg (length (tasks s)) t k)
                                (logged (sh s)))
         (tasks s) /\
  Forall (fun t => named t = true ->
                   objectName (rev cfg) (filepath.Separator (host cfg))
                     (Path (dest cfg)) (file t) = Some (name t))
         (tasks s).


(** Every call on the file system and on the object store succeeds. *)
Definition calls_succeed (w : world) : Prop :=
  forall i x, open_ok w i x = true /\ copy_ok w i x = true /\ close_ok w i x = true.

(** The task has not returned an error and was not skipped. *)
Definition faultless (t : task) : bool :=
  match at_ t with
  | Returning Uploaded | Done Uploaded => true
  | Returning _ | Done _ => false
  | _ => true
  end.

(** *** How far a task is from its end *)

(** The number of actions a task at this statement can still take, at
    most. *)
Definition rank (t : task) : nat :=
  match at_ t with
  | Queued => 15
  | AtSelect => 14
  | AtOpen => 13
  | AtNewWriter => 12
  | AtPoolGet => 11
  | AtStart => 10
  | AtCopy => 9
  | AtClose => 8
  | AtCountAdd => 7
  | AtGC => 6
  | AtLog => 5
  | Returning _ | Panicking _ => S (length (defers t))
  | Done _ => 0
  end.

Fixpoint total (f : task -> nat) (ts : list task) : nat :=
  match ts with
  | [] => O
  | t :: r => (f t + total f r)%nat
  end.

Definition measure (s : state) : nat := total rank (tasks s).

(** No goroutine panics: the slice expression [dest.Path[1:]] of the
    closure is in range, and the length of the copy buffers is positive
    and one that [make] accepts. *)
Definition panic_free (cfg : settings) : Prop :=
  (rev cfg = Part000 \/ Path (dest cfg) <> EmptyString) /\
  0 < bufSize cfg <= maxAlloc.

(** Every buffer finds its memory. *)
Definition memory_suffices (w : world) : Prop :=
  forall k, make_ok w k = true.

End Upload.

(** ** [run] before the worker pool: flags, destination, work list *)

Module Run.

Import Upload.

(** The flags after [flag.Parse()], and the positional arguments.  The
    size [-chunk] only sets the writer's [ChunkSize] and is left out. *)
Record flags := {
  flag_n : Z;            (* -n *)
  flag_s : bool;         (* -s, Part000 to MainB *)
  flag_v : bool;         (* -v *)
  flag_gc : Z;           (* -gc, MainA on *)
  flag_buf : Z;          (* -buf: MiB in MainA, bytes in MainB and Part001 *)
  flag_shuffle : bool;   (* -shuffle, Part001 *)
  flag_l : string;       (* -l, Part001 *)
  flag_d : string;       (* -d, Part001 *)
  args : list string;    (* flag.Args() *)
}.

(** Calls that leave the process before the workers start. *)
Inductive call :=
| PrintUsage
| ParseURI (arg : string)
| CreateTemp (k : nat)
| WalkDirCall (root : string)
| WriteStrings (name : string)
| OpenFile (name : string)
| ReadStdin
| NewClient.

(** Only [flag.Usage()] and the parsing of the argument touch neither
    the file system nor the network. *)
Definition is_io (k : call) : bool :=
  match k with
  | PrintUsage | ParseURI _ => false
  | _ => true
  end.

Inductive listfile_error :=
| CreateListFile         (* "create list file: %w" *)
| WalkError (dir : string) (* "walk(%s): %w", a failed write included *)
| WritePath              (* "write path: %w" *)
| CloseListFile          (* "close list file: %w" *)
| OpenListFile           (* "open list file: %w" *)
| ScanListFile           (* "scan list file: %w" *)
| ShufflePanic.          (* an index out of range in the swap *)

Inductive run_error :=
| InvalidArgs                      (* "invalid args" *)
| TargetNotFound                   (* "target not found: please use either -l or -d" *)
| BothTargets                      (* "cannot use both -l and -d" *)
| ParseDest                        (* "parse dest: %w" *)
| DestScheme (scheme : string)     (* "dest must start with gs://: %s" *)
| WalkSrc                          (* "walk src: %w" *)
| WriteListFileError (e : listfile_error)   (* "write list file: %w" *)
| ShuffleListFileError (e : listfile_error) (* "shuffle list file: %w" *)
| OpenListFileError                (* "open list file: %w" *)
| StorageClient                    (* "storage client: %w" *)
| ShufflePanics                    (* the swap indexes out of range *)
| Uploads (e : task_error)         (* "uploads: %w" *)
| ScanError.                       (* "scan list file: %w" *)

(** The process's surroundings. *)
Record os_world := {
  ParseRequestURI : string -> option URL;
  WalkDir : string -> list string * bool;
    (* the regular files fs.WalkDir visits below a root, in order, and
       whether the walk then fails *)
  stdin : string;
  TempName : nat -> string;         (* the name of the k-th temp file *)
  CreateTemp_ok : nat -> bool;
  WriteString_ok : string -> bool;  (* writes to this file succeed *)
  Close_ok : string -> bool;        (* closing this file succeeds *)
  NewClient_ok : bool;
  draw : nat -> nat;                (* the random source *)
  default_bufSize : Z -> Z;
    (* MainA without -buf: int((24 * 16 / float64(n)) * 1024 * 1024), a
       floating-point expression that is not evaluated here *)
  the_host : filepath.host;
}.

Record os_state := {
  disk : gmap string string;   (* the readable files, by name *)
  temps : nat;                 (* temp files created so far *)
  removals : list string;      (* defer os.Remove(lf) *)
  trace : list call;           (* last call first *)
}.

Definition called (s : os_state) (k : call) : os_state :=
  {| disk := disk s; temps := temps s; removals := removals s;
     trace := k :: trace s |}.

Definition written (s : os_state) (name content : string) : os_state :=
  {| disk := <[name := content]> (disk s); temps := temps s;
     removals := removals s; trace := trace s |}.

Definition created (s : os_state) (name : string) : os_state :=
  {| disk := <[name := EmptyString]> (disk s); temps := S (temps s);
     removals := removals s; trace := trace s |}.

Definition defer_Remove (s : os_state) (name : string) : os_state :=
  {| disk := disk s; temps := temps s; removals := name :: removals s;
     trace := trace s |}.

(** The bytes written by a loop of [WriteString(p + "\n")]. *)
Fixpoint lines (paths : list string) : string :=
  match paths with
  | [] => EmptyString
  | p :: r => p +:+ String "010" (lines r)
  end.

(** [openFile]: standard input for [-], the named file otherwise; the
    content read, or [None] when [os.Open] fails. *)
Definition openFile (w : os_world) (name : string) (s : os_state)
  : os_state * option string :=
  if String.eqb name "-" then (called s ReadStdin, Some (stdin w))
  else (called s (OpenFile name), disk s !! name).

(** [writeListFile(dir)]: the name returned (empty when no file was
    created) and the error. *)
Definition writeListFile (w : os_world) (dir : string) (s : os_state)
  : os_state * (string * option listfile_error) :=
  let k := temps s in
  let s1 := called s (CreateTemp k) in
  if negb (CreateTemp_ok w k) then (s1, (EmptyString, Some CreateListFile))
  else
    let f := TempName w k in
    let s2 := called (created s1 f) (WalkDirCall dir) in
    let '(paths, walk_failed) := WalkDir w dir in
    match paths with
    | _ :: _ =>
        if negb (WriteString_ok w f) then (called s2 (WriteStrings f), (f, Some (WalkError dir)))
        else
          let s3 := written (called s2 (WriteStrings f)) f (lines paths) in
          if walk_failed then (s3, (f, Some (WalkError dir)))
          else if negb (Close_ok w f) then (s3, (f, Some CloseListFile))
          else (s3, (f, None))
    | [] =>
        if walk_failed then (s2, (f, Some (WalkError dir)))
        else if negb (Close_ok w f) then (s2, (f, Some CloseListFile))
        else (s2, (f, None))
    end.

(** [shuffleListFile(listFile)]. *)
Definition shuffleListFile (w : os_world) (listFile : string) (s : os_state)
  : os_state * (string * option listfile_error) :=
  match openFile w listFile s with
  | (s1, None) => (s1, (EmptyString, Some OpenListFile))
  | (s1, Some content) =>
      let '(files, tooLong) := bufio.ScanLines content in
      if tooLong then (s1, (EmptyString, Some ScanListFile))
      else
        match rand.Shuffle (draw w) files with
        | None => (s1, (EmptyString, Some ShufflePanic))
        | Some files' =>
            let k := temps s1 in
            let s2 := called s1 (CreateTemp k) in
            if negb (CreateTemp_ok w k)
            then (s2, (EmptyString, Some CreateListFile))
            else
              let tf := TempName w k in
              let s3 := called (created s2 tf) (WriteStrings tf) in
              match files' with
              | _ :: _ =>
                  if negb (WriteString_ok w tf)
                  then (s3, (EmptyString, Some WritePath))
                  else if negb (Close_ok w tf)
                  then (written s3 tf (lines files'), (EmptyString, Some CloseListFile))
                  else (written s3 tf (lines files'), (tf, None))
              | [] =>
                  if negb (Close_ok w tf)
                  then (s3, (EmptyString, Some CloseListFile))
                  else (s3, (tf, None))
              end
        end
  end.

(** What [run] hands to the worker pool. *)
Record plan := {
  cfg : settings;
  work : list string;     (* the items [eg.Go] is called on, in order *)
  scanErr : bool;         (* listFileScanner.Err() != nil afterwards *)
}.

(** [if lf != "" { defer os.Remove(lf) }]. *)
Definition defer_Remove_if (s : os_state) (lf : string) : os_state :=
  if String.eqb lf "" then s else defer_Remove s lf.

(** [run] of Part001 up to the loop over the list file.  The result is
    the error returned, or the plan of the uploads. *)
Definition run_Part001 (w : os_world) (fl : flags) (s : os_state)
  : os_state * (run_error + plan) :=
  match args fl with
  | [arg0] =>
      if String.eqb (flag_l fl) "" && String.eqb (flag_d fl) ""
      then (called s PrintUsage, inl TargetNotFound)
      else if negb (String.eqb (flag_l fl) "") && negb (String.eqb (flag_d fl) "")
      then (called s PrintUsage, inl BothTargets)
      else
        let s0 := called s (ParseURI arg0) in
        match ParseRequestURI w arg0 with
        | None => (s0, inl ParseDest)
        | Some dst =>
            if negb (String.eqb (Scheme dst) "gs")
            then (s0, inl (DestScheme (Scheme dst)))
            else
              (* if *dir != "" { lf, err := writeListFile of *dir ... } *)
              let '(s1, r1) :=
                if negb (String.eqb (flag_d fl) "") then
                  let '(s', (lf, e)) := writeListFile w (flag_d fl) s0 in
                  (defer_Remove_if s' lf,
                   match e with
                   | Some e' => inl (WriteListFileError e')
                   | None => inr lf
                   end)
                else (s0, inr (flag_l fl)) in
              match r1 with
              | inl e => (s1, inl e)
              | inr listFilePath1 =>
                  (* if *shuffle { lf, err := shuffleListFile of *listFilePath ... } *)
                  let '(s2, r2) :=
                    if flag_shuffle fl then
                      let '(s', (lf, e)) := shuffleListFile w listFilePath1 s1 in
                      (defer_Remove_if s' lf,
                       match e with
                       | Some e' => inl (ShuffleListFileError e')
                       | None => inr lf
                       end)
                    else (s1, inr listFilePath1) in
                  match r2 with
                  | inl e => (s2, inl e)
                  | inr listFilePath2 =>
                      match openFile w listFilePath2 s2 with
                      | (s3, None) => (s3, inl OpenListFileError)
                      | (s3, Some content) =>
                          let s4 := called s3 NewClient in
                          if negb (NewClient_ok w) then (s4, inl StorageClient)
                          else
                            let '(toks, tooLong) := bufio.ScanLines content in
                            (s4,
                             inr {| cfg := {| rev := Part001;
                                              n := flag_n fl;
                                              verbose := flag_v fl;
                                              gcInterval := flag_gc fl;
                                              bufSize := flag_buf fl;
                                              src := flag_d fl;
                                              dest := dst;
                                              host := the_host w |};
                                    work := toks;
                                    scanErr := tooLong |})
                      end
                  end
              end
        end
  | _ => (called s PrintUsage, inl InvalidArgs)
  end.

(** Go's [int] on a 64-bit platform: a product wraps around. *)
Definition wrap_int (z : Z) : Z := (z + 2 ^ 63) mod 2 ^ 64 - 2 ^ 63.

(** [run] of Part000, MainA and MainB up to the loop over [files];
    [inr None] is the [return nil] on an empty directory. *)
Definition run_walk (r : revision) (w : os_world) (fl : flags) (s : os_state)
  : os_state * (run_error + option plan) :=
  match args fl with
  | [arg0; arg1] =>
      let s0 := called s (ParseURI arg1) in
      match ParseRequestURI w arg1 with
      | None => (s0, inl ParseDest)
      | Some dst =>
          if negb (String.eqb (Scheme dst) "gs")
          then (s0, inl (DestScheme (Scheme dst)))
          else
            let s1 := called s0 (WalkDirCall arg0) in
            let '(files, walk_failed) := WalkDir w arg0 in
            if walk_failed then (s1, inl WalkSrc)
            else
              match files with
              | [] => (s1, inr None)
              | _ :: _ =>
                  match (if flag_s fl then Some files
                         else rand.Shuffle (draw w) files) with
                  | None => (s1, inl ShufflePanics)
                  | Some files' =>
                      let s2 := called s1 NewClient in
                      if negb (NewClient_ok w) then (s2, inl StorageClient)
                      else
                        (s2,
                         inr (Some {| cfg := {| rev := r;
                                                n := flag_n fl;
                                                verbose := flag_v fl;
                                                gcInterval :=
                                                  match r with
                                                  | Part000 => 0
                                                  | _ => flag_gc fl
                                                  end;
                                                bufSize :=
                                                  match r with
                                                  | Part000 => 16 * 1024 * 1024
                                                  | MainA =>
                                                      if 0 <? flag_buf fl
                                                      then wrap_int (flag_buf fl * 1024 * 1024)
                                                      else default_bufSize w (flag_n fl)
                                                  | _ => flag_buf fl
                                                  end;
                                                src := arg0;
                                                dest := dst;
                                                host := the_host w |};
                                      work := files';
                                      scanErr := false |}))
                  end
              end
      end
  | _ => (called s PrintUsage, inl InvalidArgs)
  end.

(** The same flags without [-shuffle]. *)
Definition without_shuffle (fl : flags) : flags :=
  {| flag_n := flag_n fl; flag_s := flag_s fl; flag_v := flag_v fl;
     flag_gc := flag_gc fl; flag_buf := flag_buf fl; flag_shuffle := false;
     flag_l := flag_l fl; flag_d := flag_d fl; args := args fl |}.

(** What [run] returns once [eg.Wait()] has returned in state [final]:
    the group's error, else the scanner's, else [nil] after the
    ["total: %s"] line. *)
Definition run_result (p : plan) (final : state) : option run_error :=
  match err (sh final) with
  | Some e => Some (Uploads e)
  | None => if scanErr p then Some ScanError else None
  end.

End Run.

(** ** Concrete runs

    The scenario of the specification: the files [a.txt], [b/c.txt] and
    [d.bin], destination [gs://bucket/prefix], limit 2, no shuffle, on a
    Unix host. *)

Module Scenario.

Import Upload.

Definition bucket_prefix : URL :=
  {| Scheme := "gs"; Hostname := "bucket"; Path := "/prefix" |}.

Definition three_files : list string := ["a.txt"; "b/c.txt"; "d.bin"].

(** A world in which every call succeeds, the pool reuses its buffers,
    and the clock advances by a millisecond per action. *)
Definition fair_weather : world :=
  {| open_ok := fun _ _ => true;
     copy_ok := fun _ _ => true;
     close_ok := fun _ _ => true;
     pool_reuse := fun _ => true;
     make_ok := fun _ => true;
     now := fun k => Z.of_nat k * 1000000;
     duration := fun d => GoStrconv.Itoa (d / 1000000) +:+ "ms" |}.

(** The same world, except that [os.Open] fails for task 0. *)
Definition first_open_fails : world :=
  {| open_ok := fun i _ => negb (Nat.eqb i 0);
     copy_ok := fun _ _ => true;
     close_ok := fun _ _ => true;
     pool_reuse := fun _ => true;
     make_ok := fun _ => true;
     now := fun k => Z.of_nat k * 1000000;
     duration := fun d => GoStrconv.Itoa (d / 1000000) +:+ "ms" |}.

Definition settings_of (r : revision) (v : bool) (gc : Z) : settings :=
  {| rev := r; n := 2; verbose := v; gcInterval := gc;
     bufSize := 512 * 1024; src := "data";
     dest := bucket_prefix; host := filepath.unix |}.

(** The main loop submits item [i] and the scheduler then runs that
    goroutine for [k] actions. *)
Definition submit_and_run (i k : nat) : list event := Go :: repeat (Run i) k.

(** One file after the other; a task takes at most 14 actions. *)
Definition one_by_one : list event :=
  submit_and_run 0 14 ++ submit_and_run 1 14 ++ submit_and_run 2 14.

(** Two goroutines at a time: tasks 0 and 1 alternate, then task 2. *)
Definition two_at_a_time : list event :=
  [Go; Go] ++ concat (repeat [Run 0; Run 1] 14) ++ submit_and_run 2 14.

(** The state a schedule leads to (the initial state when the schedule
    is not a run). *)
Definition outcome (w : world) (cfg : settings) (es : list event)
    (files : list string) : state :=
  match run_events w cfg es (init files) with
  | Some s => s
  | None => init files
  end.

(** What [url.ParseRequestURI] returns on the addresses the runs below
    are given: each one has a scheme, a host and a path, the empty one
    for [gs://bucket]. *)
Definition addresses : list (string * URL) :=
  [("gs://bucket/prefix", bucket_prefix);
   ("gs://bucket", {| Scheme := "gs"; Hostname := "bucket"; Path := "" |});
   ("s3://bucket/prefix",
    {| Scheme := "s3"; Hostname := "bucket"; Path := "/prefix" |})]%string.

Fixpoint address_of (table : list (string * URL)) (arg : string) : option URL :=
  match table with
  | [] => None
  | (a, u) :: rest => if String.eqb arg a then Some u else address_of rest arg
  end.

(** The surroundings of the scenario: the directory [data] holds the
    three files, [list.txt] lists them, every call succeeds, and the
    random source always draws 0. *)
Definition surroundings : Run.os_world :=
  {| Run.ParseRequestURI := address_of addresses;
     Run.WalkDir := fun root =>
       if String.eqb root "data" then (three_files, false) else ([], true);
     Run.stdin := EmptyString;
     Run.TempName := fun k => "/tmp/" +:+ GoStrconv.Itoa (Z.of_nat k);
     Run.CreateTemp_ok := fun _ => true;
     Run.WriteString_ok := fun _ => true;
     Run.Close_ok := fun _ => true;
     Run.NewClient_ok := true;
     Run.draw := fun _ => O;
     Run.default_bufSize := fun n => 402653184 / n;
     Run.the_host := filepath.unix |}.

Definition newline : string := String "010" EmptyString.

(** A list file with a blank line between its two paths. *)
Definition with_blank_line : string :=
  "a.txt" +:+ newline +:+ newline +:+ "d.bin" +:+ newline.

Definition at_start : Run.os_state :=
  {| Run.disk :=
       <["blank.txt" := with_blank_line]>
         (<["list.txt" := Run.lines three_files]> ∅);
     Run.temps := O; Run.removals := []; Run.trace := [] |}.

Definition flags_of (l d : string) (shuffle : bool) (args : list string)
  : Run.flags :=
  {| Run.flag_n := 2; Run.flag_s := true; Run.flag_v := false;
     Run.flag_gc := 0; Run.flag_buf := 512 * 1024; Run.flag_shuffle := shuffle;
     Run.flag_l := l; Run.flag_d := d; Run.args := args |}.


(** The settings with another value of [-n]. *)
Definition limit_to (k : Z) (cfg : settings) : settings :=
  {| rev := rev cfg; n := k; verbose := verbose cfg;
     gcInterval := gcInterval cfg; bufSize := bufSize cfg; src := src cfg;
     dest := dest cfg; host := host cfg |}.

End Scenario.

(** ** The method [String] of [bytesValue] (revisions MainB and Part001) *)

Module BytesValueString.

Import GoStrings GoStrconv BytesValue.

(** [strconv.FormatUint(v, 10)] on a [uint64]. *)
Definition FormatUint (v : Z) : string :=
  NilZero.string_of_uint (N.to_uint (Z.to_N v)).

(** The [for _, u := range bytesUnits] loop of [String] on the value
    [b]: the first unit that is not larger than [b] is divided out; the
    [return "0"] after the loop is reached by the zero value only. *)
Fixpoint String_loop (units : list (string * Z)) (b : Z) : string :=
  match units with
  | [] => "0"
  | (suffix, value) :: rest =>
      if value <=? b then FormatUint (b / value) +:+ suffix
      else String_loop rest b
  end.

(** [func (b *bytesValue) String() string]. *)
Definition bytesValue_String (b : Z) : string := String_loop bytesUnits b.

(** The strings made of decimal digits only, the ones [ParseUint] reads
    when they are not empty. *)
Fixpoint decimal (s : string) : bool :=
  match s with
  | EmptyString => true
  | String c r =>
      match digit c with
      | Some _ => decimal r
      | None => false
      end
  end.

(** A run of digits that starts with a digit other than 0. *)
Definition leading (d : Decimal.uint) : bool :=
  match d with
  | Decimal.Nil | Decimal.D0 _ => false
  | _ => true
  end.

End BytesValueString.

(** ** What a run leaves in the log of calls *)

Module Ledger.

Import Upload.

Definition is_copy (e : io_event) : bool :=
  match e with
  | CopyBuffer _ _ => true
  | _ => false
  end.

(** The calls of [io.CopyBuffer] made so far, last one first. *)
Definition copies (g : shared) : list io_event := List.filter is_copy (io g).

(** The closure returns this after its [io.CopyBuffer]. *)
Definition wrote (r : outcome) : bool :=
  match r with
  | Uploaded | Failed (UploadError _) | Failed (CloseWriter _) => true
  | Skipped | Failed (OpenUploadFile _) => false
  end.

(** The task is past its [io.CopyBuffer]. *)
Definition copied (t : task) : bool :=
  match at_ t with
  | AtClose | AtCountAdd | AtGC | AtLog => true
  | Returning r | Done r => wrote r
  | _ => false
  end.

(** The copy the closure makes of the item [f]: from the local path to
    the object name; none when the name cannot be computed. *)
Definition upload_of (cfg : settings) (f : string) : option io_event :=
  match objectName (rev cfg) (filepath.Separator (host cfg))
          (Path (dest cfg)) f with
  | Some nm => Some (CopyBuffer nm (localPath cfg f))
  | None => None
  end.

(** The task has computed [name]. *)
Definition has_name (t : task) : bool :=
  match at_ t with
  | AtPoolGet | AtStart | AtCopy | AtClose | AtCountAdd | AtGC | AtLog => true
  | Returning r | Done r => wrote r
  | _ => false
  end.

Definition copy_of (cfg : settings) (t : task) : io_event :=
  CopyBuffer (name t) (localPath cfg (file t)).

(** The copies made are those of the tasks past their copy, and a
    task that has a name has the object name of its item. *)
Definition ledger (cfg : settings) (s : state) : Prop :=
  copies (sh s) ≡ₚ map (copy_of cfg) (List.filter copied (tasks s)) /\
  Forall (fun t => has_name t = true ->
                   objectName (rev cfg) (filepath.Separator (host cfg))
                     (Path (dest cfg)) (file t) = Some (name t))
         (tasks s).

End Ledger.

Module Calls.

Import Upload Ledger.

Definition is_open (e : io_event) : bool :=
  match e with OsOpen _ => true | _ => false end.

Definition is_new_writer (e : io_event) : bool :=
  match e with NewWriter _ => true | _ => false end.

Definition is_writer_close (e : io_event) : bool :=
  match e with WriterClose _ => true | _ => false end.

Definition is_file_close (e : io_event) : bool :=
  match e with FileClose _ => true | _ => false end.

(** How many calls of a kind were made so far. *)
Definition calls (kind : io_event -> bool) (g : shared) : nat :=
  length (List.filter kind (io g)).

Definition is_file_close_call (d : deferred) : bool :=
  match d with DeferFileClose => true | _ => false end.

Definition is_writer_close_call (d : deferred) : bool :=
  match d with DeferWriterClose => true | _ => false end.

(** The task has a local file open: its [defer r.Close()] is pending. *)
Definition file_open (t : task) : bool := existsb is_file_close_call (defers t).

(** The task has a writer open: its [defer w.Close()] is pending. *)
Definition writer_open (t : task) : bool := existsb is_writer_close_call (defers t).

(** The closure returns this after an explicit [w.Close()]. *)
Definition closed (r : outcome) : bool :=
  match r with
  | Uploaded | Failed (CloseWriter _) => true
  | _ => false
  end.

(** The calls a task has made, by the statement it is at. *)
Definition opens (t : task) : nat :=
  match at_ t with
  | Queued | AtSelect | AtOpen => 0
  | Returning Skipped | Done Skipped => 0
  | _ => 1
  end.

(** The closure has created its writer when it panics with this
    value. *)
Definition past_writer (v : panic_value) : bool :=
  match v with
  | SliceBounds => false
  | MakesliceLen | EmptyBuffer => true
  end.

Definition writers (t : task) : nat :=
  match at_ t with
  | AtPoolGet | AtStart | AtCopy | AtClose | AtCountAdd | AtGC | AtLog => 1
  | Returning r | Done r => b2n (wrote r)
  | Panicking v => b2n (past_writer v)
  | _ => 0
  end.

Definition file_closes (t : task) : nat :=
  match at_ t with
  | Returning r => b2n (wrote r && negb (file_open t))
  | Done r => b2n (wrote r)
  | Panicking _ => b2n (negb (file_open t))
  | _ => 0
  end.

Definition writer_closes (t : task) : nat :=
  match at_ t with
  | AtCountAdd | AtGC | AtLog => 1
  | Returning r => b2n (closed r) + b2n (wrote r && negb (writer_open t))
  | Done r => b2n (closed r) + b2n (wrote r)
  | Panicking v => b2n (past_writer v && negb (writer_open t))
  | _ => 0
  end.

(** A task that returns without having opened its file has no deferred
    call, and one that panics before it has a writer has no deferred
    [w.Close()]. *)
Definition returning_ok (t : task) : Prop :=
  match at_ t with
  | Returning r => wrote r = false -> defers t = []
  | Panicking v => past_writer v = false -> writer_open t = false
  | _ => True
  end.

(** The calls made are the calls of the tasks. *)
Definition balanced (s : state) : Prop :=
  Forall returning_ok (tasks s) /\
  calls is_open (sh s) = total opens (tasks s) /\
  calls is_new_writer (sh s) = total writers (tasks s) /\
  calls is_copy (sh s) = total (fun t => b2n (copied t)) (tasks s) /\
  calls is_writer_close (sh s) = total writer_closes (tasks s) /\
  calls is_file_close (sh s) = total file_closes (tasks s).

End Calls.

(** ** More of what the proofs keep track of *)

Module Watch.

Import Upload Ledger Calls.

(** The destination has no path: a task gets as far as the statement
    that computes [name], where it panics with its file open; a task
    that returns has no deferred call. *)
Definition before_name (t : task) : Prop :=
  match at_ t with
  | Queued | AtSelect | AtOpen => defers t = []
  | AtNewWriter => defers t = [DeferFileClose]
  | Returning r | Done r => wrote r = false /\ defers t = []
  | Panicking _ => defers t = [DeferFileClose] \/ defers t = []
  | _ => False
  end.

Definition is_open_or_close (e : io_event) : bool :=
  match e with
  | OsOpen _ | FileClose _ => true
  | _ => false
  end.

Definition nameless (s : state) : Prop :=
  Forall before_name (tasks s) /\
  forallb is_open_or_close (io (sh s)) = true.

(** The buffers cannot be copied into, or cannot be made: a task gets
    as far as its [io.CopyBuffer] and no further, and a buffer is held
    only when its length is 0. *)
Definition before_copy (cfg : settings) (t : task) : Prop :=
  (holds t = true -> bufSize cfg = 0) /\
  match at_ t with
  | AtClose | AtCountAdd | AtGC | AtLog => False
  | Returning r | Done r => wrote r = false
  | _ => True
  end.

Definition bufferless (cfg : settings) (s : state) : Prop :=
  Forall (before_copy cfg) (tasks s) /\
  Forall task_ok (tasks s) /\
  (bufSize cfg <> 0 -> idle (sh s) = []) /\
  copies (sh s) = [].

(** The values of [c] of the tasks that have counted are the numbers
    from 1 to the counter. *)
Definition numbering (cfg : settings) (s : state) : Prop :=
  0 <= count (sh s) /\
  map c (List.filter (counted cfg) (tasks s))
  ≡ₚ seqZ 1 (count (sh s)).

(** The group's error is the error of a task that has ended. *)
Definition blaming (s : state) : Prop :=
  forall x, err (sh s) = Some x ->
    exists i t, tasks s !! i = Some t /\ at_ t = Done (Failed x).



(** The items not yet submitted are a tail of the list. *)
Definition in_order (s : state) : Prop :=
  forall i j ti tj, (i < j)%nat ->
    tasks s !! i = Some ti -> tasks s !! j = Some tj ->
    is_queued ti = true -> is_queued tj = true.

End Watch.

Module TempFiles.

Import Run.

(** Every temp file created since [s] is scheduled for removal in [s1]. *)
Definition accounted (w : os_world) (s s1 : os_state) : Prop :=
  (temps s <= temps s1)%nat /\
  (length (removals s1) = length (removals s) + (temps s1 - temps s))%nat /\
  forall k, (temps s <= k < temps s1)%nat -> In (TempName w k) (removals s1).

End TempFiles.

(** ** More concrete runs *)

Module Cases.

Import Upload.

(** The destination [gs://bucket]: no path. *)
Definition bucket_only : URL :=
  {| Scheme := "gs"; Hostname := "bucket"; Path := "" |}.

(** The settings with another destination. *)
Definition sent_to (d : URL) (cfg : settings) : settings :=
  {| rev := rev cfg; n := n cfg; verbose := verbose cfg;
     gcInterval := gcInterval cfg; bufSize := bufSize cfg; src := src cfg;
     dest := d; host := host cfg |}.

(** The settings with another buffer size. *)
Definition buffers_of (k : Z) (cfg : settings) : settings :=
  {| rev := rev cfg; n := n cfg; verbose := verbose cfg;
     gcInterval := gcInterval cfg; bufSize := k; src := src cfg;
     dest := dest cfg; host := host cfg |}.

Definition cr : string := String "013" EmptyString.

(** A list file written on Windows, the last line without an end. *)
Definition crlf_list : string :=
  Run.lines (map (fun q => q +:+ cr) ["a.txt"; "b/c.txt"]) +:+ "d.bin".

(** A list file whose first line ends in two carriage returns. *)
Definition cr_list : string :=
  "a" +:+ cr +:+ cr +:+ Scenario.newline +:+ "b" +:+ Scenario.newline.

(** A line that fills the scanner's buffer. *)
Definition long_line : string := fmt.spaces bufio.MaxScanTokenSize.

(** A list file whose second line is too long. *)
Definition long_list : string :=
  Run.lines ["a.txt"] +:+ long_line +:+ Scenario.newline +:+ "d.bin".

Definition with_lists : Run.os_state :=
  {| Run.disk :=
       <["long.txt" := long_list]>
         (<["crlf.txt" := crlf_list]> (<["cr.txt" := cr_list]> ∅));
     Run.temps := O; Run.removals := []; Run.trace := [] |}.

(** The surroundings of the scenario with an empty directory beside
    [data]. *)
Definition with_empty_directory : Run.os_world :=
  {| Run.ParseRequestURI := Run.ParseRequestURI Scenario.surroundings;
     Run.WalkDir := fun root =>
       if String.eqb root "empty" then ([], false)
       else Run.WalkDir Scenario.surroundings root;
     Run.stdin := EmptyString;
     Run.TempName := Run.TempName Scenario.surroundings;
     Run.CreateTemp_ok := fun _ => true;
     Run.WriteString_ok := fun _ => true;
     Run.Close_ok := fun _ => true;
     Run.NewClient_ok := true;
     Run.draw := fun _ => O;
     Run.default_bufSize := Run.default_bufSize Scenario.surroundings;
     Run.the_host := filepath.unix |}.

(** The task of [b/c.txt] when the scenario has run with [-v] in MainB, one
    file after the other. *)
Definition second_task : task :=
  Eval vm_compute in
    nth 1 (tasks (Scenario.outcome Scenario.fair_weather
                           (Scenario.settings_of MainB true 0)
                           Scenario.one_by_one Scenario.three_files))
      (new_task "").

End Cases.


(* ================================================================== *)
(** * Properties *)

Module GoStringsFacts.
Import GoStrings.

Lemma substring_length_0 (s : string) :
  substring (String.length s) 0 s = EmptyString.
Proof.
  induction s as [|c r IH]; simpl; [reflexivity|exact IH].
Qed.

(** Every string has the empty suffix. *)
Lemma HasSuffix_empty (s : string) : HasSuffix s "" = true.
Proof.
  unfold HasSuffix. simpl.
  rewrite Nat.sub_0_r, substring_length_0. reflexivity.
Qed.

End GoStringsFacts.

Module BytesValueFacts.
Import GoStrings GoStrconv BytesValue GoStringsFacts.

Example Set_10mb :
  bytesValue_Set ToLowerASCII 0 "10MB" = Returned (10 * 1024 * 1024) None.
Proof. vm_compute. reflexivity. Qed.

Example Set_512k :
  bytesValue_Set ToLowerASCII 0 "512k" = Returned (512 * 1024) None.
Proof. vm_compute. reflexivity. Qed.

Example Set_plain : bytesValue_Set ToLowerASCII 0 "4096" = Returned 4096 None.
Proof. vm_compute. reflexivity. Qed.

Example Set_bad : bytesValue_Set ToLowerASCII 7 "12x" = Returned 7 (Some ("12x", ErrSyntax)).
Proof. vm_compute. reflexivity. Qed.

Example Set_only_suffix : bytesValue_Set ToLowerASCII 7 "b" = Returned 7 (Some ("b", ErrSyntax)).
Proof. vm_compute. reflexivity. Qed.

Example Set_range :
  bytesValue_Set ToLowerASCII 7 "18446744073709551616"
  = Returned 7 (Some ("18446744073709551616", ErrRange)).
Proof. vm_compute. reflexivity. Qed.

(** The product [v * u.value] is a [uint64] product and wraps. *)
Example Set_wraps :
  bytesValue_Set ToLowerASCII 0 "18446744073709551615m" = Returned (2 ^ 64 - 2 ^ 20) None.
Proof. vm_compute. reflexivity. Qed.

(** The loop over a table that ends in the empty suffix never falls
    through: it returns at the first entry whose suffix matches. *)
Lemma Set_loop_returns (units : list (string * Z)) b s x :
  (exists u, In u units /\ HasSuffix x (fst u) = true) ->
  exists (u : string * Z),
    In u units /\ HasSuffix x (fst u) = true /\
    Set_loop units b s x =
      match ParseUint (TrimSuffix x (fst u)) with
      | (_, Some e) => Returned b (Some (s, e))
      | (v, None) => Returned (wrap64 (v * snd u)) None
      end.
Proof.
  induction units as [|[suffix value] rest IH]; intros [u [Hin Hu]].
  - destruct Hin.
  - simpl. destruct (HasSuffix x suffix) eqn:Hs; simpl.
    + exists (suffix, value). simpl. split; [left; reflexivity|].
      split; [exact Hs|reflexivity].
    + destruct Hin as [<-|Hin]; [simpl in Hu; congruence|].
      destruct IH as [u' [Hin' [Hu' Heq]]]; [exists u; auto|].
      exists u'. split; [right; exact Hin'|]. split; assumption.
Qed.

End BytesValueFacts.


(** ** [rand.Shuffle] permutes *)

Module RandFacts.
Import rand.

Section Swap.
Context {A : Type}.
Implicit Types l : list A.

(** Moving the head into position [j] and the element there to the
    front. *)
Lemma exchange_head l j a y :
  l !! j = Some y -> y :: <[j:=a]> l ≡ₚ a :: l.
Proof.
  revert j. induction l as [|b l IH]; intros [|j] Hj; simpl in *;
    try discriminate.
  - injection Hj as ->. apply perm_swap.
  - rewrite (perm_swap b y), (IH _ Hj). apply perm_swap.
Qed.

Lemma swap_Some l i j :
  (i < length l)%nat -> (j < length l)%nat -> is_Some (swap l i j).
Proof.
  intros Hi Hj. unfold swap.
  destruct (lookup_lt_is_Some_2 l i Hi) as [x ->].
  destruct (lookup_lt_is_Some_2 l j Hj) as [y ->]. eauto.
Qed.

Lemma swap_length l i j l' : swap l i j = Some l' -> length l' = length l.
Proof.
  unfold swap. destruct (l !! i), (l !! j); intros [= <-].
  now rewrite !length_insert.
Qed.

Lemma swap_Permutation l i j l' : swap l i j = Some l' -> l ≡ₚ l'.
Proof.
  unfold swap.
  destruct (l !! i) as [x|] eqn:Hi; [|discriminate].
  destruct (l !! j) as [y|] eqn:Hj; [|discriminate].
  intros [= <-]. symmetry.
  revert i j Hi Hj.
  induction l as [|a l IH]; intros [|i] [|j] Hi Hj; simpl in *;
    try discriminate.
  - injection Hi as ->. injection Hj as ->. reflexivity.
  - injection Hi as ->. now apply exchange_head.
  - injection Hj as ->. now apply exchange_head.
  - constructor. now apply IH.
Qed.

End Swap.

(** The loop never indexes out of range and permutes the slice. *)
Lemma Shuffle_loop_Permutation {A} (draw : nat -> nat) (k : nat) (l : list A) :
  (k < length l)%nat \/ k = O ->
  exists l', Shuffle_loop draw k l = Some l' /\ l ≡ₚ l' /\ length l' = length l.
Proof.
  revert l. induction k as [|k IH]; intros l Hk.
  - exists l. simpl. auto.
  - destruct Hk as [Hk|Hk]; [|discriminate].
    assert (Hj : (draw (S k) mod (S k + 1) < length l)%nat).
    { pose proof (Nat.mod_upper_bound (draw (S k)) (S k + 1)). lia. }
    destruct (swap_Some l (S k) _ Hk Hj) as [l1 H1].
    pose proof (swap_length _ _ _ _ H1) as Hlen.
    pose proof (swap_Permutation _ _ _ _ H1) as Hperm.
    destruct (IH l1) as [l' [Hl' [Hp' Hlen']]]; [left; lia|].
    exists l'. cbn [Shuffle_loop]. rewrite H1.
    split; [exact Hl'|]. split; [now rewrite Hperm|lia].
Qed.

Lemma Shuffle_Permutation {A} (draw : nat -> nat) (l : list A) :
  exists l', Shuffle draw l = Some l' /\ l ≡ₚ l'.
Proof.
  destruct (Shuffle_loop_Permutation draw (length l - 1) l) as [l' [H [Hp _]]].
  - destruct l; simpl; [right; reflexivity|left; lia].
  - exists l'. split; assumption.
Qed.

Example Shuffle_1234 :
  Shuffle (fun _ => O) ["a"; "b"; "c"; "d"] = Some ["b"; "c"; "d"; "a"].
Proof. reflexivity. Qed.

End RandFacts.

(** ** Invariants of the worker pool *)

Module UploadFacts.
Import Upload.

Lemma tally_cons f t ts : tally f (t :: ts) = (b2n (f t) + tally f ts)%nat.
Proof. reflexivity. Qed.

(** Replacing one task moves a tally by that task's share. *)
Lemma tally_insert f (ts : list task) i t t' :
  ts !! i = Some t ->
  (tally f (<[i:=t']> ts) + b2n (f t) = tally f ts + b2n (f t'))%nat.
Proof.
  revert i. induction ts as [|a ts IH]; intros [|i] H; simpl in *;
    try discriminate.
  - injection H as ->. lia.
  - specialize (IH _ H). lia.
Qed.


Lemma tally_none f (ts : list task) :
  Forall (fun t => f t = false) ts -> tally f ts = O.
Proof. induction 1 as [|t ts Ht _ IH]; simpl; [|rewrite Ht]; auto. Qed.

Lemma tally_all f (ts : list task) :
  Forall (fun t => f t = true) ts -> tally f ts = length ts.
Proof. induction 1 as [|t ts Ht _ IH]; simpl; [|rewrite Ht, IH]; auto. Qed.

Lemma tally_ext f g (ts : list task) :
  Forall (fun t => f t = g t) ts -> tally f ts = tally g ts.
Proof. induction 1 as [|t ts Ht _ IH]; simpl; [|rewrite Ht, IH]; auto. Qed.

Lemma next_queued_Some ts i :
  next_queued ts = Some i -> exists t, ts !! i = Some t /\ at_ t = Queued.
Proof.
  revert i. induction ts as [|a ts IH]; intros i H; simpl in H;
    [discriminate|].
  unfold is_queued in H. destruct (at_ a) eqn:Ha;
    try (destruct (next_queued ts) as [k|]; [|discriminate];
         injection H as <-; destruct (IH k eq_refl) as [t [? ?]];
         exists t; simpl; auto).
  injection H as <-. exists a. auto.
Qed.

Lemma next_queued_None ts :
  next_queued ts = None -> Forall (fun t => is_queued t = false) ts.
Proof.
  induction ts as [|a ts IH]; simpl; intros H; [constructor|].
  destruct (is_queued a) eqn:Ha; [discriminate|].
  destruct (next_queued ts); [discriminate|]. constructor; auto.
Qed.

(** *** Inversion of the scheduler's steps *)

Lemma exec_inv w cfg i s s' :
  exec w cfg i s = Some s' ->
  exists t t' g',
    tasks s !! i = Some t /\ runnable t = true /\
    step_task w cfg (length (tasks s)) i t (sh s) = (t', g') /\
    s' = {| tasks := <[i:=t']> (tasks s); sh := tick g' |}.
Proof.
  unfold exec. destruct (tasks s !! i) as [t|]; [|discriminate].
  destruct (runnable t) eqn:Hr; [|discriminate].
  destruct (step_task _ _ _ _ _ _) as [t' g'] eqn:Hs.
  intros [= <-]. exists t, t', g'. auto.
Qed.

Lemma go_inv cfg s s' :
  go cfg s = Some s' ->
  exists i t,
    next_queued (tasks s) = Some i /\
    tasks s !! i = Some t /\ at_ t = Queued /\ admits cfg (tasks s) = true /\
    s' = {| tasks := <[i:=goto t AtSelect]> (tasks s); sh := tick (sh s) |}.
Proof.
  unfold go. destruct (next_queued (tasks s)) as [i|] eqn:Hq; [|discriminate].
  destruct (next_queued_Some _ _ Hq) as [t [Ht Hat]]. rewrite Ht.
  destruct (admits cfg (tasks s)) eqn:Ha; [|discriminate].
  intros [= <-]. exists i, t. auto.
Qed.

(** A property that holds at the start and survives every step holds
    in every state of every run. *)
Lemma reachable_ind w cfg files (P : state -> Prop) :
  P (init files) ->
  (forall s e s', P s -> apply_event w cfg e s = Some s' -> P s') ->
  forall s, reachable w cfg files s -> P s.
Proof.
  intros H0 Hstep s [es Hes]. revert Hes H0. generalize (init files).
  induction es as [|e es IH]; intros s0 Hes H0; simpl in Hes.
  - injection Hes as <-. exact H0.
  - destruct (apply_event w cfg e s0) as [s1|] eqn:H1; [|discriminate].
    eapply IH; eauto.
Qed.

Lemma reachable_step w cfg files s e s' :
  reachable w cfg files s -> apply_event w cfg e s = Some s' ->
  reachable w cfg files s'.
Proof.
  intros [es Hes] He. exists (es ++ [e]).
  revert Hes. generalize (init files).
  induction es as [|x es IH]; intros s0 Hes; simpl in *.
  - injection Hes as ->. now rewrite He.
  - destruct (apply_event w cfg x s0); [now apply IH|discriminate].
Qed.

Lemma reachable_init w cfg files : reachable w cfg files (init files).
Proof. now exists []. Qed.

(** Every case of a step of the scheduler, each with the equations
    that select it. *)
Ltac step_cases H :=
  unfold apply_event in H;
  match type of H with
  | (if ?b then _ else _) = _ => destruct b eqn:?; [discriminate|]
  end;
  match type of H with
  | match ?e with _ => _ end = _ =>
      destruct e as [|?i|];
      [ apply go_inv in H as (?i & ?t & ?Hq & ?Hl & ?Hat & ?Hadm & ->)
      | apply exec_inv in H as (?t & ?t' & ?g' & ?Hl & ?Hr & ?Hstep & ->)
      | injection H as <- ]
  end.

Ltac task_cases Hstep :=
  unfold step_task, call_deferred, pool_Get, pool_New, pool_Put, eg_done,
    returned in Hstep;
  repeat match type of Hstep with
    | context [match ?x with _ => _ end] =>
        lazymatch x with
        | context [match _ with _ => _ end] => fail
        | _ => destruct x eqn:?
        end
    end;
  simplify_eq.


(** Use what is known of the statement a task is at. *)
Ltac at_known :=
  repeat match goal with
    | H : at_ ?t = _ |- context [at_ ?t] => rewrite H
    end.

(** *** Deferred calls, buffers and the limit *)



Lemma map_file_insert (ts : list task) i t t' :
  ts !! i = Some t -> file t' = file t ->
  map file (<[i:=t']> ts) = map file ts.
Proof.
  intros Hl Hf.
  revert i Hl. induction ts as [|a ts IH]; intros [|i] Hl; simpl in *;
    try discriminate; [injection Hl as ->; now rewrite Hf|].
  f_equal. now apply IH.
Qed.

Lemma step_task_file w cfg k i t g t' g' :
  step_task w cfg k i t g = (t', g') -> file t' = file t.
Proof.
  intros H. task_cases H; try reflexivity;
    repeat match goal with
      | |- context [if ?b then _ else _] => destruct b
      end; reflexivity.
Qed.

(** An action keeps the deferred calls and the buffer of its task in
    step with the statement reached. *)
Lemma step_task_ok w cfg k i t g t' g' :
  task_ok t -> step_task w cfg k i t g = (t', g') -> task_ok t'.
Proof.
  intros Ht Hstep.
  unfold task_ok, holds, all_defers in *.
  task_cases Hstep; simpl in *;
    repeat match goal with
      | H : _ /\ _ |- _ => destruct H
      | H : _ \/ _ |- _ => destruct H
      end;
    try match goal with
      | |- context [after_close ?r] => destruct r
      end; simpl in *; simplify_eq;
    repeat match goal with
      | H : ?x = _ |- context [?x] => rewrite H
      end; auto 6.
Qed.

Lemma step_task_in_revision w cfg k i t g t' g' :
  in_revision cfg t -> step_task w cfg k i t g = (t', g') -> in_revision cfg t'.
Proof.
  unfold in_revision. intros Ht Hstep Hrev. specialize (Ht Hrev).
  task_cases Hstep; simpl in *; try rewrite Hrev; simpl; at_known;
    try (split; discriminate); try tauto.
Qed.

Lemma structure_step w cfg files s e s' :
  structure cfg files s -> apply_event w cfg e s = Some s' ->
  structure cfg files s'.
Proof.
  intros (Hok & Hrev & Hmap & Hlim) H. step_cases H; unfold structure; simpl.
  - (* eg.Go *)
    pose proof (tally_insert runnable _ _ _ (goto t AtSelect) Hl) as Hrun.
    pose proof (Forall_lookup_1 _ _ _ _ Hok Hl) as Ht.
    assert (Hq0 : runnable t = false) by (unfold runnable; now rewrite Hat).
    assert (Hq1 : runnable (goto t AtSelect) = true) by reflexivity.
    rewrite Hq0, Hq1 in Hrun. simpl in Hrun.
    split; [|split; [|split]].
    + apply Forall_insert; [exact Hok|].
      unfold task_ok in *. rewrite Hat in Ht. simpl. exact Ht.
    + apply Forall_insert; [exact Hrev|]. intros _. simpl. split; discriminate.
    + rewrite <- Hmap. now apply (map_file_insert _ _ t).
    + intros Hn. unfold admits in Hadm. unfold running in *.
      apply orb_true_iff in Hadm as [Hadm|Hadm]; apply Z.ltb_lt in Hadm; lia.
  - (* an action of task i *)
    pose proof (tally_insert runnable _ _ _ t' Hl) as Hrun.
    pose proof (Forall_lookup_1 _ _ _ _ Hok Hl) as Ht.
    pose proof (step_task_file _ _ _ _ _ _ _ _ Hstep) as Hfile.
    rewrite Hr in Hrun.
    split; [|split; [|split]].
    + apply Forall_insert; [exact Hok|]. eapply step_task_ok; eauto.
    + apply Forall_insert; [exact Hrev|].
      eapply step_task_in_revision; eauto.
      exact (Forall_lookup_1 _ _ _ _ Hrev Hl).
    + rewrite <- Hmap. now apply (map_file_insert _ _ t).
    + intros Hn. specialize (Hlim Hn). unfold running in *.
      destruct (runnable t'); simpl in Hrun; lia.
  - (* the pool is emptied *)
    auto.
Qed.

Lemma structure_init cfg files : structure cfg files (init files).
Proof.
  unfold structure, init; simpl. split; [|split; [|split]].
  - induction files; simpl; constructor; auto. split; reflexivity.
  - induction files; simpl; constructor; auto.
    intros _; simpl; split; discriminate.
  - induction files; simpl; [reflexivity|]. now f_equal.
  - intros Hn. unfold running.
    rewrite tally_none; [lia|].
    induction files; simpl; constructor; auto.
Qed.

Lemma reachable_structure w cfg files s :
  reachable w cfg files s -> structure cfg files s.
Proof.
  apply reachable_ind; [apply structure_init|].
  intros; eapply structure_step; eauto.
Qed.



(** *** The counter *)

(** What an action of a task does to the counter. *)
Lemma step_task_count w cfg k i t g t' g' :
  step_task w cfg k i t g = (t', g') ->
  in_revision cfg t ->
  (counted cfg t = true -> 1 <= c t <= count g) ->
  0 <= count g ->
  count g' = count g + Z.of_nat (b2n (counted cfg t')) - Z.of_nat (b2n (counted cfg t)) /\
  count g <= count g' /\
  (counted cfg t' = true -> 1 <= c t' <= count g').
Proof.
  intros Hstep Hin Ht Hnn.
  unfold counted, uploaded, in_revision in *.
  destruct (rev cfg) eqn:Hrev, (verbose cfg) eqn:Hv;
    task_cases Hstep; simpl in *; at_known; try rewrite Hrev; simpl;
    try (destruct (Hin eq_refl); congruence);
    try match goal with |- context [match ?r with Uploaded => _ | _ => _ end] => destruct r end;
    simpl in *;
    try (split; [lia|split; [lia|intros; try discriminate; try (specialize (Ht eq_refl)); lia]]).
Qed.

Lemma counted_queued cfg t : at_ t = Queued -> counted cfg t = false.
Proof.
  intros H. unfold counted, uploaded. rewrite H.
  destruct (rev cfg), (verbose cfg); reflexivity.
Qed.

Lemma counted_select cfg t : counted cfg (goto t AtSelect) = false.
Proof.
  unfold counted, uploaded. simpl.
  destruct (rev cfg), (verbose cfg); reflexivity.
Qed.

Lemma counting_step w cfg files s e s' :
  structure cfg files s -> counting cfg s ->
  apply_event w cfg e s = Some s' -> counting cfg s'.
Proof.
  intros (_ & Hrev & _) (Hc & Hr) H. step_cases H; unfold counting; simpl.
  - pose proof (tally_insert (counted cfg) _ _ _ (goto t AtSelect) Hl) as Hcnt.
    rewrite (counted_queued _ _ Hat), counted_select in Hcnt. simpl in Hcnt.
    split; [lia|]. apply Forall_insert; [exact Hr|].
    rewrite counted_select. discriminate.
  - pose proof (tally_insert (counted cfg) _ _ _ t' Hl) as Hcnt.
    pose proof (Forall_lookup_1 _ _ _ _ Hr Hl) as Ht. simpl in Ht.
    pose proof (Forall_lookup_1 _ _ _ _ Hrev Hl) as Hin.
    assert (Hnn : 0 <= count (sh s)) by lia.
    destruct (step_task_count _ _ _ _ _ _ _ _ Hstep Hin Ht Hnn) as (Hg & Hmono & Hc').
    split; [clear - Hcnt Hg Hc; lia|].
    apply Forall_insert; [|exact Hc'].
    eapply Forall_impl; [exact Hr|]. simpl. intros x Hx Hcx.
    specialize (Hx Hcx). lia.
  - auto.
Qed.

Lemma counting_init cfg files : counting cfg (init files).
Proof.
  unfold counting, init; simpl. split.
  - rewrite tally_none; [reflexivity|].
    induction files; simpl; constructor; auto. now apply counted_queued.
  - induction files; simpl; constructor; auto.
    rewrite counted_queued by reflexivity. discriminate.
Qed.

Lemma reachable_counting w cfg files s :
  reachable w cfg files s -> counting cfg s.
Proof.
  intros Hs. cut (structure cfg files s /\ counting cfg s); [tauto|].
  revert s Hs. apply reachable_ind.
  - split; [apply structure_init|apply counting_init].
  - intros s e s' [H1 H2] He. split.
    + eapply structure_step; eauto.
    + eapply counting_step; eauto.
Qed.



(** *** Cancellation *)

Lemma step_task_cancel w cfg k i t g t' g' :
  step_task w cfg k i t g = (t', g') ->
  (ctxDone g = true <-> err g <> None) ->
  (skipped t = true -> ctxDone g = true) ->
  (failed t = true -> err g <> None) ->
  (ctxDone g' = true <-> err g' <> None) /\
  (ctxDone g = true -> ctxDone g' = true) /\
  (err g <> None -> err g' <> None) /\
  (skipped t' = true -> ctxDone g' = true) /\
  (failed t' = true -> err g' <> None).
Proof.
  intros Hstep Hiff Hsk Hfa.
  unfold skipped, failed in *.
  task_cases Hstep; simpl in *; at_known;
    repeat match goal with
      | H : at_ ?t = _ |- _ => rewrite H in *
      end; simpl in *;
    repeat split; intros; try discriminate; try tauto; try congruence;
    try solve [intuition (discriminate || congruence)];
    destruct (rev cfg); discriminate.
Qed.

Lemma cancelling_step w cfg s e s' :
  cancelling s -> apply_event w cfg e s = Some s' -> cancelling s'.
Proof.
  intros (Hiff & Hsk & Hfa) H. step_cases H; unfold cancelling; simpl.
  - split; [exact Hiff|].
    split; (apply Forall_insert; [assumption|simpl; intros; discriminate]).
  - pose proof (Forall_lookup_1 _ _ _ _ Hsk Hl) as Hsk1.
    pose proof (Forall_lookup_1 _ _ _ _ Hfa Hl) as Hfa1.
    simpl in *.
    destruct (step_task_cancel _ _ _ _ _ _ _ _ Hstep Hiff Hsk1 Hfa1)
      as (H1 & H2 & H3 & H4 & H5).
    split; [exact H1|]. split.
    + apply Forall_insert; [|exact H4].
      eapply Forall_impl; [exact Hsk|]. simpl. auto.
    + apply Forall_insert; [|exact H5].
      eapply Forall_impl; [exact Hfa|]. simpl. auto.
  - auto.
Qed.

Lemma cancelling_init files : cancelling (init files).
Proof.
  unfold cancelling, init; simpl. split; [|split].
  - split; [discriminate|congruence].
  - induction files; simpl; constructor; auto; discriminate.
  - induction files; simpl; constructor; auto; discriminate.
Qed.

Lemma reachable_cancelling w cfg files s :
  reachable w cfg files s -> cancelling s.
Proof.
  apply reachable_ind; [apply cancelling_init|].
  intros; eapply cancelling_step; eauto.
Qed.

(** *** Reclamation *)

(** The multiples of [N] among [1..k+1] are those among [1..k], and
    [k+1] when [N] divides it. *)
Lemma div_succ (N k : Z) :
  0 < N -> 0 <= k ->
  (k + 1) / N = k / N + (if Z.rem (k + 1) N =? 0 then 1 else 0).
Proof.
  intros HN Hk. rewrite Z.rem_mod_nonneg by lia.
  pose proof (Z.div_mod k N ltac:(lia)) as H1.
  pose proof (Z.mod_pos_bound k N HN) as H2.
  pose proof (Z.div_mod (k + 1) N ltac:(lia)) as H3.
  pose proof (Z.mod_pos_bound (k + 1) N HN) as H4.
  destruct (Z.eqb_spec ((k + 1) mod N) 0) as [E|E]; nia.
Qed.

Lemma step_task_gc w cfg k i t g t' g' :
  step_task w cfg k i t g = (t', g') ->
  in_revision cfg t -> 0 <= count g ->
  match rev cfg with
  | Part000 => gcRuns g' = gcRuns g
  | _ =>
      Z.of_nat (gcRuns g') + Z.of_nat (b2n (gc_pending cfg t')) - gc_goal cfg g' =
      Z.of_nat (gcRuns g) + Z.of_nat (b2n (gc_pending cfg t)) - gc_goal cfg g
  end.
Proof.
  intros Hstep Hin Hnn.
  unfold gc_pending, gc_goal, in_revision in *.
  destruct (rev cfg) eqn:Hrev;
    task_cases Hstep; simpl in *; at_known; try rewrite Hrev; simpl;
    try (destruct (Hin eq_refl); congruence);
    try reflexivity; try lia.
  all: unfold gcDue; destruct (Z.ltb_spec 0 (gcInterval cfg)) as [HN|HN];
    simpl; [|lia];
    rewrite (div_succ _ _ HN Hnn);
    destruct (Z.rem (count g + 1) (gcInterval cfg) =? 0); simpl; lia.
Qed.

Lemma gc_pending_idle cfg t : at_ t <> AtGC -> gc_pending cfg t = false.
Proof. unfold gc_pending. destruct (at_ t); congruence. Qed.

Lemma reclaiming_step w cfg files s e s' :
  structure cfg files s -> counting cfg s -> reclaiming cfg s ->
  apply_event w cfg e s = Some s' -> reclaiming cfg s'.
Proof.
  intros (_ & Hrev & _) (Hc & _) Hg H.
  assert (Hnn : 0 <= count (sh s)) by lia.
  unfold reclaiming in *. step_cases H; simpl.
  - pose proof (tally_insert (gc_pending cfg) _ _ _ (goto t AtSelect) Hl) as Hcnt.
    rewrite !gc_pending_idle in Hcnt by (simpl; congruence).
    simpl in Hcnt. destruct (rev cfg); [exact Hg|..];
      (replace (tally (gc_pending cfg) (<[i:=goto t AtSelect]> (tasks s)))
         with (tally (gc_pending cfg) (tasks s)) by lia); exact Hg.
  - pose proof (tally_insert (gc_pending cfg) _ _ _ t' Hl) as Hcnt.
    pose proof (Forall_lookup_1 _ _ _ _ Hrev Hl) as Hin.
    pose proof (step_task_gc _ _ _ _ _ _ _ _ Hstep Hin Hnn) as Hs.
    unfold gc_goal in Hs.
    destruct (rev cfg); [congruence|..]; clear - Hcnt Hs Hg; lia.
  - exact Hg.
Qed.

Lemma reclaiming_init cfg files : reclaiming cfg (init files).
Proof.
  unfold reclaiming, init; simpl.
  assert (H : tally (gc_pending cfg) (map new_task files) = O).
  { apply tally_none. induction files; simpl; constructor; auto. }
  rewrite H. destruct (rev cfg); try reflexivity;
    destruct (0 <? gcInterval cfg); reflexivity.
Qed.

Lemma reachable_reclaiming w cfg files s :
  reachable w cfg files s -> reclaiming cfg s.
Proof.
  intros Hs.
  cut (structure cfg files s /\ counting cfg s /\ reclaiming cfg s); [tauto|].
  revert s Hs. apply reachable_ind.
  - split; [apply structure_init|].
    split; [apply counting_init|apply reclaiming_init].
  - intros s e s' (H1 & H2 & H3) He. split; [|split].
    + eapply structure_step; eauto.
    + eapply counting_step; eauto.
    + eapply reclaiming_step; eauto.
Qed.



(** *** The verbose lines *)

Lemma step_task_log w cfg k i t g t' g' :
  step_task w cfg k i t g = (t', g') ->
  (named t = true ->
   objectName (rev cfg) (filepath.Separator (host cfg)) (Path (dest cfg))
     (file t) = Some (name t)) ->
  (length (logged g') + (if verbose cfg then b2n (uploaded t) else 0) =
   length (logged g) + (if verbose cfg then b2n (uploaded t') else 0))%nat /\
  (forall l, In l (logged g) -> In l (logged g')) /\
  (uploaded t' = true -> verbose cfg = true ->
   (uploaded t = true /\ forall k', line_of w cfg k t' k' = line_of w cfg k t k') \/
   In (line_of w cfg k t' (ticks g)) (logged g')) /\
  (named t' = true ->
   objectName (rev cfg) (filepath.Separator (host cfg)) (Path (dest cfg))
     (file t') = Some (name t')).
Proof.
  intros Hstep Hnm.
  unfold named, uploaded, line_of in *.
  destruct (verbose cfg) eqn:Hv;
    task_cases Hstep; simpl in *; at_known;
    repeat match goal with
      | H : at_ ?t = _ |- _ => rewrite H in *
      end; simpl in *;
    try match goal with |- context [after_close ?r] => destruct r end;
    simpl in *;
    (split; [try lia|split; [auto|split; [intros; try discriminate; auto|try tauto; try discriminate]]]).
Qed.

Lemma logging_step w cfg s e s' :
  logging w cfg s -> apply_event w cfg e s = Some s' -> logging w cfg s'.
Proof.
  intros (Hlen & Hin & Hnm) H. unfold logging in *.
  step_cases H; simpl; rewrite ?length_insert.
  - pose proof (tally_insert uploaded _ _ _ (goto t AtSelect) Hl) as Hcnt.
    assert (E : uploaded t = false) by (unfold uploaded; now rewrite Hat).
    rewrite E in Hcnt. simpl in Hcnt.
    split; [|split].
    + destruct (verbose cfg); lia.
    + apply Forall_insert; [exact Hin|]. simpl. discriminate.
    + apply Forall_insert; [exact Hnm|]. simpl. discriminate.
  - pose proof (tally_insert uploaded _ _ _ t' Hl) as Hcnt.
    pose proof (Forall_lookup_1 _ _ _ _ Hin Hl) as Hin1.
    pose proof (Forall_lookup_1 _ _ _ _ Hnm Hl) as Hnm1. simpl in *.
    destruct (step_task_log _ _ _ _ _ _ _ _ Hstep Hnm1) as (H1 & H2 & H3 & H4).
    split; [|split].
    + destruct (verbose cfg); lia.
    + apply Forall_insert.
      * eapply Forall_impl; [exact Hin|]. simpl.
        intros x Hx Hu Hv. destruct (Hx Hu Hv) as [k' Hk']. eauto.
      * intros Hu Hv. destruct (H3 Hu Hv) as [[Hu0 Heq]|Hnew].
        -- destruct (Hin1 Hu0 Hv) as [k' Hk']. exists k'.
           rewrite Heq. auto.
        -- eauto.
    + apply Forall_insert; [exact Hnm|exact H4].
  - auto.
Qed.

Lemma logging_init w cfg files : logging w cfg (init files).
Proof.
  unfold logging, init; simpl.
  assert (H : tally uploaded (map new_task files) = O).
  { apply tally_none. induction files; simpl; constructor; auto. }
  rewrite H. split; [now destruct (verbose cfg)|].
  split; induction files; simpl; constructor; auto; discriminate.
Qed.

Lemma reachable_logging w cfg files s :
  reachable w cfg files s -> logging w cfg s.
Proof.
  apply reachable_ind; [apply logging_init|].
  intros; eapply logging_step; eauto.
Qed.

(** *** The buffer pool *)




(** *** Every run ends *)

Lemma total_insert (f : task -> nat) (ts : list task) i t t' :
  ts !! i = Some t ->
  (total f (<[i:=t']> ts) + f t = total f ts + f t')%nat.
Proof.
  revert i. induction ts as [|a ts IH]; intros [|i] H; simpl in *;
    try discriminate.
  - injection H as ->. lia.
  - specialize (IH _ H). lia.
Qed.

Lemma step_task_rank w cfg k i t g t' g' :
  step_task w cfg k i t g = (t', g') ->
  task_ok t -> runnable t = true ->
  panicked g' = true \/ (panicked g' = panicked g /\ rank t' < rank t)%nat.
Proof.
  intros Hstep Hok Hrun.
  unfold task_ok, holds, all_defers, runnable, rank in *.
  task_cases Hstep; simpl in *; try discriminate;
    repeat match goal with
      | H : _ /\ _ |- _ => destruct H
      | H : _ \/ _ |- _ => destruct H
      end; simplify_eq;
    repeat match goal with
      | H : ?x = _ |- context [?x] => rewrite H
      end; simpl; auto;
    try match goal with |- context [after_close ?r] => destruct r end;
    simpl; try (right; split; [reflexivity|lia]).
Qed.

Lemma tally_pos f (ts : list task) :
  (0 < tally f ts)%nat -> exists i t, ts !! i = Some t /\ f t = true.
Proof.
  induction ts as [|a ts IH]; simpl; [lia|].
  destruct (f a) eqn:Ha; simpl.
  - intros _. exists O, a. auto.
  - intros H. destruct (IH H) as (i & t & Hi & Ht). exists (S i), t. auto.
Qed.

Lemma tally_zero f (ts : list task) :
  tally f ts = O -> Forall (fun t => f t = false) ts.
Proof.
  induction ts as [|a ts IH]; simpl; [constructor|].
  destruct (f a) eqn:Ha; simpl; [discriminate|]. constructor; auto.
Qed.

Lemma exec_runnable w cfg i s t :
  tasks s !! i = Some t -> runnable t = true -> is_Some (exec w cfg i s).
Proof.
  intros Hl Hr. unfold exec. rewrite Hl, Hr.
  destruct (step_task _ _ _ _ _ _). eauto.
Qed.

(** As long as [eg.Wait()] has not returned, the main loop or a
    goroutine can move, unless the limit is zero. *)
Lemma progress w cfg s :
  panicked (sh s) = false -> finished s = false -> n cfg <> 0 ->
  exists e s', e <> PoolCleanup /\ apply_event w cfg e s = Some s'.
Proof.
  intros Hp Hfin Hn. unfold apply_event. rewrite Hp.
  destruct (Nat.eq_dec (running (tasks s)) O) as [Hz|Hz].
  - (* no goroutine is active: the main loop submits the next item *)
    pose proof (tally_zero _ _ Hz) as Hnone.
    destruct (next_queued (tasks s)) as [i|] eqn:Hq.
    + destruct (next_queued_Some _ _ Hq) as (t & Hl & Hat).
      exists Go. unfold go. rewrite Hq, Hl.
      assert (Ha : admits cfg (tasks s) = true).
      { unfold admits. rewrite Hz. simpl. apply orb_true_iff.
        assert (n cfg < 0 \/ 0 < n cfg) as [H|H] by (clear - Hn; lia);
          [left|right]; now apply Z.ltb_lt. }
      rewrite Ha. eexists. split; [discriminate|reflexivity].
    + exfalso. pose proof (next_queued_None _ Hq) as Hnq.
      unfold finished in Hfin.
      assert (Hall : forallb is_done (tasks s) = true).
      { apply forallb_forall. intros t Ht.
        apply list_elem_of_In in Ht.
        pose proof (proj1 (Forall_forall _ _) Hnone t Ht) as H1.
        pose proof (proj1 (Forall_forall _ _) Hnq t Ht) as H2.
        unfold runnable, is_queued, is_done in *.
        destruct (at_ t); congruence. }
      congruence.
  - destruct (tally_pos runnable (tasks s)) as (i & t & Hl & Hr);
      [unfold running in Hz; lia|].
    destruct (exec_runnable w cfg i s t Hl Hr) as [s' Hs'].
    exists (Run i), s'. split; [discriminate|exact Hs'].
Qed.

(** Each step of the main loop or of a goroutine brings the run closer
    to its end. *)
Lemma measure_decreases w cfg files s e s' :
  structure cfg files s -> e <> PoolCleanup ->
  apply_event w cfg e s = Some s' ->
  panicked (sh s') = true \/ (measure s' < measure s)%nat.
Proof.
  intros (Hok & _) Hne H. unfold measure. step_cases H; simpl.
  - pose proof (total_insert rank _ _ _ (goto t AtSelect) Hl) as Hcnt.
    assert (E0 : rank t = 15%nat) by (unfold rank; now rewrite Hat).
    assert (E1 : rank (goto t AtSelect) = 14%nat) by reflexivity.
    right. clear - Hcnt E0 E1. lia.
  - pose proof (total_insert rank _ _ _ t' Hl) as Hcnt.
    pose proof (Forall_lookup_1 _ _ _ _ Hok Hl) as Ht.
    destruct (step_task_rank _ _ _ _ _ _ _ _ Hstep Ht Hr) as [E|[E1 E2]];
      [left; exact E|right; clear - Hcnt E2; lia].
  - congruence.
Qed.

Lemma run_events_app w cfg es1 es2 s s1 :
  run_events w cfg es1 s = Some s1 ->
  run_events w cfg (es1 ++ es2) s = run_events w cfg es2 s1.
Proof.
  revert s. induction es1 as [|e es IH]; intros s H; simpl in *.
  - now injection H as ->.
  - destruct (apply_event w cfg e s); [now apply IH|discriminate].
Qed.

Lemma completes_from w cfg files (m : nat) s :
  n cfg <> 0 -> structure cfg files s -> (measure s <= m)%nat ->
  exists es s',
    run_events w cfg es s = Some s' /\
    (finished s' = true \/ panicked (sh s') = true).
Proof.
  intros Hn. revert s. induction m as [|m IH]; intros s Hs Hm.
  - destruct (panicked (sh s)) eqn:Hp; [exists [], s; auto|].
    destruct (finished s) eqn:Hf; [exists [], s; auto|].
    destruct (progress w cfg s Hp Hf Hn) as (e & s' & Hne & He).
    destruct (measure_decreases _ _ _ _ _ _ Hs Hne He) as [E|E]; [|lia].
    exists [e], s'. simpl. rewrite He. auto.
  - destruct (panicked (sh s)) eqn:Hp; [exists [], s; auto|].
    destruct (finished s) eqn:Hf; [exists [], s; auto|].
    destruct (progress w cfg s Hp Hf Hn) as (e & s' & Hne & He).
    destruct (measure_decreases _ _ _ _ _ _ Hs Hne He) as [E|E].
    + exists [e], s'. simpl. rewrite He. auto.
    + destruct (IH s') as (es & s2 & Hes & Hend);
        [eapply structure_step; eauto|lia|].
      exists (e :: es), s2. simpl. rewrite He. auto.
Qed.

(** Under [panic_free], and with the memory it needs, no action
    starts a panic or ends the process. *)
Lemma step_task_no_panic w cfg k i t g t' g' :
  panic_free cfg -> memory_suffices w ->
  step_task w cfg k i t g = (t', g') ->
  is_panicking t = false ->
  is_panicking t' = false /\ panicked g' = panicked g.
Proof.
  intros [Hsl Hbuf] Hmem Hstep Hp. unfold is_panicking in *.
  task_cases Hstep; simpl in *; at_known; try discriminate;
    try match goal with
      | H : make_ok w ?k = false |- _ => rewrite (Hmem k) in H; discriminate
      end;
    try (split; reflexivity);
    try match goal with |- context [after_close ?r] => destruct r end;
    try (split; reflexivity); exfalso;
    repeat match goal with
      | H : (_ <? _) = true |- _ => apply Z.ltb_lt in H
      | H : (_ =? _) = true |- _ => apply Z.eqb_eq in H
      end; try lia.
  unfold objectName, slice_from_1 in *.
  destruct (rev cfg); destruct (Path (dest cfg)); try discriminate;
    destruct Hsl; congruence.
Qed.

Lemma reachable_calm w cfg files s :
  panic_free cfg -> memory_suffices w -> reachable w cfg files s ->
  Forall (fun t => is_panicking t = false) (tasks s) /\
  panicked (sh s) = false.
Proof.
  intros Hsl Hmem. revert s.
  apply (reachable_ind w cfg files
           (fun s => Forall (fun t => is_panicking t = false) (tasks s) /\
                     panicked (sh s) = false)).
  - split; [|reflexivity]. unfold init; simpl.
    induction files; simpl; constructor; auto.
  - intros s0 e s' [Hc _] H. step_cases H; simpl.
    + split; [|assumption]. apply Forall_insert; [exact Hc|reflexivity].
    + pose proof (Forall_lookup_1 _ _ _ _ Hc Hl) as Ht. simpl in Ht.
      destruct (step_task_no_panic _ _ _ _ _ _ _ _ Hsl Hmem Hstep Ht) as [H1 H2].
      split; [apply Forall_insert; [exact Hc|exact H1]|].
      rewrite H2. assumption.
    + auto.
Qed.

Lemma reachable_no_panic w cfg files s :
  panic_free cfg -> memory_suffices w -> reachable w cfg files s ->
  panicked (sh s) = false.
Proof. intros Hsl Hmem Hs. now destruct (reachable_calm _ _ _ _ Hsl Hmem Hs). Qed.

(** Whatever the world, a run with a limit other than zero can be
    scheduled to its end, where [eg.Wait()] returns. *)
Lemma run_completes w cfg files :
  n cfg <> 0 -> panic_free cfg -> memory_suffices w ->
  exists es s,
    run_events w cfg es (init files) = Some s /\ finished s = true.
Proof.
  intros Hn Hsl Hmem.
  destruct (completes_from w cfg files (measure (init files)) (init files) Hn)
    as (es & s & Hes & [Hf|Hp]); [apply structure_init|lia| |].
  - exists es, s. auto.
  - assert (Hr : reachable w cfg files s) by (exists es; exact Hes).
    rewrite (reachable_no_panic _ _ _ _ Hsl Hmem Hr) in Hp. discriminate.
Qed.






(** *** Runs without failures *)

Lemma step_task_faultless w cfg k i t g t' g' :
  calls_succeed w ->
  step_task w cfg k i t g = (t', g') ->
  faultless t = true -> err g = None -> ctxDone g = false ->
  faultless t' = true /\ err g' = None /\ ctxDone g' = false.
Proof.
  intros Hok Hstep Hf He Hc. unfold faultless in *.
  task_cases Hstep; simpl in *; at_known; simpl;
    repeat match goal with
      | H : open_ok w ?i ?x = false |- _ =>
          destruct (Hok i x) as (? & ? & ?); congruence
      | H : copy_ok w ?i ?x = false |- _ =>
          destruct (Hok i x) as (? & ? & ?); congruence
      | H : close_ok w ?i ?x = false |- _ =>
          destruct (Hok i x) as (? & ? & ?); congruence
      end;
    try match goal with |- context [after_close ?r] => destruct r end;
    simpl; auto; try congruence;
    try (match goal with H : at_ ?t = _ |- _ => rewrite H in Hf end;
         try discriminate; auto).
Qed.

Lemma reachable_faultless w cfg files s :
  calls_succeed w -> reachable w cfg files s ->
  Forall (fun t => faultless t = true) (tasks s) /\
  err (sh s) = None /\ ctxDone (sh s) = false.
Proof.
  intros Hok. revert s.
  apply (reachable_ind w cfg files
           (fun s => Forall (fun t => faultless t = true) (tasks s) /\
                     err (sh s) = None /\ ctxDone (sh s) = false)).
  - split; [|auto]. unfold init; simpl.
    induction files; simpl; constructor; auto.
  - intros s e s' (Hf & He & Hc) H. step_cases H; simpl.
    + split; [|auto]. apply Forall_insert; [exact Hf|reflexivity].
    + pose proof (Forall_lookup_1 _ _ _ _ Hf Hl) as Ht. simpl in Ht.
      destruct (step_task_faultless _ _ _ _ _ _ _ _ Hok Hstep Ht He Hc)
        as (H1 & H2 & H3).
      split; [|auto]. apply Forall_insert; [exact Hf|exact H1].
    + auto.
Qed.

Lemma reachable_run_events w cfg files es s s' :
  reachable w cfg files s -> run_events w cfg es s = Some s' ->
  reachable w cfg files s'.
Proof.
  intros [es0 H0] H. exists (es0 ++ es).
  now rewrite (run_events_app _ _ _ _ _ _ H0).
Qed.

(** From every state of a run that cannot panic and whose limit is not
    zero, the scheduler can take the run to the point where [eg.Wait()]
    returns. *)
Lemma reachable_completes w cfg files s :
  n cfg <> 0 -> panic_free cfg -> memory_suffices w ->
  reachable w cfg files s ->
  exists es s', run_events w cfg es s = Some s' /\ finished s' = true.
Proof.
  intros Hn Hpf Hmem Hs.
  destruct (completes_from w cfg files (measure s) s Hn) as (es & s' & Hes & [Hf|Hp]);
    [now apply reachable_structure with (w := w)|lia| |].
  - exists es, s'. auto.
  - pose proof (reachable_run_events _ _ _ _ _ _ Hs Hes) as Hr.
    rewrite (reachable_no_panic _ _ _ _ Hpf Hmem Hr) in Hp. discriminate.
Qed.

End UploadFacts.

(** ** Paths *)

Module PathFacts.
Import GoStrings GoPath filepath.

Lemma append_empty_r (s : string) : s +:+ "" = s.
Proof.
  induction s as [|c r IH]; [reflexivity|].
  change (String c (r +:+ "") = String c r). now f_equal.
Qed.

Lemma elements_nonempty (p : string) : elements p <> [].
Proof.
  induction p as [|c r IH]; simpl; [discriminate|].
  destruct (Ascii.eqb c "/"); [discriminate|].
  destruct (elements r); [contradiction|discriminate].
Qed.

(** A trailing slash adds one empty element. *)
Lemma elements_trailing_slash (p : string) :
  elements (p +:+ "/") = elements p ++ [""].
Proof.
  induction p as [|c r IH]; simpl; [reflexivity|].
  destruct (Ascii.eqb c "/"); [now rewrite IH|].
  rewrite IH. pose proof (elements_nonempty r) as Hne.
  destruct (elements r); [contradiction|reflexivity].
Qed.

Lemma rooted_trailing_slash (p : string) :
  p <> "" -> rooted (p +:+ "/") = rooted p.
Proof. destruct p; [contradiction|reflexivity]. Qed.

(** [path.Clean] ignores a trailing slash. *)
Lemma Clean_trailing_slash (p : string) :
  p <> "" -> Clean (p +:+ "/") = Clean p.
Proof.
  intros Hp. unfold Clean.
  destruct p as [|c r]; [contradiction|].
  change (String c r +:+ "/") with (String c (r +:+ "/")).
  cbv beta iota.
  change (String c (r +:+ "/")) with (String c r +:+ "/").
  rewrite (rooted_trailing_slash (String c r)) by discriminate.
  rewrite elements_trailing_slash, fold_left_app. reflexivity.
Qed.

(** Joining with an empty element is cleaning. *)
Lemma Join_with_empty (p : string) :
  GoPath.Join [p; ""] = if String.eqb p "" then "" else Clean p.
Proof.
  unfold GoPath.Join. simpl. destruct (String.eqb_spec p "") as [->|Hp];
    [reflexivity|]. simpl.
  unfold Join_step. simpl.
  destruct p as [|c r]; [contradiction|]. simpl String.length. simpl.
  change (String c (r +:+ "/" +:+ "")) with ((String c r +:+ "/") +:+ "").
  rewrite append_empty_r.
  apply (Clean_trailing_slash (String c r)). discriminate.
Qed.

Lemma Join_unix_with_empty (dir : string) :
  Join_unix [dir; ""] = if String.eqb dir "" then "" else Clean dir.
Proof.
  simpl. destruct (String.eqb_spec dir "") as [->|Hp]; [reflexivity|].
  simpl. rewrite append_empty_r. now apply Clean_trailing_slash.
Qed.

Lemma ReplaceByte_idempotent (s : string) (old new : ascii) :
  old <> new ->
  ReplaceByte (ReplaceByte s old new) old new = ReplaceByte s old new.
Proof.
  intros Hne. induction s as [|c r IH]; simpl; [reflexivity|].
  rewrite IH. f_equal.
  destruct (Ascii.eqb_spec c old) as [->|Hc].
  - destruct (Ascii.eqb_spec new old); congruence.
  - destruct (Ascii.eqb_spec c old); congruence.
Qed.

(** [filepath.ToSlash] is idempotent. *)
Lemma ToSlash_idempotent (sep : ascii) (p : string) :
  ToSlash sep (ToSlash sep p) = ToSlash sep p.
Proof.
  unfold ToSlash. destruct (Ascii.eqb_spec sep "/") as [->|Hne];
    [reflexivity|].
  now apply ReplaceByte_idempotent.
Qed.

Lemma ToSlash_empty (sep : ascii) : ToSlash sep "" = "".
Proof. unfold ToSlash. now destruct (Ascii.eqb sep "/"). Qed.

Example Clean_examples :
  map Clean ["abc//def//ghi"; "/../a/./b/../c/"; "../x"; ""; "a/.."]
  = ["abc/def/ghi"; "/a/c"; "../x"; "."; "."].
Proof. reflexivity. Qed.

Example Join_examples :
  map GoPath.Join [["prefix"; "b/c.txt"]; ["/prefix"; "a.txt"]; [""; "a.txt"]; ["a/"; ""]]
  = ["prefix/b/c.txt"; "/prefix/a.txt"; "a.txt"; "a"].
Proof. reflexivity. Qed.

End PathFacts.

(** ** The list file *)

Module ListFileFacts.
Import bufio Run.

Lemma append_assoc (a b c : string) : (a +:+ b) +:+ c = a +:+ (b +:+ c).
Proof.
  induction a as [|x a IH]; [reflexivity|].
  change (String x ((a +:+ b) +:+ c) = String x (a +:+ (b +:+ c))).
  now f_equal.
Qed.

Lemma length_append (a b : string) :
  String.length (a +:+ b) = (String.length a + String.length b)%nat.
Proof.
  induction a as [|x a IH]; [reflexivity|].
  change (S (String.length (a +:+ b)) = S (String.length a + String.length b)).
  now f_equal.
Qed.

Lemma append_nil_r (s : string) : s +:+ "" = s.
Proof.
  induction s as [|c r IH]; [reflexivity|].
  change (String c (r +:+ "") = String c r). now f_equal.
Qed.

(** A blank line, that is a newline at the start of a line, is
    delivered as the empty token. *)
Lemma ScanLines_blank (rest : string) :
  ScanLines (String "010" rest) =
  (EmptyString :: fst (ScanLines rest), snd (ScanLines rest)).
Proof.
  unfold ScanLines. cbn [ScanLines_from]. simpl Ascii.eqb. cbv iota.
  destruct (ScanLines_from "" rest). reflexivity.
Qed.

(** The scanner on a line that continues with [p], a newline and
    [rest]. *)
Lemma ScanLines_from_line (p line rest : string) :
  no_newline p = true ->
  (String.length (line +:+ p) < MaxScanTokenSize)%nat ->
  ScanLines_from line (p +:+ String "010" rest) =
  (dropCR (line +:+ p) :: fst (ScanLines rest), snd (ScanLines rest)).
Proof.
  revert line. induction p as [|c p IH]; intros line Hnl Hlen.
  - rewrite append_nil_r. change ("" +:+ String "010" rest) with (String "010" rest).
    cbn [ScanLines_from]. simpl Ascii.eqb. cbv iota.
    unfold ScanLines. destruct (ScanLines_from "" rest). reflexivity.
  - change (String c p +:+ String "010" rest) with (String c (p +:+ String "010" rest)).
    cbn [ScanLines_from]. simpl in Hnl.
    apply andb_true_iff in Hnl as [Hc Hp].
    apply negb_true_iff in Hc. rewrite Hc.
    rewrite length_append in Hlen. simpl in Hlen.
    destruct (Nat.leb_spec MaxScanTokenSize (String.length line + 1)) as [Hbig|_];
      [lia|].
    rewrite IH; [|exact Hp|].
    + rewrite append_assoc. reflexivity.
    + rewrite append_assoc.
      change (String c "" +:+ p) with (String c p).
      rewrite length_append. simpl. lia.
Qed.

(** Paths that are safe as lines come back from the list file as they
    were written. *)
Lemma ScanLines_lines (paths : list string) :
  Forall line_safe paths -> ScanLines (lines paths) = (paths, false).
Proof.
  induction 1 as [|p paths (Hnl & Hlen & Hcr) _ IH]; [reflexivity|].
  cbn [lines]. unfold ScanLines at 1.
  rewrite ScanLines_from_line; [|exact Hnl|exact Hlen].
  rewrite IH. simpl. change ("" +:+ p) with p. now rewrite Hcr.
Qed.

Example ScanLines_example :
  ScanLines ("a.txt" +:+ String "010" (String "010" ("b.txt" +:+ String "010" "")))
  = (["a.txt"; ""; "b.txt"], false).
Proof. vm_compute. reflexivity. Qed.

(** A carriage return before the newline belongs to the line ending. *)
Example ScanLines_crlf :
  ScanLines ("a" +:+ String "013" (String "010" "b")) = (["a"; "b"], false).
Proof. vm_compute. reflexivity. Qed.

(** What [shuffleListFile] leaves behind when it returns no error: a
    new file that holds, one per line, a permutation of the lines of
    the list file it read. *)
Lemma shuffleListFile_ok w listFile s s' name :
  shuffleListFile w listFile s = (s', (name, None)) ->
  exists content files files',
    snd (openFile w listFile s) = Some content /\
    bufio.ScanLines content = (files, false) /\
    rand.Shuffle (draw w) files = Some files' /\
    files ≡ₚ files' /\
    disk s' !! name = Some (lines files').
Proof.
  unfold shuffleListFile.
  destruct (openFile w listFile s) as [s1 [content|]] eqn:Hopen; [|discriminate].
  destruct (bufio.ScanLines content) as [files tooLong] eqn:Hscan.
  destruct tooLong; [discriminate|].
  destruct (RandFacts.Shuffle_Permutation (draw w) files) as [files' [Hsh Hperm]].
  rewrite Hsh.
  destruct (CreateTemp_ok w (temps s1)); simpl; [|discriminate].
  intros H. exists content, files, files'.
  repeat split; try assumption.
  destruct files' as [|f0 fs].
  - destruct (Close_ok w (TempName w (temps s1))); simpl in H; [|discriminate].
    injection H as <- <-. simpl. apply lookup_insert_eq.
  - destruct (WriteString_ok w (TempName w (temps s1))); simpl in H; [|discriminate].
    destruct (Close_ok w (TempName w (temps s1))); simpl in H; [|discriminate].
    injection H as <- <-. simpl. apply lookup_insert_eq.
Qed.

End ListFileFacts.

(** ** [run] of Part001 before the workers *)

Module RunFacts.
Import Run.

(** What the plan of a successful start is made of. *)
Lemma run_Part001_plan w fl s s' p :
  run_Part001 w fl s = (s', inr p) ->
  exists arg0 dst content,
    args fl = [arg0] /\
    ParseRequestURI w arg0 = Some dst /\
    Upload.Scheme dst = "gs"%string /\
    work p = fst (bufio.ScanLines content) /\
    scanErr p = snd (bufio.ScanLines content) /\
    cfg p = {| Upload.rev := Upload.Part001; Upload.n := flag_n fl;
               Upload.verbose := flag_v fl; Upload.gcInterval := flag_gc fl;
               Upload.bufSize := flag_buf fl;
               Upload.src := flag_d fl; Upload.dest := dst;
               Upload.host := the_host w |} /\
    ((flag_l fl = ""%string /\ flag_d fl <> ""%string) \/
     (flag_l fl <> ""%string /\ flag_d fl = ""%string)).
Proof.
  unfold run_Part001.
  destruct (args fl) as [|arg0 [|? ?]]; try discriminate.
  destruct (String.eqb_spec (flag_l fl) "") as [Hl|Hl];
    destruct (String.eqb_spec (flag_d fl) "") as [Hd|Hd]; simpl;
    try discriminate.
  all: destruct (ParseRequestURI w arg0) as [dst|] eqn:Hparse; [|discriminate].
  all: destruct (String.eqb_spec (Upload.Scheme dst) "gs") as [Hs|Hs]; simpl;
    [|discriminate].
  all: repeat match goal with
    | |- context [let '(_, _) := ?x in _] => destruct x as [? ?] eqn:?
    | |- context [match ?x with _ => _ end] =>
        lazymatch x with
        | context [match _ with _ => _ end] => fail
        | _ => destruct x eqn:?
        end
    end; try discriminate.
  all: intros [= <- <-]; exists arg0, dst.
  all: match goal with
       | H : bufio.ScanLines ?c = _ |- _ => exists c; rewrite H
       end.
  all: simpl; repeat split; auto.
Qed.


(** The work list of Part000, MainA and MainB is what [fs.WalkDir]
    enumerated: as it is with [-s], shuffled otherwise. *)
Lemma run_walk_plan r w fl s s' p :
  run_walk r w fl s = (s', inr (Some p)) ->
  exists arg0 arg1 files,
    args fl = [arg0; arg1] /\
    WalkDir w arg0 = (files, false) /\
    files <> [] /\
    files ≡ₚ work p /\
    (flag_s fl = true -> work p = files) /\
    Upload.rev (cfg p) = r /\
    Upload.verbose (cfg p) = flag_v fl /\
    Upload.n (cfg p) = flag_n fl /\
    scanErr p = false.
Proof.
  unfold run_walk.
  destruct (args fl) as [|arg0 [|arg1 [|? ?]]]; try discriminate.
  destruct (ParseRequestURI w arg1) as [dst|]; [|discriminate].
  destruct (String.eqb (Upload.Scheme dst) "gs"); simpl; [|discriminate].
  destruct (WalkDir w arg0) as [files failed] eqn:Hwalk.
  destruct failed; [discriminate|].
  destruct files as [|f0 files]; [discriminate|].
  destruct (flag_s fl) eqn:Hs.
  - destruct (NewClient_ok w); simpl; [|discriminate].
    intros [= <- <-]. exists arg0, arg1, (f0 :: files). simpl.
    repeat split; auto; discriminate.
  - destruct (RandFacts.Shuffle_Permutation (draw w) (f0 :: files))
      as [files' [Hsh Hperm]].
    rewrite Hsh.
    destruct (NewClient_ok w); simpl; [|discriminate].
    intros [= <- <-]. exists arg0, arg1, (f0 :: files). simpl.
    repeat split; auto; discriminate.
Qed.

(** An empty directory: [run] returns [nil] before creating the client. *)
Lemma run_walk_empty r w fl s arg0 arg1 dst :
  args fl = [arg0; arg1] ->
  ParseRequestURI w arg1 = Some dst -> Upload.Scheme dst = "gs"%string ->
  WalkDir w arg0 = ([], false) ->
  run_walk r w fl s
    = (called (called s (ParseURI arg1)) (WalkDirCall arg0), inr None).
Proof.
  intros Ha Hp Hs Hw. unfold run_walk. rewrite Ha, Hp, Hs, Hw. reflexivity.
Qed.

(** Part001 with [-d]: when every call succeeds and the paths enumerated
    are safe as lines, the work list is the enumeration. *)
Lemma run_Part001_directory w fl s arg0 dst paths :
  args fl = [arg0] ->
  flag_l fl = ""%string -> flag_d fl <> ""%string -> flag_shuffle fl = false ->
  ParseRequestURI w arg0 = Some dst -> Upload.Scheme dst = "gs"%string ->
  CreateTemp_ok w (temps s) = true ->
  TempName w (temps s) <> "-"%string ->
  WriteString_ok w (TempName w (temps s)) = true ->
  Close_ok w (TempName w (temps s)) = true ->
  NewClient_ok w = true ->
  WalkDir w (flag_d fl) = (paths, false) ->
  Forall bufio.line_safe paths ->
  exists s' p,
    run_Part001 w fl s = (s', inr p) /\ work p = paths /\ scanErr p = false.
Proof.
  intros Ha Hl Hd Hsh Hp Hs Hct Hname Hws Hcl Hnc Hw Hsafe.
  unfold run_Part001. rewrite Ha, Hl, Hp, Hs, Hsh.
  destruct (String.eqb_spec (flag_d fl) "") as [E|_]; [contradiction|]. simpl.
  unfold writeListFile. simpl. rewrite Hct, Hw. simpl.
  assert (Hscan : bufio.ScanLines (lines paths) = (paths, false))
    by now apply ListFileFacts.ScanLines_lines.
  destruct paths as [|p0 paths].
  - rewrite Hcl. simpl. unfold defer_Remove_if, openFile.
    destruct (String.eqb_spec (TempName w (temps s)) "") as [E|_];
      destruct (String.eqb_spec (TempName w (temps s)) "-") as [E'|_];
      try contradiction; simpl; rewrite lookup_insert_eq, Hnc; simpl;
      eexists _, _; split; reflexivity || (split; reflexivity).
  - cbn [lines] in Hscan.
    rewrite Hws, Hcl. simpl. unfold defer_Remove_if, openFile.
    destruct (String.eqb_spec (TempName w (temps s)) "") as [E|_];
      destruct (String.eqb_spec (TempName w (temps s)) "-") as [E'|_];
      try contradiction; simpl; rewrite lookup_insert_eq, Hnc; simpl;
      rewrite Hscan; eexists _, _; split; reflexivity || (split; reflexivity).
Qed.

End RunFacts.

(** ** [strconv]: reading back what was printed *)

Module StrconvFacts.
Import GoStrconv.

(** The number a run of decimal digits stands for, read after the
    digits of [acc]. *)
Lemma of_uint_acc_value (d : Decimal.uint) (acc : positive) :
  Z.pos (Pos.of_uint_acc d acc)
  = Z.pos acc * 10 ^ Z.of_nat (Decimal.nb_digits d) + Z.of_N (Pos.of_uint d).
Proof.
  revert acc. induction d; intros acc; cbn [Pos.of_uint_acc Pos.of_uint Decimal.nb_digits];
    rewrite ?Nat2Z.inj_succ, ?Z.pow_succ_r by lia;
    rewrite ?IHd; cbn [Z.of_N]; rewrite ?IHd; try lia.
Qed.

Lemma of_uint_nonneg (d : Decimal.uint) : 0 <= Z.of_N (Pos.of_uint d).
Proof. lia. Qed.

Lemma pow10_pos (k : nat) : 1 <= 10 ^ Z.of_nat k.
Proof. pose proof (Z.pow_pos_nonneg 10 (Z.of_nat k)). lia. Qed.

Lemma digit_of (c : ascii) (k : Z) :
  In (c, k) [("0"%char, 0); ("1"%char, 1); ("2"%char, 2); ("3"%char, 3);
             ("4"%char, 4); ("5"%char, 5); ("6"%char, 6); ("7"%char, 7);
             ("8"%char, 8); ("9"%char, 9)] ->
  digit c = Some k.
Proof.
  simpl. intros H.
  repeat (destruct H as [H|H]; [injection H as <- <-; reflexivity|]).
  destruct H.
Qed.

(** One turn of the digit loop. *)
Lemma ParseUint_loop_step (c : ascii) (k : Z) (r : string) (n : Z) :
  digit c = Some k -> 0 <= k <= 9 -> 0 <= n <= maxUint64 ->
  ParseUint_loop (String c r) n =
    if 10 * n + k <=? maxUint64 then ParseUint_loop r (10 * n + k)
    else (maxUint64, Some ErrRange).
Proof.
  intros Hd Hk Hn. cbn [ParseUint_loop]. rewrite Hd.
  unfold cutoff, wrap64, maxUint64 in *.
  change (2 ^ 64 - 1) with 18446744073709551615 in *.
  change ((18446744073709551615) / 10 + 1) with 1844674407370955162.
  change (2 ^ 64) with 18446744073709551616.
  destruct (Z.leb_spec 1844674407370955162 n) as [Hc|Hc].
  - destruct (Z.leb_spec (10 * n + k) 18446744073709551615); [lia|reflexivity].
  - rewrite (Z.mod_small (n * 10)) by lia.
    destruct (Z.leb_spec (10 * n + k) 18446744073709551615) as [Hle|Hgt].
    + rewrite (Z.mod_small (n * 10 + k)) by lia.
      destruct (Z.ltb_spec (n * 10 + k) (n * 10)); [lia|].
      destruct (Z.ltb_spec 18446744073709551615 (n * 10 + k)); [lia|].
      simpl. f_equal. lia.
    + assert (E : (n * 10 + k) mod 18446744073709551616
                  = n * 10 + k - 18446744073709551616).
      { symmetry. apply (Z.mod_unique _ _ 1); lia. }
      rewrite E.
      destruct (Z.ltb_spec (n * 10 + k - 18446744073709551616) (n * 10)); [|lia].
      reflexivity.
Qed.

(** The digit loop on the digits of [d], entered with [n]: the number
    read when it fits 64 bits, a range error otherwise. *)
Lemma ParseUint_loop_digits (d : Decimal.uint) (n : Z) :
  0 <= n <= maxUint64 ->
  ParseUint_loop (NilEmpty.string_of_uint d) n =
    let total := n * 10 ^ Z.of_nat (Decimal.nb_digits d) + Z.of_N (Pos.of_uint d) in
    if total <=? maxUint64 then (total, None) else (maxUint64, Some ErrRange).
Proof.
  revert n. cbv zeta.
  induction d; intros n Hn;
    cbn [NilEmpty.string_of_uint Decimal.nb_digits Pos.of_uint];
    rewrite ?Nat2Z.inj_succ, ?Z.pow_succ_r by lia.
  1: { simpl. rewrite Z.mul_1_r, Z.add_0_r.
    destruct (Z.leb_spec n maxUint64); [reflexivity|lia]. }
  1: { rewrite (ParseUint_loop_step _ 0) by (reflexivity || lia).
    pose proof (pow10_pos (Decimal.nb_digits d)) as Hp.
    destruct (Z.leb_spec (10 * n + 0) maxUint64) as [Hle|Hgt].
    + rewrite IHd by lia. f_equal; try lia.
      replace ((10 * n + 0) * 10 ^ Z.of_nat (Decimal.nb_digits d))
        with (n * (10 * 10 ^ Z.of_nat (Decimal.nb_digits d))) by lia.
      reflexivity.
    + destruct (Z.leb_spec (n * (10 * 10 ^ Z.of_nat (Decimal.nb_digits d))
                            + Z.of_N (Pos.of_uint d)) maxUint64); [nia|reflexivity]. }
  all: match goal with
       | |- context [ParseUint_loop (String ?c _) _] =>
           let k := eval vm_compute in (match digit c with Some k => k | None => 0 end) in
           rewrite (ParseUint_loop_step c k) by (reflexivity || lia);
           pose proof (pow10_pos (Decimal.nb_digits d)) as Hp;
           cbn [Z.of_N]; rewrite of_uint_acc_value;
           pose proof (of_uint_nonneg d) as Hv;
           specialize (IHd (10 * n + k));
           set (P := 10 ^ Z.of_nat (Decimal.nb_digits d)) in *;
           set (V := Z.of_N (Pos.of_uint d)) in *;
           match goal with
           | |- _ = (if ?T <=? _ then _ else _) =>
               replace T with ((10 * n + k) * P + V) by ring
           end;
           destruct (Z.leb_spec (10 * n + k) maxUint64) as [Hle|Hgt];
           [ apply IHd; lia
           | destruct (Z.leb_spec ((10 * n + k) * P + V) maxUint64); [nia|reflexivity] ]
       end.
Qed.

(** [ParseUint] reads back what [Itoa] prints, up to [maxUint64]; a
    larger number is a range error. *)
Lemma ParseUint_Itoa (v : Z) :
  0 <= v ->
  ParseUint (Itoa v) =
    if v <=? maxUint64 then (v, None) else (maxUint64, Some ErrRange).
Proof.
  intros Hv. destruct v as [|p|p]; [reflexivity| |lia].
  unfold Itoa. cbn [Z.to_int NilZero.string_of_int].
  pose proof (DecimalPos.Unsigned.to_uint_nonnil p) as Hnil.
  pose proof (DecimalN.Unsigned.of_to (N.pos p)) as Hof.
  cbn [N.to_uint] in Hof. unfold N.of_uint in Hof.
  pose proof (ParseUint_loop_digits (Pos.to_uint p) 0) as Hloop.
  cbv zeta in Hloop. rewrite Hof in Hloop. cbn [Z.of_N] in Hloop.
  rewrite Z.mul_0_l, Z.add_0_l in Hloop.
  destruct (Pos.to_uint p) eqn:Hd; [contradiction|..];
    cbn [NilZero.string_of_uint NilEmpty.string_of_uint ParseUint] in *;
    apply Hloop; unfold maxUint64; lia.
Qed.

End StrconvFacts.

(** ** Suffixes *)

Module SuffixFacts.
Import GoStrings ListFileFacts.

Lemma substring_0_length (s : string) : substring 0 (String.length s) s = s.
Proof. induction s as [|c r IH]; simpl; [reflexivity|now rewrite IH]. Qed.

Lemma substring_skip (a b : string) :
  substring (String.length a) (String.length b) (a +:+ b) = b.
Proof.
  induction a as [|c a IH]; [apply substring_0_length|].
  change (String c a +:+ b) with (String c (a +:+ b)). simpl. exact IH.
Qed.

Lemma substring_take (a b : string) :
  substring 0 (String.length a) (a +:+ b) = a.
Proof.
  induction a as [|c a IH]; [now destruct b|].
  change (String c a +:+ b) with (String c (a +:+ b)). simpl. now rewrite IH.
Qed.

(** A string is its first [k] bytes followed by the rest. *)
Lemma substring_split (s : string) (k : nat) :
  (k <= String.length s)%nat ->
  s = substring 0 k s +:+ substring k (String.length s - k) s.
Proof.
  revert k. induction s as [|c r IH]; intros [|k] Hk; simpl in *; try lia.
  - reflexivity.
  - change (String c r = "" +:+ String c (substring 0 (String.length r) r)).
    now rewrite substring_0_length.
  - change (String c r
            = String c (substring 0 k r +:+ substring k (String.length r - k) r)).
    f_equal. apply IH. lia.
Qed.

(** [HasSuffix]: the string ends with the suffix. *)
Lemma HasSuffix_app (a suffix : string) : HasSuffix (a +:+ suffix) suffix = true.
Proof.
  unfold HasSuffix. rewrite length_append.
  replace (String.length a + String.length suffix - String.length suffix)%nat
    with (String.length a) by lia.
  rewrite substring_skip, String.eqb_refl.
  destruct (Nat.leb_spec (String.length suffix)
              (String.length a + String.length suffix)); [reflexivity|lia].
Qed.

Lemma HasSuffix_inv (x suffix : string) :
  HasSuffix x suffix = true ->
  x = TrimSuffix x suffix +:+ suffix /\
  (String.length (TrimSuffix x suffix) + String.length suffix
   = String.length x)%nat.
Proof.
  intros H. unfold TrimSuffix. rewrite H. unfold HasSuffix in H.
  apply andb_true_iff in H as [Hlen Heq].
  apply Nat.leb_le in Hlen. apply String.eqb_eq in Heq.
  pose proof (substring_split x (String.length x - String.length suffix)) as Hs.
  replace (String.length x - (String.length x - String.length suffix))%nat
    with (String.length suffix) in Hs by lia.
  rewrite Heq in Hs. specialize (Hs ltac:(lia)).
  split; [exact Hs|].
  assert (E : String.length x
              = String.length (substring 0 (String.length x - String.length suffix) x
                               +:+ suffix)) by now rewrite <- Hs.
  rewrite length_append in E. lia.
Qed.

Lemma TrimSuffix_app (a suffix : string) : TrimSuffix (a +:+ suffix) suffix = a.
Proof.
  unfold TrimSuffix. rewrite HasSuffix_app, length_append.
  replace (String.length a + String.length suffix - String.length suffix)%nat
    with (String.length a) by lia.
  apply substring_take.
Qed.

Lemma snoc_inj (a b : string) (c c' : ascii) :
  a +:+ String c "" = b +:+ String c' "" -> a = b /\ c = c'.
Proof.
  revert b. induction a as [|x a IH]; intros [|y b] H.
  - now injection H as ->.
  - change (String c "" = String y (b +:+ String c' "")) in H.
    injection H as -> H. destruct b; discriminate.
  - change (String x (a +:+ String c "") = String c' "") in H.
    injection H as -> H. destruct a; discriminate.
  - change (String x (a +:+ String c "") = String y (b +:+ String c' "")) in H.
    injection H as -> H. destruct (IH _ H) as [-> ->]. auto.
Qed.

(** Suffixes are compared from the last byte backwards. *)
Lemma HasSuffix_snoc (x suffix : string) (c c' : ascii) :
  HasSuffix (x +:+ String c "") (suffix +:+ String c' "")
  = Ascii.eqb c c' && HasSuffix x suffix.
Proof.
  destruct (HasSuffix (x +:+ String c "") (suffix +:+ String c' "")) eqn:H.
  - destruct (HasSuffix_inv _ _ H) as [E _].
    rewrite <- append_assoc in E. apply snoc_inj in E as [-> ->].
    now rewrite Ascii.eqb_refl, HasSuffix_app.
  - symmetry. apply andb_false_iff.
    destruct (Ascii.eqb_spec c c') as [<-|Hc]; [right|now left].
    destruct (HasSuffix x suffix) eqn:H'; [|reflexivity].
    destruct (HasSuffix_inv _ _ H') as [E _].
    rewrite E, append_assoc, HasSuffix_app in H. discriminate.
Qed.

Lemma HasSuffix_empty_l (suffix : string) (c : ascii) :
  HasSuffix "" (suffix +:+ String c "") = false.
Proof.
  unfold HasSuffix. rewrite length_append. simpl.
  destruct (Nat.leb_spec (String.length suffix + 1) 0); [lia|reflexivity].
Qed.

(** Every non-empty string has a last byte. *)
Lemma last_byte (s : string) :
  s <> ""%string -> exists a c, s = a +:+ String c "".
Proof.
  induction s as [|x s IH]; [contradiction|]. intros _.
  destruct s as [|y s].
  - exists ""%string, x. reflexivity.
  - destruct IH as (a & c & E); [discriminate|].
    exists (String x a), c. rewrite E. reflexivity.
Qed.

End SuffixFacts.

(** ** The byte-size flag value *)

Module BytesValueStringFacts.
Import GoStrings GoStrconv BytesValue BytesValueString ListFileFacts SuffixFacts StrconvFacts.

Lemma decimal_app (a b : string) : decimal (a +:+ b) = decimal a && decimal b.
Proof.
  induction a as [|c a IH]; [reflexivity|].
  change (String c a +:+ b) with (String c (a +:+ b)). simpl.
  destruct (digit c); [exact IH|reflexivity].
Qed.

Lemma decimal_string_of_uint (d : Decimal.uint) :
  decimal (NilEmpty.string_of_uint d) = true.
Proof. induction d; simpl; auto. Qed.

Lemma FormatUint_Itoa (v : Z) : 0 <= v -> FormatUint v = Itoa v.
Proof. intros Hv. destruct v; [reflexivity|reflexivity|lia]. Qed.

Lemma Itoa_nonempty (v : Z) : 0 <= v -> Itoa v <> ""%string.
Proof.
  intros Hv. destruct v as [|p|p]; [discriminate| |lia].
  unfold Itoa. cbn [Z.to_int NilZero.string_of_int].
  pose proof (DecimalPos.Unsigned.to_uint_nonnil p).
  destruct (Pos.to_uint p); [contradiction|discriminate..].
Qed.

(** What [Itoa] prints for a number that is not negative: decimal
    digits. *)
Lemma decimal_Itoa (v : Z) : 0 <= v -> decimal (Itoa v) = true.
Proof.
  intros Hv. destruct v as [|p|p]; [reflexivity| |lia].
  unfold Itoa. cbn [Z.to_int NilZero.string_of_int].
  pose proof (DecimalPos.Unsigned.to_uint_nonnil p).
  destruct (Pos.to_uint p) eqn:E; [contradiction|..];
    cbn [NilZero.string_of_uint]; apply decimal_string_of_uint.
Qed.

(** A string of digits does not end in a byte that is not a digit. *)
Lemma HasSuffix_decimal (d suffix : string) (c : ascii) :
  decimal d = true -> digit c = None ->
  HasSuffix d (suffix +:+ String c "") = false.
Proof.
  intros Hd Hc. destruct (String.eqb_spec d "") as [->|Hne];
    [apply HasSuffix_empty_l|].
  destruct (last_byte d Hne) as (a & x & ->).
  rewrite HasSuffix_snoc. rewrite decimal_app in Hd.
  apply andb_true_iff in Hd as [_ Hx]. simpl in Hx.
  destruct (Ascii.eqb_spec x c) as [->|_]; [|reflexivity].
  now rewrite Hc in Hx.
Qed.

(** Lowering leaves digits alone. *)
Lemma ToLowerASCII_app (a b : string) :
  ToLowerASCII (a +:+ b) = ToLowerASCII a +:+ ToLowerASCII b.
Proof.
  induction a as [|c a IH]; [reflexivity|].
  change (String c a +:+ b) with (String c (a +:+ b)). simpl. rewrite IH.
  reflexivity.
Qed.

Lemma lowerByte_digit (c : ascii) : digit c <> None -> lowerByte c = c.
Proof.
  unfold digit, lowerByte. intros H.
  destruct ((48 <=? Z.of_N (N_of_ascii c)) && (Z.of_N (N_of_ascii c) <=? 57)) eqn:E;
    [|contradiction].
  apply andb_true_iff in E as [E1 E2].
  apply Z.leb_le in E1. apply Z.leb_le in E2.
  destruct (N.leb_spec 65 (N_of_ascii c)); [lia|reflexivity].
Qed.

Lemma ToLowerASCII_decimal (d : string) : decimal d = true -> ToLowerASCII d = d.
Proof.
  induction d as [|c d IH]; [reflexivity|]. simpl.
  destruct (digit c) eqn:E; [|discriminate]. intros H.
  rewrite IH by exact H. rewrite lowerByte_digit; [reflexivity|congruence].
Qed.

(** [Set] on digits followed by a suffix of the table: no entry before
    that suffix's matches, so the digits are read with that suffix's
    unit. *)
Lemma Set_loop_unit (d : string) (u : string * Z) (b : Z) (s : string) :
  decimal d = true -> In u bytesUnits ->
  Set_loop bytesUnits b s (d +:+ fst u) =
    match ParseUint d with
    | (_, Some e) => Returned b (Some (s, e))
    | (v, None) => Returned (wrap64 (v * snd u)) None
    end.
Proof.
  intros Hd Hu.
  assert (Hm : forall x, HasSuffix (x +:+ "m") "m" = true)
    by (intros; apply HasSuffix_app).
  assert (Hk : forall x, HasSuffix (x +:+ "k") "k" = true)
    by (intros; apply HasSuffix_app).
  assert (Hsn : forall x c c', HasSuffix (x +:+ String c "") (String c' "")
                                   = Ascii.eqb c c' && HasSuffix x "")
    by (intros; apply (HasSuffix_snoc _ "")).
  assert (Hsn2 : forall x c a c', HasSuffix (x +:+ String c "") (String a (String c' ""))
                                   = Ascii.eqb c c' && HasSuffix x (String a ""))
    by (intros x c a c'; apply (HasSuffix_snoc x (String a ""))).
  assert (Hd1 : forall c, digit c = None -> HasSuffix d (String c "") = false)
    by (intros c Hc; now apply (HasSuffix_decimal d "")).
  assert (Hd2 : forall a c, digit c = None ->
            HasSuffix d (String a (String c "")) = false)
    by (intros a c Hc; now apply (HasSuffix_decimal d (String a ""))).
  unfold bytesUnits in *. simpl in Hu.
  destruct Hu as [<-|[<-|[<-|[<-|[<-|[<-|[]]]]]]]; cbn [fst snd Set_loop].
  - rewrite Hm. simpl. now rewrite TrimSuffix_app.
  - rewrite (Hsn d "k"%char "m"%char). simpl.
    rewrite Hk. simpl. now rewrite TrimSuffix_app.
  - change (d +:+ "mb") with (d +:+ ("m" +:+ "b")).
    rewrite <- append_assoc.
    rewrite (Hsn (d +:+ "m") "b"%char "m"%char). simpl.
    rewrite (Hsn (d +:+ "m") "b"%char "k"%char). simpl.
    rewrite (Hsn2 (d +:+ "m") "b"%char "m"%char "b"%char). simpl.
    rewrite Hm. simpl. rewrite append_assoc.
    change ("m" +:+ "b") with "mb"%string. now rewrite TrimSuffix_app.
  - change (d +:+ "kb") with (d +:+ ("k" +:+ "b")).
    rewrite <- append_assoc.
    rewrite (Hsn (d +:+ "k") "b"%char "m"%char). simpl.
    rewrite (Hsn (d +:+ "k") "b"%char "k"%char). simpl.
    rewrite (Hsn2 (d +:+ "k") "b"%char "m"%char "b"%char). simpl.
    rewrite (Hsn d "k"%char "m"%char). simpl.
    rewrite (Hsn2 (d +:+ "k") "b"%char "k"%char "b"%char). simpl.
    rewrite Hk. simpl. rewrite append_assoc.
    change ("k" +:+ "b") with "kb"%string. now rewrite TrimSuffix_app.
  - rewrite (Hsn d "b"%char "m"%char). simpl.
    rewrite (Hsn d "b"%char "k"%char). simpl.
    rewrite (Hsn2 d "b"%char "m"%char "b"%char). simpl.
    rewrite (Hd1 "m"%char eq_refl). simpl.
    rewrite (Hsn2 d "b"%char "k"%char "b"%char). simpl.
    rewrite (Hd1 "k"%char eq_refl). simpl.
    rewrite (HasSuffix_app d "b"). simpl. now rewrite TrimSuffix_app.
  - rewrite append_nil_r.
    rewrite (Hd1 "m"%char eq_refl). simpl.
    rewrite (Hd1 "k"%char eq_refl). simpl.
    rewrite (Hd2 "m"%char "b"%char eq_refl). simpl.
    rewrite (Hd2 "k"%char "b"%char eq_refl). simpl.
    rewrite (Hd1 "b"%char eq_refl). simpl.
    rewrite GoStringsFacts.HasSuffix_empty. simpl.
    unfold TrimSuffix. rewrite GoStringsFacts.HasSuffix_empty. simpl.
    rewrite Nat.sub_0_r, substring_0_length. reflexivity.
Qed.

End BytesValueStringFacts.

Module BytesValueRoundTrip.
Import GoStrings GoStrconv BytesValue BytesValueString ListFileFacts SuffixFacts
       StrconvFacts BytesValueStringFacts.

(** [ParseUint] returns without error on decimal digits only. *)
Lemma ParseUint_loop_decimal (d : string) (n k : Z) :
  ParseUint_loop d n = (k, None) -> decimal d = true.
Proof.
  revert n. induction d as [|c d IH]; intros n H; [reflexivity|].
  cbn [ParseUint_loop decimal] in *.
  destruct (digit c); [|discriminate].
  destruct (cutoff <=? n); [discriminate|].
  destruct ((wrap64 (wrap64 (n * 10) + z) <? wrap64 (n * 10))
            || (maxUint64 <? wrap64 (wrap64 (n * 10) + z))); [discriminate|].
  eapply IH; eauto.
Qed.

Lemma ParseUint_decimal (d : string) (k : Z) :
  ParseUint d = (k, None) -> d <> ""%string /\ decimal d = true.
Proof.
  destruct d as [|c d]; [discriminate|]. intros H. split; [discriminate|].
  eapply ParseUint_loop_decimal; eauto.
Qed.

(** The unit [String] divides by. *)
Lemma String_cases (b : Z) :
  0 <= b ->
  bytesValue_String b =
    if 1048576 <=? b then Itoa (b / 1048576) +:+ "m"
    else if 1024 <=? b then Itoa (b / 1024) +:+ "k"
    else if 1 <=? b then Itoa b +:+ "b"
    else "0"%string.
Proof.
  intros Hb. unfold bytesValue_String, bytesUnits. cbn [String_loop].
  change (1 * 1024 * 1024) with 1048576. change (1 * 1024) with 1024.
  destruct (Z.leb_spec 1048576 b) as [H1|H1].
  { rewrite FormatUint_Itoa; [reflexivity|]. apply Z.div_pos; lia. }
  destruct (Z.leb_spec 1024 b) as [H2|H2].
  { rewrite FormatUint_Itoa; [reflexivity|]. apply Z.div_pos; lia. }
  destruct (Z.leb_spec 1 b) as [H3|H3]; [|reflexivity].
  rewrite Z.div_1_r. rewrite FormatUint_Itoa by lia. reflexivity.
Qed.

(** [Set] on what [Itoa] prints followed by a suffix of the table. *)
Lemma Set_Itoa_unit (u : string * Z) (v b : Z) (s : string) :
  In u bytesUnits -> 0 <= v ->
  ToLowerASCII s = Itoa v +:+ fst u ->
  bytesValue_Set ToLowerASCII b s =
    if v <=? maxUint64 then Returned (wrap64 (v * snd u)) None
    else Returned b (Some (s, ErrRange)).
Proof.
  intros Hu Hv Hs. unfold bytesValue_Set. rewrite Hs.
  rewrite Set_loop_unit by (auto using decimal_Itoa).
  rewrite ParseUint_Itoa by exact Hv.
  now destruct (v <=? maxUint64).
Qed.

Lemma ToLowerASCII_Itoa_unit (v : Z) (suffix : string) :
  0 <= v -> ToLowerASCII suffix = suffix ->
  ToLowerASCII (Itoa v +:+ suffix) = Itoa v +:+ suffix.
Proof.
  intros Hv Hs. rewrite ToLowerASCII_app, Hs.
  now rewrite ToLowerASCII_decimal by now apply decimal_Itoa.
Qed.

Lemma wrap64_small (x : Z) : 0 <= x <= maxUint64 -> wrap64 x = x.
Proof. unfold wrap64, maxUint64. intros H. apply Z.mod_small. lia. Qed.

(** [Set] on what [String] prints. *)
Lemma Set_String (b0 b : Z) :
  0 <= b <= maxUint64 ->
  bytesValue_Set ToLowerASCII b0 (bytesValue_String b) =
    Returned (if 1048576 <=? b then 1048576 * (b / 1048576)
              else if 1024 <=? b then 1024 * (b / 1024)
              else b) None.
Proof.
  intros Hb. rewrite String_cases by lia.
  assert (Hmax : maxUint64 = 18446744073709551615) by reflexivity.
  destruct (Z.leb_spec 1048576 b) as [H1|H1];
    [|destruct (Z.leb_spec 1024 b) as [H2|H2];
      [|destruct (Z.leb_spec 1 b) as [H3|H3]]].
  - pose proof (Z.mul_div_le b 1048576 ltac:(lia)).
    pose proof (Z.div_pos b 1048576 ltac:(lia) ltac:(lia)).
    rewrite (Set_Itoa_unit ("m"%string, 1 * 1024 * 1024) (b / 1048576));
      [|simpl; tauto|lia|apply ToLowerASCII_Itoa_unit; [lia|reflexivity]].
    destruct (Z.leb_spec (b / 1048576) maxUint64); [|lia].
    cbn [snd]. change (1 * 1024 * 1024) with 1048576.
    rewrite wrap64_small by lia. f_equal. lia.
  - pose proof (Z.mul_div_le b 1024 ltac:(lia)).
    pose proof (Z.div_pos b 1024 ltac:(lia) ltac:(lia)).
    rewrite (Set_Itoa_unit ("k"%string, 1 * 1024) (b / 1024));
      [|simpl; tauto|lia|apply ToLowerASCII_Itoa_unit; [lia|reflexivity]].
    destruct (Z.leb_spec (b / 1024) maxUint64); [|lia].
    cbn [snd]. change (1 * 1024) with 1024.
    rewrite wrap64_small by lia. f_equal. lia.
  - rewrite (Set_Itoa_unit ("b"%string, 1) b);
      [|simpl; tauto|lia|apply ToLowerASCII_Itoa_unit; [lia|reflexivity]].
    destruct (Z.leb_spec b maxUint64); [|lia].
    cbn [snd]. rewrite Z.mul_1_r, wrap64_small by lia. reflexivity.
  - assert (b = 0) as -> by lia. reflexivity.
Qed.

End BytesValueRoundTrip.

(** ** The log of calls *)

Module LedgerFacts.
Import Upload UploadFacts Ledger.

(** Replacing one task moves the selected tasks by that task. *)
Lemma select_insert {B} (p : task -> bool) (f : task -> B) (ts : list task) i t t' :
  ts !! i = Some t ->
  (if p t then [f t] else []) ++ map f (List.filter p (<[i:=t']> ts))
  ≡ₚ (if p t' then [f t'] else []) ++ map f (List.filter p ts).
Proof.
  revert i. induction ts as [|a ts IH]; intros [|i] H; simpl in *;
    try discriminate.
  - injection H as ->. destruct (p t), (p t'); simpl; try reflexivity.
    apply perm_swap.
  - specialize (IH _ H). destruct (p a); simpl.
    + rewrite <- !Permutation_middle. now constructor.
    + exact IH.
Qed.

Lemma step_task_ledger w cfg k i t g t' g' :
  step_task w cfg k i t g = (t', g') ->
  (has_name t = true ->
   objectName (rev cfg) (filepath.Separator (host cfg))
     (Path (dest cfg)) (file t) = Some (name t)) ->
  (has_name t' = true ->
   objectName (rev cfg) (filepath.Separator (host cfg))
     (Path (dest cfg)) (file t') = Some (name t')) /\
  ((copies g' = copies g /\
    (if copied t' then [copy_of cfg t'] else [])
    = (if copied t then [copy_of cfg t] else []))
   \/
   (copies g' = copy_of cfg t :: copies g /\
    copied t = false /\ copied t' = true /\ copy_of cfg t' = copy_of cfg t)).
Proof.
  intros Hstep Hname.
  unfold has_name, copied, copy_of, copies in *.
  task_cases Hstep; simpl in *; at_known; simpl;
    try match goal with
      | |- context [after_close ?r] => destruct r
      end; simpl;
    try (split; [assumption || (intros; assumption) || discriminate|]);
    try (left; split; reflexivity);
    try (right; repeat split; reflexivity).
Qed.

Lemma copies_tick g : copies (tick g) = copies g.
Proof. reflexivity. Qed.

Lemma ledger_step w cfg s e s' :
  ledger cfg s -> apply_event w cfg e s = Some s' -> ledger cfg s'.
Proof.
  intros [Hc Hn] H. step_cases H; unfold ledger; simpl.
  - (* eg.Go *)
    split.
    + pose proof (select_insert copied (copy_of cfg) _ _ _ (goto t AtSelect) Hl) as Hp.
      unfold copied in Hp at 1 3. rewrite Hat in Hp. simpl in Hp.
      change (copies (tick (sh s))) with (copies (sh s)).
      now rewrite Hp.
    + apply Forall_insert; [exact Hn|]. discriminate.
  - (* an action of task i *)
    pose proof (Forall_lookup_1 _ _ _ _ Hn Hl) as Ht.
    destruct (step_task_ledger _ _ _ _ _ _ _ _ Hstep Ht) as [Hn' Hcases].
    split; [|apply Forall_insert; [exact Hn|exact Hn']].
    pose proof (select_insert copied (copy_of cfg) _ _ _ t' Hl) as Hp.
    rewrite copies_tick.
    destruct Hcases as [[E1 E2]|(E1 & E2 & E3 & E4)].
    + rewrite E1, Hc. rewrite E2 in Hp.
      now apply Permutation_app_inv_l in Hp.
    + rewrite E1, Hc. rewrite E2, E3, E4 in Hp. simpl in Hp.
      symmetry. exact Hp.
  - (* the pool is emptied *)
    split; [exact Hc|exact Hn].
Qed.

Lemma ledger_init cfg files : ledger cfg (init files).
Proof.
  split; simpl.
  - induction files; simpl; auto.
  - induction files; simpl; constructor; auto. discriminate.
Qed.

Lemma reachable_ledger w cfg files s :
  reachable w cfg files s -> ledger cfg s.
Proof.
  apply reachable_ind; [apply ledger_init|].
  intros; eapply ledger_step; eauto.
Qed.

(** When [eg.Wait()] returns [nil], every task has made its copy. *)
Lemma clean_finish_all_copied w cfg files s :
  reachable w cfg files s -> finished s = true -> err (sh s) = None ->
  Forall (fun t => copied t = true /\ has_name t = true) (tasks s).
Proof.
  intros Hreach Hfin Herr.
  destruct (reachable_cancelling _ _ _ _ Hreach) as (Hiff & Hsk & Hfa).
  unfold finished in Hfin. rewrite forallb_forall in Hfin.
  apply Forall_forall. intros t Ht.
  pose proof (Hfin t (proj1 (list_elem_of_In _ _) Ht)) as Hd.
  pose proof (proj1 (Forall_forall _ _) Hsk t Ht) as H1.
  pose proof (proj1 (Forall_forall _ _) Hfa t Ht) as H2.
  unfold is_done, skipped, failed, copied, has_name in *.
  destruct (at_ t) as [| | | | | | | | | | | |r|v]; try discriminate.
  destruct r as [| |e]; [auto| |].
  - specialize (H1 eq_refl). apply Hiff in H1. contradiction.
  - specialize (H2 eq_refl). contradiction.
Qed.

Lemma filter_all {A} (p : A -> bool) (l : list A) :
  Forall (fun x => p x = true) l -> List.filter p l = l.
Proof. induction 1 as [|x l Hx _ IH]; simpl; [|rewrite Hx, IH]; auto. Qed.

End LedgerFacts.

Module CallsFacts.
Import Upload UploadFacts Ledger LedgerFacts Calls.

Ltac calls_done :=
  simpl; repeat split; try (intros; discriminate); try (intros; assumption);
  try reflexivity; try lia.

(** A comparison of the calls of one task, statement by statement. *)
Ltac by_statement t :=
  unfold opens, writers, copied, writer_closes, file_closes;
  destruct (at_ t) as [| | | | | | | | | | |r|r|v]; simpl; try lia;
  try (destruct r as [| |[]]); try (destruct v); simpl in *;
  try congruence;
  try (destruct (file_open t)); try (destruct (writer_open t)); simpl; try lia.

Lemma step_task_calls w cfg k i t g t' g' :
  step_task w cfg k i t g = (t', g') ->
  task_ok t -> returning_ok t ->
  returning_ok t' /\
  (calls is_open g' + opens t = calls is_open g + opens t')%nat /\
  (calls is_new_writer g' + writers t = calls is_new_writer g + writers t')%nat /\
  (calls is_copy g' + b2n (copied t) = calls is_copy g + b2n (copied t'))%nat /\
  (calls is_writer_close g' + writer_closes t
   = calls is_writer_close g + writer_closes t')%nat /\
  (calls is_file_close g' + file_closes t
   = calls is_file_close g + file_closes t')%nat.
Proof.
  intros Hstep Hok Hret.
  unfold task_ok, holds, all_defers, returning_ok, calls, opens, writers, copied,
    writer_closes, file_closes, file_open, writer_open in *.
  unfold step_task in Hstep.
  destruct (at_ t) eqn:Hat.
  - (* Queued *) injection Hstep as <- <-. rewrite Hat. calls_done.
  - (* AtSelect *)
    destruct Hok as [Hd _].
    destruct (ctxDone g); injection Hstep as <- <-; calls_done.
  - (* AtOpen *)
    destruct Hok as [Hd _].
    destruct (open_ok w i _); injection Hstep as <- <-; calls_done.
  - (* AtNewWriter *)
    destruct Hok as [Hd _].
    destruct (objectName _ _ _ _); injection Hstep as <- <-;
      simpl; rewrite ?Hd; calls_done.
  - (* AtPoolGet *)
    destruct Hok as [Hd _].
    destruct (pool_Get w cfg i g) as [b g1| |] eqn:Hget;
      injection Hstep as <- <-;
      [|simpl; rewrite ?Hd; calls_done|rewrite Hat; calls_done].
    assert (Hio : io g1 = io g).
    { unfold pool_Get, pool_New in Hget.
      destruct (idle g); [|destruct (pool_reuse w i)];
        try destruct (bufSize cfg <? 0); try destruct (maxAlloc <? bufSize cfg);
        try destruct (bufSize cfg =? 0); try destruct (make_ok w _);
        simplify_eq; reflexivity. }
    rewrite Hio. calls_done.
  - (* AtStart *)
    injection Hstep as <- <-. destruct (verbose cfg); calls_done.
  - (* AtCopy *)
    destruct Hok as [Hd _].
    destruct (bufSize cfg =? 0);
      [injection Hstep as <- <-; simpl; rewrite ?Hd; calls_done|].
    destruct (copy_ok w i (name t)); injection Hstep as <- <-;
      simpl; rewrite ?Hd; calls_done.
  - (* AtClose *)
    destruct Hok as [Hd _].
    destruct (close_ok w i (name t)); injection Hstep as <- <-;
      [destruct (rev cfg)|]; simpl; rewrite ?Hd; calls_done.
  - (* AtCountAdd *) injection Hstep as <- <-. calls_done.
  - (* AtGC *)
    injection Hstep as <- <-. destruct (gcDue _ _); calls_done.
  - (* AtLog *)
    destruct Hok as [Hd _].
    destruct (verbose cfg); [destruct (rev cfg)|]; injection Hstep as <- <-;
      simpl; rewrite Hd; calls_done.
  - (* Returning *)
    destruct (wrote r) eqn:Hw.
    + assert (Hio : forall b, io (pool_Put b g) = io g)
        by (intros [b|]; reflexivity).
      assert (Hio2 : io (eg_done r g) = io g)
        by (unfold eg_done; destruct (returned r), (err g); reflexivity).
      destruct Hok as [[Hd _]|[_ [Hd|[Hd|Hd]]]]; rewrite Hd in *;
        unfold call_deferred in Hstep;
        injection Hstep as <- <-; simpl; rewrite ?Hat, ?Hio, ?Hio2; simpl;
        rewrite ?Hw; destruct r as [| |[]]; try discriminate; calls_done.
    + rewrite (Hret eq_refl) in *. injection Hstep as <- <-. simpl.
      assert (Hio2 : io (eg_done r g) = io g)
        by (unfold eg_done; destruct (returned r), (err g); reflexivity).
      rewrite Hio2, Hw.
      destruct r as [| |[]]; try discriminate; calls_done.
  - (* Done *) injection Hstep as <- <-. rewrite Hat. calls_done.
  - (* Panicking *)
    assert (Hio : forall b, io (pool_Put b g) = io g)
      by (intros [b|]; reflexivity).
    destruct Hok as [[Hd _]|[_ [Hd|[Hd|Hd]]]]; rewrite Hd in *;
      unfold call_deferred in Hstep;
      injection Hstep as <- <-; simpl; rewrite ?Hat, ?Hd, ?Hio; simpl;
      destruct v; simpl in *;
      try (specialize (Hret eq_refl); discriminate); calls_done.
Qed.

Lemma balanced_step w cfg files s e s' :
  structure cfg files s -> balanced s ->
  apply_event w cfg e s = Some s' -> balanced s'.
Proof.
  intros (Hok & _) (Hret & H1 & H2 & H3 & H4 & H5) H.
  step_cases H; unfold balanced; simpl.
  - pose proof (total_insert opens _ _ _ (goto t AtSelect) Hl) as E1.
    pose proof (total_insert writers _ _ _ (goto t AtSelect) Hl) as E2.
    pose proof (total_insert (fun t => b2n (copied t)) _ _ _ (goto t AtSelect) Hl) as E3.
    cbv beta in E3.
    pose proof (total_insert writer_closes _ _ _ (goto t AtSelect) Hl) as E4.
    pose proof (total_insert file_closes _ _ _ (goto t AtSelect) Hl) as E5.
    assert (Z1 : opens t = O) by (unfold opens; now rewrite Hat).
    assert (Z2 : writers t = O) by (unfold writers; now rewrite Hat).
    assert (Z3 : b2n (copied t) = O) by (unfold copied; now rewrite Hat).
    assert (Z4 : writer_closes t = O) by (unfold writer_closes; now rewrite Hat).
    assert (Z5 : file_closes t = O) by (unfold file_closes; now rewrite Hat).
    rewrite Z1 in E1. rewrite Z2 in E2. rewrite Z3 in E3.
    rewrite Z4 in E4. rewrite Z5 in E5.
    change (opens (goto t AtSelect)) with O in E1.
    change (writers (goto t AtSelect)) with O in E2.
    change (b2n (copied (goto t AtSelect))) with O in E3.
    change (writer_closes (goto t AtSelect)) with O in E4.
    change (file_closes (goto t AtSelect)) with O in E5.
    split; [apply Forall_insert; [exact Hret|exact I]|].
    change (calls is_open (tick (sh s))) with (calls is_open (sh s)).
    change (calls is_new_writer (tick (sh s))) with (calls is_new_writer (sh s)).
    change (calls is_copy (tick (sh s))) with (calls is_copy (sh s)).
    change (calls is_writer_close (tick (sh s))) with (calls is_writer_close (sh s)).
    change (calls is_file_close (tick (sh s))) with (calls is_file_close (sh s)).
    repeat split; lia.
  - pose proof (Forall_lookup_1 _ _ _ _ Hok Hl) as Htok.
    pose proof (Forall_lookup_1 _ _ _ _ Hret Hl) as Htret.
    destruct (step_task_calls _ _ _ _ _ _ _ _ Hstep Htok Htret)
      as (Hret' & C1 & C2 & C3 & C4 & C5).
    pose proof (total_insert opens _ _ _ t' Hl) as E1.
    pose proof (total_insert writers _ _ _ t' Hl) as E2.
    pose proof (total_insert (fun t => b2n (copied t)) _ _ _ t' Hl) as E3.
    cbv beta in E3.
    pose proof (total_insert writer_closes _ _ _ t' Hl) as E4.
    pose proof (total_insert file_closes _ _ _ t' Hl) as E5.
    split; [apply Forall_insert; [exact Hret|exact Hret']|].
    change (calls is_open (tick g')) with (calls is_open g').
    change (calls is_new_writer (tick g')) with (calls is_new_writer g').
    change (calls is_copy (tick g')) with (calls is_copy g').
    change (calls is_writer_close (tick g')) with (calls is_writer_close g').
    change (calls is_file_close (tick g')) with (calls is_file_close g').
    repeat split; lia.
  - split; [exact Hret|]. repeat split; assumption.
Qed.

Lemma balanced_init files : balanced (init files).
Proof.
  unfold balanced, calls. simpl.
  split; [induction files; simpl; constructor; auto; exact I|].
  repeat split; induction files; simpl; auto.
Qed.

Lemma reachable_balanced w cfg files s :
  reachable w cfg files s -> balanced s.
Proof.
  intros Hs. cut (structure cfg files s /\ balanced s); [tauto|].
  revert s Hs. apply reachable_ind.
  - split; [apply structure_init|apply balanced_init].
  - intros s e s' [H1 H2] He. split.
    + eapply structure_step; eauto.
    + eapply balanced_step; eauto.
Qed.

Lemma total_le (f g : task -> nat) (ts : list task) :
  Forall (fun t => (f t <= g t)%nat) ts -> (total f ts <= total g ts)%nat.
Proof. induction 1 as [|t ts Ht _ IH]; simpl; lia. Qed.

Lemma total_ext (f g : task -> nat) (ts : list task) :
  Forall (fun t => f t = g t) ts -> total f ts = total g ts.
Proof. induction 1 as [|t ts Ht _ IH]; simpl; [|rewrite Ht, IH]; auto. Qed.

Lemma total_const (k : nat) (f : task -> nat) (ts : list task) :
  Forall (fun t => f t = k) ts -> total f ts = (k * length ts)%nat.
Proof. induction 1 as [|t ts Ht _ IH]; simpl; [lia|rewrite Ht, IH; lia]. Qed.

Lemma total_double (f g : task -> nat) (ts : list task) :
  Forall (fun t => (f t <= 2 * g t)%nat) ts ->
  (total f ts <= 2 * total g ts)%nat.
Proof. induction 1 as [|t ts Ht _ IH]; simpl; lia. Qed.

End CallsFacts.

(** ** Settings under which a goroutine panics *)

Module CrashFacts.
Import Upload UploadFacts Ledger Calls Watch.

Lemma step_task_nameless w cfg k i t g t' g' :
  rev cfg <> Part000 -> Path (dest cfg) = EmptyString ->
  step_task w cfg k i t g = (t', g') ->
  before_name t -> forallb is_open_or_close (io g) = true ->
  before_name t' /\ forallb is_open_or_close (io g') = true.
Proof.
  intros Hrev Hpath Hstep Ht Hio.
  assert (Hname : forall f, objectName (rev cfg) (filepath.Separator (host cfg))
                              (Path (dest cfg)) f = None).
  { intros f. rewrite Hpath. destruct (rev cfg); [contradiction|reflexivity..]. }
  unfold before_name in *.
  unfold step_task in Hstep. rewrite Hname in Hstep.
  destruct (at_ t) eqn:Hat; try contradiction; simpl in *.
  - injection Hstep as <- <-. rewrite Hat. auto.
  - destruct (ctxDone g); injection Hstep as <- <-; simpl; auto.
  - destruct (open_ok w i _); injection Hstep as <- <-; simpl; rewrite ?Ht, ?Hio; auto.
  - injection Hstep as <- <-. simpl. auto.
  - destruct Ht as [Hw Hd]. rewrite Hd in Hstep.
    injection Hstep as <- <-. simpl. split; [auto|].
    unfold eg_done. destruct (returned r), (err g); simpl; auto.
  - injection Hstep as <- <-. rewrite Hat. auto.
  - destruct Ht as [Hd|Hd]; rewrite Hd in Hstep; injection Hstep as <- <-;
      simpl; rewrite ?Hat; auto.
Qed.

Lemma nameless_step w cfg s e s' :
  rev cfg <> Part000 -> Path (dest cfg) = EmptyString ->
  nameless s -> apply_event w cfg e s = Some s' -> nameless s'.
Proof.
  intros Hrev Hpath [Ht Hio] H. step_cases H; unfold nameless; simpl.
  - split; [|exact Hio].
    apply Forall_insert; [exact Ht|].
    pose proof (Forall_lookup_1 _ _ _ _ Ht Hl) as Hb.
    unfold before_name in *. rewrite Hat in Hb. simpl. exact Hb.
  - pose proof (Forall_lookup_1 _ _ _ _ Ht Hl) as Hb.
    destruct (step_task_nameless _ _ _ _ _ _ _ _ Hrev Hpath Hstep Hb Hio) as [Hb' Hio'].
    split; [|exact Hio']. apply Forall_insert; [exact Ht|exact Hb'].
  - split; [exact Ht|exact Hio].
Qed.

Lemma nameless_init files : nameless (init files).
Proof.
  split; [|reflexivity]. simpl.
  induction files; simpl; constructor; auto. reflexivity.
Qed.

Lemma reachable_nameless w cfg files s :
  rev cfg <> Part000 -> Path (dest cfg) = EmptyString ->
  reachable w cfg files s -> nameless s.
Proof.
  intros Hrev Hpath. apply reachable_ind; [apply nameless_init|].
  intros; eapply nameless_step; eauto.
Qed.

Lemma copies_emit g e : is_copy e = false -> copies (emit g e) = copies g.
Proof. unfold copies. simpl. now intros ->. Qed.

Lemma step_task_bufferless w cfg k i t g t' g' :
  bufSize cfg <= 0 \/ maxAlloc < bufSize cfg ->
  step_task w cfg k i t g = (t', g') ->
  before_copy cfg t -> task_ok t ->
  (bufSize cfg <> 0 -> idle g = []) -> copies g = [] ->
  before_copy cfg t' /\ (bufSize cfg <> 0 -> idle g' = []) /\ copies g' = [].
Proof.
  intros Hbuf Hstep [Hh Ht] Hok Hidle Hcop.
  assert (Hput : bufSize cfg <> 0 -> pool_Put (buf t) g = g).
  { intros Hne. unfold holds in Hh. destruct (buf t); [|reflexivity].
    now destruct (Hne (Hh eq_refl)). }
  assert (Hputc : copies (pool_Put (buf t) g) = copies g)
    by (destruct (buf t); reflexivity).
  unfold before_copy, task_ok, all_defers in *.
  unfold step_task in Hstep.
  destruct (at_ t) eqn:Hat; try contradiction; simpl in *.
  - injection Hstep as <- <-. rewrite Hat. auto.
  - destruct (ctxDone g); injection Hstep as <- <-; simpl; auto.
  - destruct (open_ok w i _); injection Hstep as <- <-; simpl; auto.
  - destruct (objectName _ _ _ _); injection Hstep as <- <-; simpl; auto.
  - destruct Hok as [_ Hb]. unfold holds in *. rewrite Hb in Hh.
    unfold pool_Get, pool_New in Hstep.
    destruct (Z.eq_dec (bufSize cfg) 0) as [E|E].
    + destruct (idle g) as [|b rest]; [|destruct (pool_reuse w i)];
        try destruct (bufSize cfg <? 0); try destruct (maxAlloc <? bufSize cfg);
        try destruct (bufSize cfg =? 0); try destruct (make_ok w _);
        injection Hstep as <- <-; rewrite ?Hat; simpl; rewrite ?Hb; repeat split;
        intros; try discriminate; try contradiction; auto.
    + rewrite (Hidle E) in Hstep.
      destruct (Z.ltb_spec (bufSize cfg) 0);
        [|destruct (Z.ltb_spec maxAlloc (bufSize cfg)); [|lia]];
        injection Hstep as <- <-; simpl; rewrite ?Hb; repeat split;
        intros; try discriminate; auto.
  - injection Hstep as <- <-. destruct (verbose cfg); simpl; auto.
  - destruct Hok as [_ Hb]. rewrite (Hh Hb) in Hstep. simpl in Hstep.
    injection Hstep as <- <-. simpl. auto.
  - destruct (defers t) as [|d ds].
    + injection Hstep as <- <-. simpl. split; [auto|].
      unfold eg_done, copies. destruct (returned r), (err g); simpl; auto.
    + unfold call_deferred in Hstep.
      destruct d; injection Hstep as <- <-; simpl;
        rewrite ?Hat, ?Hputc, ?copies_emit by reflexivity;
        repeat split; auto; try discriminate;
        intros Hne; rewrite (Hput Hne); auto.
  - injection Hstep as <- <-. rewrite Hat. auto.
  - destruct (defers t) as [|d ds].
    + injection Hstep as <- <-. rewrite Hat. auto.
    + unfold call_deferred in Hstep.
      destruct d; injection Hstep as <- <-; simpl;
        rewrite ?Hat, ?Hputc, ?copies_emit by reflexivity;
        repeat split; auto; try discriminate;
        intros Hne; rewrite (Hput Hne); auto.
Qed.

Lemma bufferless_step w cfg s e s' :
  bufSize cfg <= 0 \/ maxAlloc < bufSize cfg ->
  bufferless cfg s -> apply_event w cfg e s = Some s' -> bufferless cfg s'.
Proof.
  intros Hbuf (Ht & Hok & Hidle & Hcop) H. step_cases H; unfold bufferless; simpl.
  - pose proof (Forall_lookup_1 _ _ _ _ Hok Hl) as Hb.
    pose proof (Forall_lookup_1 _ _ _ _ Ht Hl) as Hc.
    split; [|split; [|auto]].
    + apply Forall_insert; [exact Ht|]. unfold before_copy in *. simpl.
      split; [apply Hc|exact I].
    + apply Forall_insert; [exact Hok|].
      unfold task_ok in *. rewrite Hat in Hb. simpl. exact Hb.
  - pose proof (Forall_lookup_1 _ _ _ _ Ht Hl) as Hb.
    pose proof (Forall_lookup_1 _ _ _ _ Hok Hl) as Hb2.
    destruct (step_task_bufferless _ _ _ _ _ _ _ _ Hbuf Hstep Hb Hb2 Hidle Hcop)
      as (Hb' & Hi' & Hc').
    split; [|split; [|auto]].
    + apply Forall_insert; [exact Ht|exact Hb'].
    + apply Forall_insert; [exact Hok|]. eapply step_task_ok; eauto.
  - auto.
Qed.

Lemma bufferless_init cfg files : bufferless cfg (init files).
Proof.
  split; [|split; [|split; reflexivity]]; simpl.
  - induction files; simpl; constructor; auto. split; [discriminate|exact I].
  - induction files; simpl; constructor; auto. split; reflexivity.
Qed.

Lemma reachable_bufferless w cfg files s :
  bufSize cfg <= 0 \/ maxAlloc < bufSize cfg ->
  reachable w cfg files s -> bufferless cfg s.
Proof.
  intros Hbuf. apply reachable_ind; [apply bufferless_init|].
  intros; eapply bufferless_step; eauto.
Qed.

(** The slice expression [dest.Path[1:]] is in range. *)
Lemma step_task_in_range w cfg k i t g t' g' :
  rev cfg = Part000 \/ Path (dest cfg) <> EmptyString ->
  step_task w cfg k i t g = (t', g') ->
  at_ t <> Panicking SliceBounds -> at_ t' <> Panicking SliceBounds.
Proof.
  intros Hin Hstep Ht.
  task_cases Hstep; simpl in *; at_known; try discriminate; try congruence;
    try match goal with |- context [after_close ?r] => destruct r end;
    try discriminate.
  exfalso. unfold objectName, slice_from_1 in *.
  destruct (rev cfg); destruct (Path (dest cfg)); try discriminate;
    destruct Hin; congruence.
Qed.

Lemma reachable_in_range w cfg files s :
  rev cfg = Part000 \/ Path (dest cfg) <> EmptyString ->
  reachable w cfg files s ->
  Forall (fun t => at_ t <> Panicking SliceBounds) (tasks s).
Proof.
  intros Hin. revert s.
  apply (reachable_ind w cfg files
           (fun s => Forall (fun t => at_ t <> Panicking SliceBounds) (tasks s))).
  - unfold init; simpl. induction files; simpl; constructor; auto.
  - intros s e s' Hs H. step_cases H; simpl.
    + apply Forall_insert; [exact Hs|]. discriminate.
    + pose proof (Forall_lookup_1 _ _ _ _ Hs Hl) as Ht. simpl in Ht.
      apply Forall_insert; [exact Hs|].
      eapply step_task_in_range; eauto.
    + exact Hs.
Qed.

(** An action of a goroutine that is under way. *)
Lemma run_task w cfg i s t :
  panicked (sh s) = false -> tasks s !! i = Some t -> runnable t = true ->
  exists s',
    apply_event w cfg (Run i) s = Some s' /\
    tasks s' !! i = Some (fst (step_task w cfg (length (tasks s)) i t (sh s))) /\
    length (tasks s') = length (tasks s) /\
    sh s' = tick (snd (step_task w cfg (length (tasks s)) i t (sh s))).
Proof.
  intros Hp Hl Hr. unfold apply_event, exec. rewrite Hp, Hl, Hr.
  destruct (step_task _ _ _ _ _ _) as [t' g']. eexists. split; [reflexivity|].
  simpl. rewrite length_insert. split; [|auto].
  apply list_lookup_insert_eq. eapply lookup_lt_Some; eauto.
Qed.

End CrashFacts.

(** ** Numbers, errors and order in the pool *)

Module PoolFacts.
Import Upload UploadFacts Ledger LedgerFacts Watch.

(** *** The numbers handed out by the counter *)

Lemma step_task_number w cfg k i t g t' g' :
  step_task w cfg k i t g = (t', g') ->
  in_revision cfg t ->
  (counted cfg t' = counted cfg t /\ count g' = count g /\
   (counted cfg t = true -> c t' = c t))
  \/
  (counted cfg t = false /\ counted cfg t' = true /\
   c t' = count g + 1 /\ count g' = count g + 1).
Proof.
  intros Hstep Hin.
  unfold counted, uploaded, in_revision in *.
  destruct (rev cfg) eqn:Hrev, (verbose cfg) eqn:Hv;
    task_cases Hstep; simpl in *; at_known; try rewrite Hrev; simpl;
    try (destruct (Hin eq_refl); congruence);
    try match goal with |- context [match ?r with Uploaded => _ | _ => _ end] => destruct r end;
    simpl in *;
    try (left; repeat split; (reflexivity || discriminate));
    try (right; repeat split; reflexivity).
Qed.

Lemma numbering_step w cfg files s e s' :
  structure cfg files s -> numbering cfg s ->
  apply_event w cfg e s = Some s' -> numbering cfg s'.
Proof.
  intros (_ & Hrev & _) [Hnn Hp] H. step_cases H; unfold numbering; simpl.
  - split; [exact Hnn|].
    pose proof (select_insert (counted cfg) c _ _ _ (goto t AtSelect) Hl) as Hs.
    rewrite (counted_queued _ _ Hat), counted_select in Hs. simpl in Hs.
    now rewrite Hs.
  - pose proof (select_insert (counted cfg) c _ _ _ t' Hl) as Hs.
    pose proof (Forall_lookup_1 _ _ _ _ Hrev Hl) as Hin.
    destruct (step_task_number _ _ _ _ _ _ _ _ Hstep Hin)
      as [(E1 & E2 & E3)|(E1 & E2 & E3 & E4)].
    + rewrite E2. split; [exact Hnn|]. rewrite E1 in Hs.
      destruct (counted cfg t) eqn:Hc.
      * rewrite E3 in Hs by reflexivity.
        apply Permutation_app_inv_l in Hs. now rewrite Hs.
      * simpl in Hs. now rewrite Hs.
    + rewrite E4. split; [lia|]. rewrite E1, E2, E3 in Hs. simpl in Hs.
      rewrite Hs, Hp.
      rewrite seqZ_app by lia.
      assert (E : seqZ (1 + count (sh s)) 1 = [count (sh s) + 1])
        by (unfold seqZ; simpl; f_equal; lia).
      rewrite E. apply Permutation_cons_append.
  - auto.
Qed.

Lemma numbering_init cfg files : numbering cfg (init files).
Proof.
  split; [simpl; lia|]. simpl.
  induction files as [|f files IH]; [reflexivity|]. simpl.
  rewrite (counted_queued cfg (new_task f)) by reflexivity. exact IH.
Qed.

Lemma reachable_numbering w cfg files s :
  reachable w cfg files s -> numbering cfg s.
Proof.
  intros Hs. cut (structure cfg files s /\ numbering cfg s); [tauto|].
  revert s Hs. apply reachable_ind.
  - split; [apply structure_init|apply numbering_init].
  - intros s e s' [H1 H2] He. split.
    + eapply structure_step; eauto.
    + eapply numbering_step; eauto.
Qed.

(** *** The error of the group *)

Lemma step_task_err w cfg k i t g t' g' :
  step_task w cfg k i t g = (t', g') ->
  (err g' = err g) \/
  (err g = None /\ exists x, err g' = Some x /\ at_ t' = Done (Failed x)).
Proof.
  intros Hstep. task_cases Hstep; simpl; auto.
  all: try (destruct (verbose cfg); simpl; auto; fail).
  all: try (match goal with |- context [gcDue ?a ?b] => destruct (gcDue a b) end; auto; fail).
  right. split; [reflexivity|]. eexists. split; reflexivity.
Qed.

Lemma blaming_step w cfg s e s' :
  blaming s -> apply_event w cfg e s = Some s' -> blaming s'.
Proof.
  intros Hb H. step_cases H; unfold blaming; simpl.
  - intros x Hx. destruct (Hb x Hx) as (j & tj & Hj & Hd).
    exists j, tj. split; [|exact Hd].
    rewrite list_lookup_insert_ne; [exact Hj|].
    intros <-. rewrite Hl in Hj. injection Hj as <-. congruence.
  - intros x Hx.
    destruct (step_task_err _ _ _ _ _ _ _ _ Hstep) as [E|(E & y & Ey & Hy)].
    + rewrite E in Hx. destruct (Hb x Hx) as (j & tj & Hj & Hd).
      exists j, tj. split; [|exact Hd].
      rewrite list_lookup_insert_ne; [exact Hj|].
      intros <-. rewrite Hl in Hj. injection Hj as <-.
      unfold runnable in Hr. rewrite Hd in Hr. discriminate.
    + rewrite Ey in Hx. injection Hx as <-.
      exists i, t'. split; [|exact Hy].
      apply list_lookup_insert_eq. eapply lookup_lt_Some; eauto.
  - exact Hb.
Qed.

Lemma reachable_blaming w cfg files s : reachable w cfg files s -> blaming s.
Proof.
  apply reachable_ind; [intros x Hx; discriminate|].
  intros; eapply blaming_step; eauto.
Qed.

(** Once set, the error stays. *)
Lemma err_kept w cfg e s s' x :
  apply_event w cfg e s = Some s' -> err (sh s) = Some x -> err (sh s') = Some x.
Proof.
  intros H Hx. step_cases H; simpl; auto.
  destruct (step_task_err _ _ _ _ _ _ _ _ Hstep) as [E|(E & _)]; congruence.
Qed.

Lemma err_kept_run w cfg es s s' x :
  run_events w cfg es s = Some s' -> err (sh s) = Some x -> err (sh s') = Some x.
Proof.
  revert s. induction es as [|e es IH]; intros s H Hx; simpl in H.
  - now injection H as <-.
  - destruct (apply_event w cfg e s) as [s1|] eqn:H1; [|discriminate].
    eapply IH; eauto. eapply err_kept; eauto.
Qed.

(** *** The order of submission *)

Lemma next_queued_first ts i :
  next_queued ts = Some i ->
  forall j t, (j < i)%nat -> ts !! j = Some t -> is_queued t = false.
Proof.
  revert i. induction ts as [|a ts IH]; intros i H j t Hj Ht; simpl in H;
    [discriminate|].
  destruct (is_queued a) eqn:Ha; [injection H as <-; lia|].
  destruct (next_queued ts) as [k|] eqn:Hk; [|discriminate].
  injection H as <-. destruct j as [|j]; simpl in Ht.
  - now injection Ht as <-.
  - eapply IH; eauto. lia.
Qed.

Lemma step_task_queued w cfg k i t g t' g' :
  step_task w cfg k i t g = (t', g') -> runnable t = true ->
  is_queued t' = false.
Proof.
  intros Hstep Hr. unfold runnable, is_queued in *.
  task_cases Hstep; simpl in *; at_known; try discriminate; try reflexivity;
    try match goal with
      | |- context [after_close ?r] => destruct r
      end; reflexivity.
Qed.

Lemma in_order_step w cfg s e s' :
  in_order s -> apply_event w cfg e s = Some s' -> in_order s'.
Proof.
  intros Ho H. step_cases H; unfold in_order; simpl.
  - intros a b ta tb Hab Ha Hb Hqa.
    destruct (decide (a = i)) as [->|Hai].
    { rewrite list_lookup_insert_eq in Ha by (eapply lookup_lt_Some; eauto).
      injection Ha as <-. discriminate. }
    rewrite list_lookup_insert_ne in Ha by congruence.
    destruct (decide (b = i)) as [->|Hbi].
    { pose proof (next_queued_first _ _ Hq a ta Hab Ha). congruence. }
    rewrite list_lookup_insert_ne in Hb by congruence. eauto.
  - intros a b ta tb Hab Ha Hb Hqa.
    pose proof (step_task_queued _ _ _ _ _ _ _ _ Hstep Hr) as Hq'.
    assert (Hqt : is_queued t = false).
    { unfold runnable, is_queued in *. destruct (at_ t); congruence. }
    destruct (decide (a = i)) as [->|Hai].
    { rewrite list_lookup_insert_eq in Ha by (eapply lookup_lt_Some; eauto).
      injection Ha as <-. congruence. }
    rewrite list_lookup_insert_ne in Ha by congruence.
    destruct (decide (b = i)) as [->|Hbi].
    { pose proof (Ho _ _ _ _ Hab Ha Hl Hqa). congruence. }
    rewrite list_lookup_insert_ne in Hb by congruence. eauto.
  - exact Ho.
Qed.

Lemma in_order_init files : in_order (init files).
Proof.
  intros i j ti tj _ _ Hj _. simpl in Hj.
  rewrite list_lookup_fmap in Hj.
  destruct (files !! j); [|discriminate]. now injection Hj as <-.
Qed.

Lemma reachable_in_order w cfg files s : reachable w cfg files s -> in_order s.
Proof.
  apply reachable_ind; [apply in_order_init|].
  intros; eapply in_order_step; eauto.
Qed.

(** *** A limit of zero *)

Lemma idle_start w cfg files e s' :
  n cfg = 0 -> apply_event w cfg e (init files) = Some s' -> s' = init files.
Proof.
  intros Hn H.
  assert (Hrun : running (tasks (init files)) = O).
  { unfold running. apply tally_none. simpl. clear H.
    induction files as [|f files IH]; simpl; constructor; auto. }
  step_cases H.
  - unfold admits in Hadm. rewrite Hn, Hrun in Hadm. discriminate.
  - simpl in Hl. rewrite list_lookup_fmap in Hl.
    destruct (files !! i); [|discriminate]. injection Hl as <-. discriminate.
  - reflexivity.
Qed.

Lemma reachable_idle w cfg files s :
  n cfg = 0 -> reachable w cfg files s -> s = init files.
Proof.
  intros Hn. apply (reachable_ind w cfg files (fun s => s = init files));
    [reflexivity|].
  intros s0 e s' -> H. eapply idle_start; eauto.
Qed.

End PoolFacts.

(** ** [run] of Part001, step by step *)

Module ListFileRunFacts.
Import Upload bufio Run ListFileFacts.

Lemma disk_called s k : disk (called s k) = disk s.
Proof. reflexivity. Qed.

Lemma disk_defer_Remove_if s lf : disk (defer_Remove_if s lf) = disk s.
Proof. unfold defer_Remove_if. now destruct (String.eqb lf ""). Qed.

Lemma temps_defer_Remove_if s lf : temps (defer_Remove_if s lf) = temps s.
Proof. unfold defer_Remove_if. now destruct (String.eqb lf ""). Qed.

(** [openFile] on a name other than [-] reads the file of that name. *)
Lemma openFile_named w name s :
  name <> "-"%string ->
  openFile w name s = (called s (OpenFile name), disk s !! name).
Proof.
  intros Hn. unfold openFile.
  destruct (String.eqb_spec name "-"); [contradiction|reflexivity].
Qed.

(** What [writeListFile] leaves behind when it returns no error. *)
Lemma writeListFile_ok w dir s s' lf :
  writeListFile w dir s = (s', (lf, None)) ->
  lf = TempName w (temps s) /\
  snd (WalkDir w dir) = false /\
  disk s' !! lf = Some (lines (fst (WalkDir w dir))) /\
  temps s' = S (temps s).
Proof.
  unfold writeListFile.
  destruct (CreateTemp_ok w (temps s)); simpl; [|discriminate].
  destruct (WalkDir w dir) as [paths failed]. simpl.
  destruct paths as [|p0 paths].
  - destruct failed; [discriminate|].
    destruct (Close_ok w (TempName w (temps s))); simpl; [|discriminate].
    intros [= <- <-]. simpl. rewrite lookup_insert_eq. auto.
  - destruct (WriteString_ok w (TempName w (temps s))); simpl; [|discriminate].
    destruct failed; [discriminate|].
    destruct (Close_ok w (TempName w (temps s))); simpl; [|discriminate].
    intros [= <- <-]. simpl. rewrite lookup_insert_eq. auto.
Qed.

(** The name [shuffleListFile] returns is the name of a temp file. *)
Lemma shuffleListFile_name w listFile s s' name :
  shuffleListFile w listFile s = (s', (name, None)) ->
  exists k, name = TempName w k.
Proof.
  unfold shuffleListFile.
  destruct (openFile w listFile s) as [s1 [content|]]; [|discriminate].
  destruct (bufio.ScanLines content) as [files tooLong].
  destruct tooLong; [discriminate|].
  destruct (rand.Shuffle (draw w) files) as [files'|]; [|discriminate].
  destruct (CreateTemp_ok w (temps s1)); simpl; [|discriminate].
  destruct files' as [|f0 fs].
  - destruct (Close_ok w (TempName w (temps s1))); simpl; [|discriminate].
    intros [= <- <-]. eauto.
  - destruct (WriteString_ok w (TempName w (temps s1))); simpl; [|discriminate].
    destruct (Close_ok w (TempName w (temps s1))); simpl; [|discriminate].
    intros [= <- <-]. eauto.
Qed.

(** [run] of Part001, step by step, when it gets to the uploads. *)
Lemma run_Part001_steps w fl s s' p :
  run_Part001 w fl s = (s', inr p) ->
  exists arg0 s1 name1 s2 name2 s3 content,
    args fl = [arg0] /\
    (if String.eqb (flag_d fl) ""
     then s1 = called s (ParseURI arg0) /\ name1 = flag_l fl
     else exists s1', writeListFile w (flag_d fl) (called s (ParseURI arg0))
                        = (s1', (name1, None)) /\
                      s1 = defer_Remove_if s1' name1) /\
    (if flag_shuffle fl
     then exists s2', shuffleListFile w name1 s1 = (s2', (name2, None)) /\
                      s2 = defer_Remove_if s2' name2
     else s2 = s1 /\ name2 = name1) /\
    openFile w name2 s2 = (s3, Some content) /\
    s' = called s3 NewClient /\
    work p = fst (ScanLines content) /\
    scanErr p = snd (ScanLines content).
Proof.
  unfold run_Part001.
  destruct (args fl) as [|arg0 [|? ?]]; try discriminate.
  destruct (String.eqb (flag_l fl) "" && String.eqb (flag_d fl) "");
    [discriminate|].
  destruct (negb (String.eqb (flag_l fl) "") && negb (String.eqb (flag_d fl) ""));
    [discriminate|].
  destruct (ParseRequestURI w arg0) as [dst|]; [|discriminate].
  destruct (negb (String.eqb (Scheme dst) "gs")); [discriminate|].
  destruct (String.eqb (flag_d fl) "") eqn:Hd; simpl.
  - destruct (flag_shuffle fl) eqn:Hsh.
    + destruct (shuffleListFile w (flag_l fl) (called s (ParseURI arg0)))
        as [s2' [name2 [e|]]] eqn:Hshuf; [discriminate|].
      destruct (openFile w name2 (defer_Remove_if s2' name2))
        as [s3 [content|]] eqn:Hopen; [|discriminate].
      destruct (NewClient_ok w); simpl; [|discriminate].
      destruct (ScanLines content) as [toks tooLong] eqn:Hscan.
      intros [= <- <-].
      exists arg0, (called s (ParseURI arg0)), (flag_l fl),
        (defer_Remove_if s2' name2), name2, s3, content.
      rewrite Hscan. simpl. repeat split; eauto.
    + destruct (openFile w (flag_l fl) (called s (ParseURI arg0)))
        as [s3 [content|]] eqn:Hopen; [|discriminate].
      destruct (NewClient_ok w); simpl; [|discriminate].
      destruct (ScanLines content) as [toks tooLong] eqn:Hscan.
      intros [= <- <-].
      exists arg0, (called s (ParseURI arg0)), (flag_l fl),
        (called s (ParseURI arg0)), (flag_l fl), s3, content.
      rewrite Hscan. simpl. repeat split; eauto.
  - destruct (writeListFile w (flag_d fl) (called s (ParseURI arg0)))
      as [s1' [name1 [e|]]] eqn:Hwrite; [discriminate|].
    destruct (flag_shuffle fl) eqn:Hsh.
    + destruct (shuffleListFile w name1 (defer_Remove_if s1' name1))
        as [s2' [name2 [e|]]] eqn:Hshuf; [discriminate|].
      destruct (openFile w name2 (defer_Remove_if s2' name2))
        as [s3 [content|]] eqn:Hopen; [|discriminate].
      destruct (NewClient_ok w); simpl; [|discriminate].
      destruct (ScanLines content) as [toks tooLong] eqn:Hscan.
      intros [= <- <-].
      exists arg0, (defer_Remove_if s1' name1), name1,
        (defer_Remove_if s2' name2), name2, s3, content.
      rewrite Hscan. simpl. repeat split; eauto.
    + destruct (openFile w name1 (defer_Remove_if s1' name1))
        as [s3 [content|]] eqn:Hopen; [|discriminate].
      destruct (NewClient_ok w); simpl; [|discriminate].
      destruct (ScanLines content) as [toks tooLong] eqn:Hscan.
      intros [= <- <-].
      exists arg0, (defer_Remove_if s1' name1), name1,
        (defer_Remove_if s1' name1), name1, s3, content.
      rewrite Hscan. simpl. repeat split; eauto.
Qed.

Lemma line_safe_Permutation (l l' : list string) :
  l ≡ₚ l' -> Forall line_safe l -> Forall line_safe l'.
Proof. intros Hp Hl. now rewrite <- Hp. Qed.

End ListFileRunFacts.

Module TempFileFacts.
Import Upload bufio Run ListFileFacts ListFileRunFacts TempFiles.

(** The temp file of [writeListFile]: none when [os.CreateTemp] fails,
    otherwise created and named in the result, error or not. *)
Lemma writeListFile_temp w dir s s' lf e :
  writeListFile w dir s = (s', (lf, e)) ->
  removals s' = removals s /\
  ((lf = ""%string /\ temps s' = temps s /\ e <> None) \/
   (lf = TempName w (temps s) /\ temps s' = S (temps s) /\
    is_Some (disk s' !! lf))).
Proof.
  unfold writeListFile.
  destruct (CreateTemp_ok w (temps s)); simpl.
  2: { intros [= <- <- <-]. split; [reflexivity|]. left. auto. }
  destruct (WalkDir w dir) as [paths failed].
  destruct paths as [|p0 paths].
  - destruct failed; [|destruct (Close_ok w (TempName w (temps s)))]; simpl;
      intros [= <- <- <-]; (split; [reflexivity|]); right; simpl;
      rewrite lookup_insert_eq; eauto.
  - destruct (WriteString_ok w (TempName w (temps s))); simpl;
      [destruct failed; [|destruct (Close_ok w (TempName w (temps s)))]|]; simpl;
      intros [= <- <- <-]; (split; [reflexivity|]); right; simpl;
      rewrite lookup_insert_eq; eauto.
Qed.

(** The temp file of [shuffleListFile]: it is named in the result only
    when there is no error. *)
Lemma shuffleListFile_temp w listFile s s' name e :
  shuffleListFile w listFile s = (s', (name, e)) ->
  removals s' = removals s /\
  ((name = ""%string /\ temps s' = temps s /\ e <> None /\
    e <> Some WritePath /\ e <> Some CloseListFile) \/
   (name = ""%string /\ temps s' = S (temps s) /\
    (e = Some WritePath \/ e = Some CloseListFile) /\
    is_Some (disk s' !! TempName w (temps s))) \/
   (name = TempName w (temps s) /\ temps s' = S (temps s) /\ e = None)).
Proof.
  unfold shuffleListFile.
  destruct (openFile w listFile s) as [s1 c] eqn:Ho.
  assert (Hr : removals s1 = removals s /\ temps s1 = temps s).
  { unfold openFile in Ho. destruct (String.eqb listFile "-");
      injection Ho as <- _; auto. }
  destruct Hr as [Hr Ht]. clear Ho.
  destruct c as [content|];
    [|intros [= <- <- <-]; split; [exact Hr|]; left; repeat split; auto; discriminate].
  all: destruct (bufio.ScanLines content) as [files tooLong];
    destruct tooLong;
    [intros [= <- <- <-]; split; [exact Hr|]; left; repeat split; auto; discriminate|].
  all: destruct (rand.Shuffle (draw w) files) as [files'|];
    [|intros [= <- <- <-]; split; [exact Hr|]; left; repeat split; auto; discriminate].
  all: rewrite Ht; destruct (CreateTemp_ok w (temps s)); simpl;
    [|intros [= <- <- <-]; split; [exact Hr|]; left; repeat split; auto; discriminate].
  all: destruct files' as [|f0 fs];
    [destruct (Close_ok w (TempName w (temps s)))
    |destruct (WriteString_ok w (TempName w (temps s)));
     [destruct (Close_ok w (TempName w (temps s)))|]]; simpl;
    intros [= <- <- <-]; (split; [exact Hr|]); simpl; rewrite ?Ht;
    try (right; right; repeat split; reflexivity);
    right; left; repeat split; auto; rewrite lookup_insert_eq; eauto.
Qed.

Lemma accounted_refl w s : accounted w s s.
Proof. split; [lia|]. split; [lia|]. intros k Hk. lia. Qed.

Lemma accounted_called w s s1 k : accounted w s s1 -> accounted w s (called s1 k).
Proof. exact id. Qed.

Lemma accounted_openFile w s s1 name s3 c :
  accounted w s s1 -> openFile w name s1 = (s3, c) -> accounted w s s3.
Proof.
  intros Ha. unfold openFile.
  destruct (String.eqb name "-"); intros [= <- _]; exact Ha.
Qed.

Lemma accounted_grow w s s1 s2 :
  (forall k, TempName w k <> ""%string) ->
  accounted w s s1 ->
  removals s2 = removals s1 -> temps s2 = S (temps s1) ->
  accounted w s (defer_Remove_if s2 (TempName w (temps s1))).
Proof.
  intros Hname (H1 & H2 & H3) Hr Ht. unfold defer_Remove_if.
  destruct (String.eqb_spec (TempName w (temps s1)) "") as [E|_];
    [now destruct (Hname (temps s1))|].
  unfold accounted. simpl. rewrite Hr, Ht.
  split; [lia|]. split; [lia|]. intros k Hk.
  destruct (decide (k = temps s1)) as [->|Hne]; [now left|].
  right. apply H3. lia.
Qed.

Lemma accounted_same w s s1 s2 :
  accounted w s s1 ->
  removals s2 = removals s1 -> temps s2 = temps s1 ->
  accounted w s (defer_Remove_if s2 "").
Proof.
  intros (H1 & H2 & H3) Hr Ht. unfold accounted, defer_Remove_if. simpl.
  rewrite Hr, Ht. auto.
Qed.

Lemma accounted_writeListFile w s s1 dir s1' lf e :
  (forall k, TempName w k <> ""%string) ->
  accounted w s s1 ->
  writeListFile w dir s1 = (s1', (lf, e)) ->
  accounted w s (defer_Remove_if s1' lf).
Proof.
  intros Hname Ha Hw.
  destruct (writeListFile_temp _ _ _ _ _ _ Hw) as [Hr [(-> & Ht & _)|(-> & Ht & _)]].
  - now apply (accounted_same w s s1).
  - now apply accounted_grow.
Qed.

End TempFileFacts.

(** ** The scanner on other line endings and on long lines *)

Module ScannerFacts.
Import bufio Run ListFileFacts.

Lemma no_newline_app (a b : string) :
  no_newline (a +:+ b) = no_newline a && no_newline b.
Proof.
  induction a as [|c a IH]; [reflexivity|].
  change (String c a +:+ b) with (String c (a +:+ b)). simpl.
  rewrite IH. now rewrite andb_assoc.
Qed.

Lemma MaxScanTokenSize_pos : (String.length "" < MaxScanTokenSize)%nat.
Proof. unfold MaxScanTokenSize. apply Nat.mul_pos_pos; apply Nat.lt_0_succ. Qed.

(** [dropCR] takes the carriage return off the end. *)
Lemma dropCR_CR (q : string) : dropCR (q +:+ String "013" "") = q.
Proof.
  induction q as [|c q IH]; [reflexivity|].
  change (String c q +:+ String "013" "") with (String c (q +:+ String "013" "")).
  cbn [dropCR]. rewrite IH.
  destruct q; reflexivity.
Qed.

(** The last line of the input, when no newline follows it. *)
Lemma ScanLines_from_last (p line : string) :
  no_newline p = true ->
  (String.length (line +:+ p) < MaxScanTokenSize)%nat ->
  ScanLines_from line p
  = (if String.eqb (line +:+ p) "" then [] else [dropCR (line +:+ p)], false).
Proof.
  revert line. induction p as [|c p IH]; intros line Hnl Hlen.
  - rewrite append_nil_r. reflexivity.
  - cbn [ScanLines_from]. simpl in Hnl.
    apply andb_true_iff in Hnl as [Hc Hp].
    apply negb_true_iff in Hc. rewrite Hc.
    rewrite length_append in Hlen. simpl in Hlen.
    destruct (Nat.leb_spec MaxScanTokenSize (String.length line + 1)) as [Hbig|_];
      [lia|].
    rewrite IH; [|exact Hp|].
    + rewrite append_assoc. reflexivity.
    + rewrite append_assoc.
      change (String c "" +:+ p) with (String c p).
      rewrite length_append. simpl. lia.
Qed.

(** A line that fills the buffer before its newline stops the
    scanner. *)
Lemma ScanLines_from_overlong (long line rest : string) :
  no_newline long = true ->
  (String.length line < MaxScanTokenSize)%nat ->
  (MaxScanTokenSize <= String.length line + String.length long)%nat ->
  ScanLines_from line (long +:+ rest) = ([], true).
Proof.
  revert line. induction long as [|c long IH]; intros line Hnl Hlt Hge.
  - simpl in Hge. lia.
  - change (String c long +:+ rest) with (String c (long +:+ rest)).
    cbn [ScanLines_from]. simpl in Hnl.
    apply andb_true_iff in Hnl as [Hc Hp].
    apply negb_true_iff in Hc. rewrite Hc.
    destruct (Nat.leb_spec MaxScanTokenSize (String.length line + 1)) as [Hbig|Hsmall];
      [reflexivity|].
    apply IH; [exact Hp| |]; rewrite length_append; simpl in *; lia.
Qed.

(** Lines written one after the other, then anything. *)
Lemma ScanLines_lines_then (paths : list string) (rest : string) :
  Forall (fun q => no_newline q = true /\
                   (String.length q < MaxScanTokenSize)%nat) paths ->
  ScanLines (lines paths +:+ rest)
  = (map dropCR paths ++ fst (ScanLines rest), snd (ScanLines rest)).
Proof.
  induction 1 as [|p paths [Hnl Hlen] _ IH].
  - simpl. change ("" +:+ rest) with rest. now destruct (ScanLines rest).
  - cbn [lines]. rewrite append_assoc.
    change (String "010" (lines paths) +:+ rest)
      with (String "010" (lines paths +:+ rest)).
    unfold ScanLines at 1.
    rewrite ScanLines_from_line; [|exact Hnl|exact Hlen].
    rewrite IH. reflexivity.
Qed.

(** [dropCR] makes a line no longer and brings no newline in. *)
Lemma dropCR_length (q : string) :
  (String.length (dropCR q) <= String.length q)%nat.
Proof.
  induction q as [|c q IH]; [reflexivity|].
  destruct q as [|c' q].
  - simpl. destruct (Ascii.eqb c "013"); simpl; lia.
  - change (dropCR (String c (String c' q)))
      with (String c (dropCR (String c' q))).
    simpl String.length in *. lia.
Qed.

Lemma dropCR_no_newline (q : string) :
  no_newline q = true -> no_newline (dropCR q) = true.
Proof.
  induction q as [|c q IH]; [reflexivity|].
  destruct q as [|c' q].
  - simpl. destruct (Ascii.eqb c "013"); auto.
  - change (dropCR (String c (String c' q)))
      with (String c (dropCR (String c' q))).
    intros H. change (negb (Ascii.eqb c "010") && no_newline (String c' q) = true) in H.
    apply andb_true_iff in H as [H1 H2].
    change (negb (Ascii.eqb c "010") && no_newline (dropCR (String c' q)) = true).
    rewrite H1. simpl. auto.
Qed.

(** The tokens the scanner delivers can be written to a list file and
    read back: they hold no newline and are shorter than the buffer. *)
Lemma ScanLines_from_tokens (data line : string) toks tooLong :
  ScanLines_from line data = (toks, tooLong) ->
  no_newline line = true ->
  (String.length line < MaxScanTokenSize)%nat ->
  Forall (fun q => no_newline q = true /\
                   (String.length q < MaxScanTokenSize)%nat) toks.
Proof.
  revert line toks tooLong.
  induction data as [|c r IH]; intros line toks tooLong H Hnl Hlen.
  - cbn [ScanLines_from] in H. injection H as <- _.
    destruct (String.eqb line ""); constructor; [|constructor].
    split; [now apply dropCR_no_newline|].
    pose proof (dropCR_length line). lia.
  - cbn [ScanLines_from] in H.
    destruct (Ascii.eqb c "010") eqn:Hc.
    + destruct (ScanLines_from "" r) as [toks' b'] eqn:Hr.
      injection H as <- _. constructor.
      * split; [now apply dropCR_no_newline|].
        pose proof (dropCR_length line). lia.
      * eapply IH; [exact Hr|reflexivity|apply MaxScanTokenSize_pos].
    + destruct (Nat.leb_spec MaxScanTokenSize (String.length line + 1)) as [Hbig|Hsmall].
      * injection H as <- _. constructor.
      * eapply IH; [exact H| |].
        -- rewrite no_newline_app, Hnl. simpl. now rewrite Hc.
        -- rewrite length_append. simpl. lia.
Qed.

Lemma ScanLines_tokens (data : string) toks tooLong :
  ScanLines data = (toks, tooLong) ->
  Forall (fun q => no_newline q = true /\
                   (String.length q < MaxScanTokenSize)%nat) toks.
Proof.
  intros H. eapply ScanLines_from_tokens;
    [exact H|reflexivity|apply MaxScanTokenSize_pos].
Qed.

(** Lines that can be read back come back less one carriage return at
    their end. *)
Lemma ScanLines_rescan (files : list string) :
  Forall (fun q => no_newline q = true /\
                   (String.length q < MaxScanTokenSize)%nat) files ->
  ScanLines (lines files) = (map dropCR files, false).
Proof.
  intros H. rewrite <- (append_nil_r (lines files)).
  rewrite (ScanLines_lines_then _ "" H). simpl. now rewrite app_nil_r.
Qed.


(** A blank line after complete lines is the empty token. *)
Lemma ScanLines_blank_after (paths : list string) (rest : string) :
  Forall (fun q => no_newline q = true /\
                   (String.length q < MaxScanTokenSize)%nat) paths ->
  fst (ScanLines (lines paths +:+ String "010" rest))
  = map dropCR paths ++ EmptyString :: fst (ScanLines rest).
Proof.
  intros H. rewrite (ScanLines_lines_then _ _ H), ScanLines_blank. reflexivity.
Qed.

End ScannerFacts.

(** ** [run] of Part001 with and without [-shuffle] *)

Module ShuffleRunFacts.
Import Upload bufio Run ListFileFacts ListFileRunFacts ScannerFacts.

Lemma openFile_content w name s k :
  snd (openFile w name (called s k)) = snd (openFile w name s).
Proof. unfold openFile. now destruct (String.eqb name "-"). Qed.

(** [run] gets to the uploads only with a storage client. *)
Lemma run_Part001_client w fl s s' p :
  run_Part001 w fl s = (s', inr p) -> NewClient_ok w = true.
Proof.
  unfold run_Part001. destruct (NewClient_ok w); [reflexivity|]. simpl.
  destruct (args fl) as [|arg0 [|? ?]]; try discriminate.
  repeat match goal with
    | |- context [let '(_, _) := ?x in _] => destruct x as [? ?] eqn:?
    | |- context [match ?x with _ => _ end] =>
        lazymatch x with
        | context [match _ with _ => _ end] => fail
        | _ => destruct x eqn:?
        end
    end; discriminate.
Qed.

(** [run] without [-shuffle], from its parts. *)
Lemma run_Part001_plain w fl s arg0 dst s1 name1 s3 content :
  args fl = [arg0] ->
  ParseRequestURI w arg0 = Some dst -> Scheme dst = "gs"%string ->
  ((flag_l fl = ""%string /\ flag_d fl <> ""%string) \/
   (flag_l fl <> ""%string /\ flag_d fl = ""%string)) ->
  flag_shuffle fl = false ->
  (if String.eqb (flag_d fl) ""
   then s1 = called s (ParseURI arg0) /\ name1 = flag_l fl
   else exists s1', writeListFile w (flag_d fl) (called s (ParseURI arg0))
                      = (s1', (name1, None)) /\
                    s1 = defer_Remove_if s1' name1) ->
  openFile w name1 s1 = (s3, Some content) ->
  NewClient_ok w = true ->
  run_Part001 w fl s
  = (called s3 NewClient,
     inr {| cfg := {| rev := Part001; n := flag_n fl; verbose := flag_v fl;
                      gcInterval := flag_gc fl; bufSize := flag_buf fl;
                      src := flag_d fl; dest := dst; host := the_host w |};
            work := fst (ScanLines content);
            scanErr := snd (ScanLines content) |}).
Proof.
  intros Ha Hp Hs Hone Hsh H1 Ho Hnc.
  unfold run_Part001. rewrite Ha, Hp, Hs, Hsh. simpl.
  destruct (String.eqb_spec (flag_l fl) "") as [El|El];
    destruct (String.eqb_spec (flag_d fl) "") as [Ed|Ed]; simpl;
    try (exfalso; destruct Hone as [[? ?]|[? ?]]; congruence).
  - destruct H1 as (s1' & Hw & ->). rewrite Hw, Ho, Hnc. simpl.
    now destruct (ScanLines content).
  - destruct H1 as [-> ->]. rewrite Ho, Hnc. simpl.
    now destruct (ScanLines content).
Qed.

(** The work list with [-shuffle] is a permutation of the work list
    without it, each line less one more carriage return at its end:
    the lines go through the scanner a second time. *)
Lemma shuffled_work w fl s s' p :
  flag_shuffle fl = true ->
  (forall k, TempName w k <> "-"%string) ->
  run_Part001 w fl s = (s', inr p) ->
  exists s0 p0,
    run_Part001 w (without_shuffle fl) s = (s0, inr p0) /\
    scanErr p0 = false /\
    work p ≡ₚ map dropCR (work p0) /\
    scanErr p = false.
Proof.
  intros Hsh Htemp Hrun.
  pose proof (run_Part001_client _ _ _ _ _ Hrun) as Hnc.
  destruct (RunFacts.run_Part001_plan _ _ _ _ _ Hrun)
    as (arg0' & dst & _ & Ha' & Hp & Hs & _ & _ & _ & Hone).
  destruct (run_Part001_steps _ _ _ _ _ Hrun)
    as (arg0 & s1 & name1 & s2 & name2 & s3 & content
        & Ha & H1 & H2 & Hopen & _ & Hwork & Herr).
  rewrite Ha in Ha'. injection Ha' as <-.
  rewrite Hsh in H2. destruct H2 as (s2' & Hshuf & ->).
  destruct (shuffleListFile_name _ _ _ _ _ Hshuf) as [k Hk].
  destruct (shuffleListFile_ok _ _ _ _ _ Hshuf)
    as (content1 & files & files' & Ho1 & Hs1 & _ & Hperm & Hdisk2).
  rewrite openFile_named in Hopen by (rewrite Hk; apply Htemp).
  injection Hopen as _ Hc. rewrite disk_defer_Remove_if, Hdisk2 in Hc.
  injection Hc as <-.
  pose proof (ScanLines_tokens _ _ _ Hs1) as Htok.
  assert (Htok' : Forall (fun q => no_newline q = true /\
                     (String.length q < MaxScanTokenSize)%nat) files')
    by (now rewrite <- Hperm).
  rewrite (ScanLines_rescan _ Htok') in Hwork, Herr. simpl in Hwork, Herr.
  destruct (openFile w name1 s1) as [s1a c1] eqn:Ho. simpl in Ho1. subst c1.
  eexists _, _. split.
  - apply (run_Part001_plain w (without_shuffle fl) s arg0 dst s1 name1 s1a content1);
      auto.
  - simpl. rewrite Hs1. simpl. split; [reflexivity|]. split; [|exact Herr].
    rewrite Hwork. now rewrite Hperm.
Qed.

End ShuffleRunFacts.

(** ** The width of a printed number *)

Module WidthFacts.
Import GoStrconv StrconvFacts ListFileFacts BytesValueString.

Lemma length_string_of_uint (d : Decimal.uint) :
  String.length (NilEmpty.string_of_uint d) = Decimal.nb_digits d.
Proof. induction d; simpl; auto. Qed.

(** A run of [k] digits stands for a number below [10^k]. *)
Lemma of_uint_upper (d : Decimal.uint) :
  Z.of_N (Pos.of_uint d) < 10 ^ Z.of_nat (Decimal.nb_digits d).
Proof.
  induction d; cbn [Pos.of_uint Decimal.nb_digits];
    rewrite ?Nat2Z.inj_succ, ?Z.pow_succ_r by lia;
    cbn [Z.of_N]; rewrite ?of_uint_acc_value;
    try (pose proof (pow10_pos (Decimal.nb_digits d)); lia).
  simpl. lia.
Qed.

Lemma of_uint_lower (d : Decimal.uint) :
  leading d = true ->
  10 ^ Z.of_nat (Decimal.nb_digits d - 1) <= Z.of_N (Pos.of_uint d).
Proof.
  destruct d; try discriminate; intros _;
    cbn [Pos.of_uint Decimal.nb_digits Z.of_N];
    rewrite of_uint_acc_value; rewrite Nat.sub_succ, Nat.sub_0_r;
    pose proof (pow10_pos (Decimal.nb_digits d));
    pose proof (of_uint_nonneg d); nia.
Qed.

Lemma to_uint_leading (p : positive) : leading (Pos.to_uint p) = true.
Proof.
  pose proof (DecimalN.Unsigned.to_of (Pos.to_uint p)) as Hn.
  pose proof (DecimalN.Unsigned.of_to (N.pos p)) as Ho.
  cbn [N.to_uint] in Ho. rewrite Ho in Hn. cbn [N.to_uint] in Hn.
  pose proof (DecimalPos.Unsigned.to_uint_nonnil p) as Hnil.
  pose proof (DecimalPos.Unsigned.to_uint_nonzero p) as Hz.
  destruct (Pos.to_uint p) as [|u| | | | | | | | |] eqn:E; try reflexivity;
    [contradiction|].
  exfalso. rewrite DecimalFacts.unorm_D0 in Hn.
  destruct u as [|u'| | | | | | | | |] eqn:Eu; [contradiction|..].
  all: rewrite <- Eu in *.
  all: assert (Hlen : (Decimal.nb_digits (Decimal.unorm u)
                       <= Decimal.nb_digits u)%nat)
         by (apply DecimalFacts.nb_digits_unorm; rewrite Eu; discriminate).
  all: rewrite <- Hn in Hlen; simpl in Hlen; lia.
Qed.

(** The number of digits [Itoa] prints for a positive number. *)
Lemma Itoa_bounds (v : Z) :
  0 < v ->
  10 ^ Z.of_nat (String.length (Itoa v) - 1) <= v
  < 10 ^ Z.of_nat (String.length (Itoa v)).
Proof.
  intros Hv. destruct v as [|p|p]; try lia.
  unfold Itoa. cbn [Z.to_int NilZero.string_of_int].
  pose proof (DecimalPos.Unsigned.to_uint_nonnil p) as Hnil.
  pose proof (DecimalN.Unsigned.of_to (N.pos p)) as Ho.
  cbn [N.to_uint] in Ho. unfold N.of_uint in Ho.
  pose proof (of_uint_upper (Pos.to_uint p)) as Hup.
  pose proof (of_uint_lower _ (to_uint_leading p)) as Hlo.
  rewrite Ho in Hup, Hlo. cbn [Z.of_N] in Hup, Hlo.
  assert (E : NilZero.string_of_uint (Pos.to_uint p)
              = NilEmpty.string_of_uint (Pos.to_uint p)).
  { destruct (Pos.to_uint p); [contradiction|reflexivity..]. }
  rewrite E, length_string_of_uint. lia.
Qed.

(** A number has at most as many digits as a larger one. *)
Lemma Itoa_length_le (a b : Z) :
  0 < a <= b -> (String.length (Itoa a) <= String.length (Itoa b))%nat.
Proof.
  intros Hab.
  pose proof (Itoa_bounds a ltac:(lia)) as Ha.
  pose proof (Itoa_bounds b ltac:(lia)) as Hb.
  destruct (Nat.le_gt_cases (String.length (Itoa a)) (String.length (Itoa b)))
    as [H|H]; [exact H|exfalso].
  assert (10 ^ Z.of_nat (String.length (Itoa b))
          <= 10 ^ Z.of_nat (String.length (Itoa a) - 1))
    by (apply Z.pow_le_mono_r; lia).
  lia.
Qed.

Lemma Itoa_length_below (a : Z) (k : nat) :
  0 < a < 10 ^ Z.of_nat k -> (String.length (Itoa a) <= k)%nat.
Proof.
  intros Ha.
  pose proof (Itoa_bounds a ltac:(lia)) as Hb.
  destruct (Nat.le_gt_cases (String.length (Itoa a)) k) as [H|H];
    [exact H|exfalso].
  assert (10 ^ Z.of_nat k <= 10 ^ Z.of_nat (String.length (Itoa a) - 1))
    by (apply Z.pow_le_mono_r; lia).
  lia.
Qed.

Lemma length_spaces (k : nat) : String.length (fmt.spaces k) = k.
Proof. induction k; simpl; auto. Qed.

(** [%Nd] fills exactly [N] columns when the number has at most [N]
    digits. *)
Lemma length_pad_d (width : nat) (c : Z) :
  (String.length (Itoa c) <= width)%nat ->
  String.length (fmt.pad_d width c) = width.
Proof.
  intros H. unfold fmt.pad_d. rewrite length_append, length_spaces. lia.
Qed.

Lemma tally_le_length (f : Upload.task -> bool) (ts : list Upload.task) :
  (Upload.tally f ts <= length ts)%nat.
Proof. induction ts as [|t ts IH]; simpl; [lia|]. destruct (f t); simpl; lia. Qed.

End WidthFacts.

(** ** Facts about the scenario *)

Module CasesFacts.

Lemma TempName_not_dash (k : nat) :
  Run.TempName Scenario.surroundings k <> "-"%string.
Proof. cbv [Run.TempName Scenario.surroundings append]. discriminate. Qed.

Lemma TempName_not_empty (k : nat) :
  Run.TempName Scenario.surroundings k <> ""%string.
Proof. cbv [Run.TempName Scenario.surroundings append]. discriminate. Qed.

Lemma three_files_safe : Forall bufio.line_safe Scenario.three_files.
Proof.
  unfold Scenario.three_files.
  repeat (apply List.Forall_cons;
          [split; [reflexivity|split;
                   [apply Nat.ltb_lt; vm_compute; reflexivity|reflexivity]]|]).
  apply List.Forall_nil.
Qed.

End CasesFacts.

(** ** The clock and the verbose lines *)

Module TimingFacts.
Import Upload UploadFacts Watch.








End TimingFacts.

(* ================================================================== *)
(** * The claims *)

(** C1, as stated, fails on Part000: there [count.Add(1)] is an argument
    of the [log.Printf] under [if *verbose], so a complete run without
    [-v] and without any error leaves the counter at 0, whatever the
    number of files (one here). *)
Lemma C1_counterexample :
  let cfg := Scenario.settings_of Upload.Part000 false 0 in
  let s := Scenario.outcome Scenario.fair_weather cfg
             (Scenario.submit_and_run 0 12) ["a.txt"] in
  Upload.run_events Scenario.fair_weather cfg
    (Scenario.submit_and_run 0 12) (Upload.init ["a.txt"]) = Some s /\
  Upload.finished s = true /\
  Upload.err (Upload.sh s) = None /\
  Upload.count (Upload.sh s) = 0 /\
  Upload.count (Upload.sh s) <> Z.of_nat (length ["a.txt"]).
Proof. vm_compute. repeat split; congruence. Qed.

(** C1 (amended).  In every state of every run the counter is the number
    of tasks that have executed their [count.Add(1)], one each.  When
    every call succeeds the group has no error.  A run whose limit is
    not zero can always be taken to the point where [eg.Wait()] returns,
    provided that no goroutine can panic (the destination has a path, or
    the revision is Part000, and the buffer size is positive and at most
    the largest length [make] accepts) and that every buffer finds its
    memory.  From MainA on [count.Add(1)] follows the
    successful [w.Close()] whether or not [-v] is given, and when
    [eg.Wait()] returns without an error the counter is the number of
    files.  In Part000 the statement is part of the verbose log call:
    there the final counter is the number of files with [-v] and 0
    without. *)
Theorem C1_counter_counts_uploads
    (w : Upload.world) (cfg : Upload.settings) (files : list string)
    (s : Upload.state) :
  Upload.reachable w cfg files s ->
  Upload.count (Upload.sh s)
    = Z.of_nat (Upload.tally (Upload.counted cfg) (Upload.tasks s)) /\
  (Upload.calls_succeed w -> Upload.err (Upload.sh s) = None) /\
  (Upload.n cfg <> 0 -> Upload.panic_free cfg -> Upload.memory_suffices w ->
   exists es s', Upload.run_events w cfg es s = Some s' /\
                 Upload.finished s' = true) /\
  (Upload.finished s = true -> Upload.err (Upload.sh s) = None ->
   Upload.count (Upload.sh s) =
     match Upload.rev cfg with
     | Upload.Part000 =>
         if Upload.verbose cfg then Z.of_nat (length files) else 0
     | _ => Z.of_nat (length files)
     end).
Proof.
  intros Hreach.
  destruct (UploadFacts.reachable_counting _ _ _ _ Hreach) as [Hcount _].
  destruct (UploadFacts.reachable_cancelling _ _ _ _ Hreach) as (Hiff & Hsk & Hfa).
  destruct (UploadFacts.reachable_structure _ _ _ _ Hreach) as (_ & _ & Hmap & _).
  split; [exact Hcount|].
  split; [intros Hok; apply (UploadFacts.reachable_faultless _ _ _ _ Hok Hreach)|].
  split; [intros Hn Hpf Hmem;
          now apply (UploadFacts.reachable_completes w cfg files)|].
  intros Hfin Herr.
  assert (Hup : Forall (fun t => Upload.uploaded t = true) (Upload.tasks s)).
  { unfold Upload.finished in Hfin. rewrite forallb_forall in Hfin.
    apply Forall_forall. intros t Ht.
    pose proof (Hfin t (proj1 (list_elem_of_In _ _) Ht)) as Hd.
    pose proof (proj1 (Forall_forall _ _) Hsk t Ht) as H1.
    pose proof (proj1 (Forall_forall _ _) Hfa t Ht) as H2.
    unfold Upload.is_done, Upload.skipped, Upload.failed, Upload.uploaded in *.
    destruct (Upload.at_ t) as [| | | | | | | | | | | |r|v]; try discriminate.
    destruct r as [| |e]; [reflexivity| |].
    - specialize (H1 eq_refl). apply Hiff in H1. contradiction.
    - specialize (H2 eq_refl). contradiction. }
  assert (Hlen : length (Upload.tasks s) = length files).
  { rewrite <- Hmap. now rewrite length_map. }
  rewrite Hcount, <- Hlen. unfold Upload.counted.
  destruct (Upload.rev cfg); [destruct (Upload.verbose cfg)|..]; simpl.
  - rewrite UploadFacts.tally_all; [reflexivity|].
    eapply Forall_impl; [exact Hup|]. simpl. auto.
  - rewrite UploadFacts.tally_none; [reflexivity|].
    eapply Forall_impl; [exact Hup|]. reflexivity.
  - rewrite UploadFacts.tally_all; [reflexivity|].
    eapply Forall_impl; [exact Hup|]. simpl. intros t ->.
    now destruct (Upload.at_ t).
  - rewrite UploadFacts.tally_all; [reflexivity|].
    eapply Forall_impl; [exact Hup|]. simpl. intros t ->.
    now destruct (Upload.at_ t).
  - rewrite UploadFacts.tally_all; [reflexivity|].
    eapply Forall_impl; [exact Hup|]. simpl. intros t ->.
    now destruct (Upload.at_ t).
Qed.

(** The scenario of the specification, two goroutines at a time, without
    [-v]: three uploads, final counter 3; and the run can be taken to
    its end from the state in which nothing is submitted yet. *)
Lemma C1_witness :
  let cfg := Scenario.settings_of Upload.MainB false 0 in
  let s := Scenario.outcome Scenario.fair_weather cfg
             Scenario.two_at_a_time Scenario.three_files in
  Upload.count (Upload.sh s) = 3 /\
  exists es s',
    Upload.run_events Scenario.fair_weather cfg es
      (Upload.init Scenario.three_files) = Some s' /\
    Upload.finished s' = true.
Proof.
  intros cfg s. split.
  - refine (proj2 (proj2 (proj2 (C1_counter_counts_uploads Scenario.fair_weather
                                   cfg Scenario.three_files s _))) _ _).
    + exists Scenario.two_at_a_time. vm_compute. reflexivity.
    + vm_compute. reflexivity.
    + vm_compute. reflexivity.
  - refine (proj1 (proj2 (proj2 (C1_counter_counts_uploads Scenario.fair_weather
                                   cfg Scenario.three_files
                                   (Upload.init Scenario.three_files) _))) _ _ _).
    + exists []. reflexivity.
    + vm_compute. discriminate.
    + split; [right; vm_compute; discriminate
            |vm_compute; split; [reflexivity|discriminate]].
    + intros k. reflexivity.
Defined.

(** C2, as stated, fails in two places.  On a host whose separator is the
    slash, [filepath.ToSlash] returns its argument: the backslash is an
    ordinary byte of a file name there, and [b\c.txt] and [b/c.txt] get
    different keys.  And Part000 joins with [dest.Path] itself, leading
    slash included, so that [a.txt] goes to [/prefix/a.txt]. *)
Lemma C2_counterexample :
  Upload.objectName Upload.Part001 "/" "/prefix" "b\c.txt" = Some "prefix/b\c.txt" /\
  Upload.objectName Upload.Part001 "/" "/prefix" "b/c.txt" = Some "prefix/b/c.txt" /\
  Upload.objectName Upload.Part001 "/" "/prefix" "b\c.txt"
    <> Upload.objectName Upload.Part001 "/" "/prefix" "b/c.txt" /\
  Upload.objectName Upload.Part000 "/" "/prefix" "a.txt" = Some "/prefix/a.txt" /\
  Upload.objectName Upload.Part000 "/" "/prefix" "a.txt" <> Some "prefix/a.txt".
Proof. vm_compute. repeat split; congruence. Qed.

(** C2 (amended).  From MainA on, for a destination whose path is a slash
    followed by [prefix], the object name of the relative path [p] is
    [path.Join(prefix, filepath.ToSlash(p))].  On a host whose separator
    is the backslash, a path and its forward-slash equivalent get the
    same name; and on either kind of host [a.txt], [b/c.txt] and [d.bin]
    under [/prefix] get [prefix/a.txt], [prefix/b/c.txt] and
    [prefix/d.bin]. *)
Theorem C2_object_name
    (r : Upload.revision) (Separator : ascii) (prefix p : string) :
  r <> Upload.Part000 ->
  Upload.objectName r Separator (String "/" prefix) p
    = Some (GoPath.Join [prefix; filepath.ToSlash Separator p]) /\
  (Separator = "\"%char ->
   Upload.objectName r Separator (String "/" prefix) p
     = Upload.objectName r Separator (String "/" prefix)
         (GoStrings.ReplaceByte p "\" "/")) /\
  (Separator = "/"%char \/ Separator = "\"%char ->
   map (Upload.objectName r Separator "/prefix") Scenario.three_files
     = [Some "prefix/a.txt"; Some "prefix/b/c.txt"; Some "prefix/d.bin"]).
Proof.
  intros Hr.
  assert (Hname : forall q, Upload.objectName r Separator (String "/" prefix) q
    = Some (GoPath.Join [prefix; filepath.ToSlash Separator q])).
  { intros q. destruct r; [contradiction|reflexivity..]. }
  split; [apply Hname|split].
  - intros ->. rewrite !Hname. do 3 f_equal.
    change (GoStrings.ReplaceByte p "\" "/") with (filepath.ToSlash "\" p).
    now rewrite PathFacts.ToSlash_idempotent.
  - intros [-> | ->]; destruct r; try contradiction; reflexivity.
Qed.

(** On a Windows host the backslash path and the slash path meet; the
    scenario on a Unix host. *)
Lemma C2_witness :
  Upload.objectName Upload.Part001 "\" "/prefix" "b\c.txt" = Some "prefix/b/c.txt" /\
  Upload.objectName Upload.Part001 "\" "/prefix" "b\c.txt"
    = Upload.objectName Upload.Part001 "\" "/prefix" "b/c.txt" /\
  map (Upload.objectName Upload.Part001 "/" "/prefix") Scenario.three_files
    = [Some "prefix/a.txt"; Some "prefix/b/c.txt"; Some "prefix/d.bin"].
Proof.
  destruct (C2_object_name Upload.Part001 "\" "prefix" "b\c.txt") as (H1 & H2 & _);
    [discriminate|].
  destruct (C2_object_name Upload.Part001 "/" "prefix" "") as (_ & _ & H3);
    [discriminate|].
  split; [exact H1|]. split; [exact (H2 eq_refl)|]. apply H3. now left.
Defined.




(** C4.  A task whose admission check finds [ctx.Done()] closed (which
    is only the case once the group has recorded an error) returns [nil]
    at once: its two actions, the check and the end of the goroutine,
    lead it to [Done Skipped] and leave every other task, the log of file
    and object-store calls, the counter, the group's error, the printed
    lines, the pool and the number of reclamation passes as they were. *)
Theorem C4_cancelled_task_skips
    (w : Upload.world) (cfg : Upload.settings) (files : list string)
    (s : Upload.state) (i : nat) (t : Upload.task) :
  Upload.reachable w cfg files s ->
  Upload.panicked (Upload.sh s) = false ->
  Upload.tasks s !! i = Some t ->
  Upload.at_ t = Upload.AtSelect ->
  Upload.ctxDone (Upload.sh s) = true ->
  Upload.err (Upload.sh s) <> None /\
  exists s1 s2,
    Upload.apply_event w cfg (Upload.Run i) s = Some s1 /\
    Upload.apply_event w cfg (Upload.Run i) s1 = Some s2 /\
    Upload.tasks s1
      = <[i := Upload.goto t (Upload.Returning Upload.Skipped)]> (Upload.tasks s) /\
    Upload.tasks s2
      = <[i := Upload.goto t (Upload.Done Upload.Skipped)]> (Upload.tasks s) /\
    Upload.returned Upload.Skipped = None /\
    Upload.io (Upload.sh s2) = Upload.io (Upload.sh s) /\
    Upload.io (Upload.sh s1) = Upload.io (Upload.sh s) /\
    Upload.count (Upload.sh s2) = Upload.count (Upload.sh s) /\
    Upload.err (Upload.sh s2) = Upload.err (Upload.sh s) /\
    Upload.logged (Upload.sh s2) = Upload.logged (Upload.sh s) /\
    Upload.idle (Upload.sh s2) = Upload.idle (Upload.sh s) /\
    Upload.allocated (Upload.sh s2) = Upload.allocated (Upload.sh s) /\
    Upload.gcRuns (Upload.sh s2) = Upload.gcRuns (Upload.sh s).
Proof.
  intros Hreach Hp Hl Hat Hdone.
  destruct (UploadFacts.reachable_cancelling _ _ _ _ Hreach) as (Hiff & _ & _).
  destruct (UploadFacts.reachable_structure _ _ _ _ Hreach) as (Hok & _).
  pose proof (Forall_lookup_1 _ _ _ _ Hok Hl) as Ht.
  unfold Upload.task_ok in Ht. rewrite Hat in Ht. destruct Ht as [Hdef Hbuf].
  split; [now apply Hiff|].
  assert (Hlt : (i < length (Upload.tasks s))%nat) by (eapply lookup_lt_Some; eauto).
  eexists _, _. split; [|split; [|split]].
  - unfold Upload.apply_event, Upload.exec. rewrite Hp, Hl.
    unfold Upload.runnable, Upload.step_task. rewrite Hat, Hdone. reflexivity.
  - unfold Upload.apply_event, Upload.exec. simpl. rewrite Hp.
    rewrite list_lookup_insert_eq by exact Hlt.
    unfold Upload.runnable, Upload.step_task. simpl. rewrite Hdef. reflexivity.
  - reflexivity.
  - simpl. rewrite list_insert_insert_eq. repeat split; reflexivity.
Qed.

(** Task 0 of the scenario cannot open its file; task 1, submitted
    before, reaches its admission check after the failure was recorded. *)
Lemma C4_witness :
  let w := Scenario.first_open_fails in
  let cfg := Scenario.settings_of Upload.Part001 true 0 in
  let s := Scenario.outcome w cfg
             [Upload.Go; Upload.Go; Upload.Run 0; Upload.Run 0; Upload.Run 0]
             Scenario.three_files in
  Upload.err (Upload.sh s) = Some (Upload.OpenUploadFile "data/a.txt") /\
  exists s1 s2,
    Upload.apply_event w cfg (Upload.Run 1) s = Some s1 /\
    Upload.apply_event w cfg (Upload.Run 1) s1 = Some s2 /\
    Upload.io (Upload.sh s2) = [Upload.OsOpen "data/a.txt"] /\
    Upload.count (Upload.sh s2) = 0.
Proof.
  intros w cfg s. split; [reflexivity|].
  destruct (C4_cancelled_task_skips w cfg Scenario.three_files s 1
              (Upload.goto (Upload.new_task "b/c.txt") Upload.AtSelect))
    as (_ & s1 & s2 & H1 & H2 & _ & _ & _ & H3 & _ & H4 & _).
  - exists [Upload.Go; Upload.Go; Upload.Run 0; Upload.Run 0; Upload.Run 0].
    vm_compute. reflexivity.
  - vm_compute. reflexivity.
  - vm_compute. reflexivity.
  - reflexivity.
  - vm_compute. reflexivity.
  - exists s1, s2. repeat split; assumption.
Defined.




(** C6.  In Part001, with neither [-l] nor [-d], and with both, [run]
    prints the usage and returns a configuration error (["target not
    found: please use either -l or -d"], ["cannot use both -l and -d"],
    or ["invalid args"] when the destination argument is missing too)
    before any call on the file system or the network: the only call is
    [flag.Usage()].  Whenever [run] gets as far as the uploads, exactly
    one of the two was given. *)
Theorem C6_exactly_one_source
    (w : Run.os_world) (fl : Run.flags) (s : Run.os_state) :
  (Run.flag_l fl = ""%string /\ Run.flag_d fl = ""%string ->
   Run.run_Part001 w fl s =
     (Run.called s Run.PrintUsage,
      inl match Run.args fl with
          | [_] => Run.TargetNotFound
          | _ => Run.InvalidArgs
          end)) /\
  (Run.flag_l fl <> ""%string /\ Run.flag_d fl <> ""%string ->
   Run.run_Part001 w fl s =
     (Run.called s Run.PrintUsage,
      inl match Run.args fl with
          | [_] => Run.BothTargets
          | _ => Run.InvalidArgs
          end)) /\
  Run.is_io Run.PrintUsage = false /\
  (forall s' p, Run.run_Part001 w fl s = (s', inr p) ->
     (Run.flag_l fl = ""%string /\ Run.flag_d fl <> ""%string) \/
     (Run.flag_l fl <> ""%string /\ Run.flag_d fl = ""%string)).
Proof.
  split; [|split; [|split; [reflexivity|]]].
  - intros [Hl Hd]. unfold Run.run_Part001. rewrite Hl, Hd.
    destruct (Run.args fl) as [|arg0 [|? ?]]; reflexivity.
  - intros [Hl Hd]. unfold Run.run_Part001.
    destruct (String.eqb_spec (Run.flag_l fl) "") as [E|_]; [contradiction|].
    destruct (String.eqb_spec (Run.flag_d fl) "") as [E|_]; [contradiction|].
    destruct (Run.args fl) as [|arg0 [|? ?]]; reflexivity.
  - intros s' p H.
    destruct (RunFacts.run_Part001_plan _ _ _ _ _ H) as (? & ? & ? & _ & _ & _ & _ & _ & _ & Hone).
    exact Hone.
Qed.

(** Neither flag, and both flags, with the destination in place. *)
Lemma C6_witness :
  Run.run_Part001 Scenario.surroundings
    (Scenario.flags_of "" "" false ["gs://bucket/prefix"]) Scenario.at_start
  = (Run.called Scenario.at_start Run.PrintUsage, inl Run.TargetNotFound) /\
  Run.run_Part001 Scenario.surroundings
    (Scenario.flags_of "list.txt" "data" false ["gs://bucket/prefix"]) Scenario.at_start
  = (Run.called Scenario.at_start Run.PrintUsage, inl Run.BothTargets).
Proof.
  split.
  - apply (proj1 (C6_exactly_one_source Scenario.surroundings
             (Scenario.flags_of "" "" false ["gs://bucket/prefix"]) Scenario.at_start)).
    split; reflexivity.
  - apply (proj1 (proj2 (C6_exactly_one_source Scenario.surroundings
             (Scenario.flags_of "list.txt" "data" false ["gs://bucket/prefix"])
             Scenario.at_start))).
    split; discriminate.
Defined.

(** C7.  From MainA on: a task that got the value [c] from [count.Add(1)]
    calls [runtime.GC()] exactly when the interval [N] is positive and
    divides [c]; the calls made and the calls about to be made are
    together [count / N], the number of multiples of [N] among
    [1..count], so that when [eg.Wait()] returns one pass was triggered
    per [N] completed uploads; with [N = 0] (or negative) no pass is
    ever triggered. *)
Theorem C7_reclamation_every_N
    (w : Upload.world) (cfg : Upload.settings) (files : list string)
    (s : Upload.state) :
  Upload.rev cfg <> Upload.Part000 ->
  Upload.reachable w cfg files s ->
  let N := Upload.gcInterval cfg in
  (forall c, 1 <= c ->
     (Upload.gcDue N c = true <-> 0 < N /\ (N | c))) /\
  (forall i t, Upload.tasks s !! i = Some t -> Upload.at_ t = Upload.AtGC ->
     Upload.panicked (Upload.sh s) = false ->
     1 <= Upload.c t <= Upload.count (Upload.sh s) /\
     exists s', Upload.apply_event w cfg (Upload.Run i) s = Some s' /\
       Upload.gcRuns (Upload.sh s') =
         (Upload.gcRuns (Upload.sh s) +
          (if Upload.gcDue N (Upload.c t) then 1 else 0))%nat) /\
  Z.of_nat (Upload.gcRuns (Upload.sh s)
            + Upload.tally (Upload.gc_pending cfg) (Upload.tasks s))
    = (if 0 <? N then Upload.count (Upload.sh s) / N else 0) /\
  (Upload.finished s = true ->
   Z.of_nat (Upload.gcRuns (Upload.sh s))
     = if 0 <? N then Upload.count (Upload.sh s) / N else 0) /\
  (N <= 0 -> Upload.gcRuns (Upload.sh s) = O).
Proof.
  intros Hrev Hreach N.
  pose proof (UploadFacts.reachable_reclaiming _ _ _ _ Hreach) as Hgc.
  destruct (UploadFacts.reachable_counting _ _ _ _ Hreach) as [_ Hrange].
  unfold Upload.reclaiming in Hgc. fold N in Hgc.
  assert (Hsum : Z.of_nat (Upload.gcRuns (Upload.sh s)
            + Upload.tally (Upload.gc_pending cfg) (Upload.tasks s))
    = (if 0 <? N then Upload.count (Upload.sh s) / N else 0)).
  { destruct (Upload.rev cfg); [contradiction|exact Hgc..]. }
  split; [|split; [|split; [exact Hsum|split]]].
  - intros c Hc. unfold Upload.gcDue. rewrite andb_true_iff, Z.ltb_lt, Z.eqb_eq.
    split; intros [HN Hd]; (split; [exact HN|]).
    + apply Z.rem_divide; [lia|exact Hd].
    + apply Z.rem_divide; [lia|exact Hd].
  - intros i t Hl Hat Hp. split.
    + pose proof (Forall_lookup_1 _ _ _ _ Hrange Hl) as Hc. simpl in Hc.
      apply Hc. unfold Upload.counted. rewrite Hat.
      destruct (Upload.rev cfg); [contradiction|reflexivity..].
    + unfold Upload.apply_event, Upload.exec. rewrite Hp, Hl.
      unfold Upload.runnable, Upload.step_task. rewrite Hat.
      eexists. split; [reflexivity|]. simpl. fold N.
      destruct (Upload.gcDue N (Upload.c t)); simpl; lia.
  - intros Hfin. rewrite <- Hsum.
    rewrite UploadFacts.tally_none; [now rewrite Nat.add_0_r|].
    unfold Upload.finished in Hfin. rewrite forallb_forall in Hfin.
    apply Forall_forall. intros t Ht.
    specialize (Hfin t (proj1 (list_elem_of_In _ _) Ht)).
    unfold Upload.is_done, Upload.gc_pending in *.
    destruct (Upload.at_ t); try discriminate; reflexivity.
  - intros HN. destruct (Z.ltb_spec 0 N); [lia|]. lia.
Qed.

(** The scenario with [-gc 2]: three uploads, one reclamation pass (after
    the second upload). *)
Lemma C7_witness :
  let cfg := Scenario.settings_of Upload.Part001 false 2 in
  let s := Scenario.outcome Scenario.fair_weather cfg
             Scenario.one_by_one Scenario.three_files in
  Upload.count (Upload.sh s) = 3 /\ Upload.gcRuns (Upload.sh s) = 1%nat /\
  Z.of_nat (Upload.gcRuns (Upload.sh s)) = 3 / 2.
Proof.
  intros cfg s.
  destruct (C7_reclamation_every_N Scenario.fair_weather cfg
              Scenario.three_files s) as (_ & _ & _ & H & _).
  - discriminate.
  - exists Scenario.one_by_one. vm_compute. reflexivity.
  - split; [reflexivity|]. split; [reflexivity|].
    rewrite H by (vm_compute; reflexivity). reflexivity.
Defined.




(** C9. [bytesValue.Set] is total and never reaches its
    [panic("unreachable")]: whatever the argument (and whatever lowering
    [strings.ToLower] performs on it), some entry of the unit table has a
    matching suffix (the last entry, the empty suffix, always does), and
    [Set] returns at the first such entry: either it assigns
    [v * u.value] (as a [uint64]) with no error, or it leaves the
    receiver alone and returns the error [strconv.ParseUint] produced on
    the numeric prefix. *)
Theorem C9_Set_never_panics (ToLower : string -> string) (b : Z) (s : string) :
  (forall msg, BytesValue.bytesValue_Set ToLower b s <> BytesValue.Panicked msg) /\
  GoStrings.HasSuffix (ToLower s) "" = true /\
  exists (u : string * Z),
    In u BytesValue.bytesUnits /\
    GoStrings.HasSuffix (ToLower s) (fst u) = true /\
    ((exists v,
        GoStrconv.ParseUint (GoStrings.TrimSuffix (ToLower s) (fst u)) = (v, None) /\
        BytesValue.bytesValue_Set ToLower b s = BytesValue.Returned (GoStrconv.wrap64 (v * snd u)) None)
     \/
     (exists v e,
        GoStrconv.ParseUint (GoStrings.TrimSuffix (ToLower s) (fst u)) = (v, Some e) /\
        BytesValue.bytesValue_Set ToLower b s = BytesValue.Returned b (Some (s, e)))).
Proof.
  assert (Hemp : GoStrings.HasSuffix (ToLower s) "" = true)
    by apply GoStringsFacts.HasSuffix_empty.
  destruct (BytesValueFacts.Set_loop_returns BytesValue.bytesUnits b s (ToLower s))
    as [u [Hin [Hu Heq]]].
  { exists (""%string, 1). split; [simpl; tauto|exact Hemp]. }
  fold (BytesValue.bytesValue_Set ToLower b s) in Heq.
  assert (Hcase :
    (exists v,
        GoStrconv.ParseUint (GoStrings.TrimSuffix (ToLower s) (fst u)) = (v, None) /\
        BytesValue.bytesValue_Set ToLower b s = BytesValue.Returned (GoStrconv.wrap64 (v * snd u)) None)
     \/
     (exists v e,
        GoStrconv.ParseUint (GoStrings.TrimSuffix (ToLower s) (fst u)) = (v, Some e) /\
        BytesValue.bytesValue_Set ToLower b s = BytesValue.Returned b (Some (s, e)))).
  { destruct (GoStrconv.ParseUint (GoStrings.TrimSuffix (ToLower s) (fst u)))
      as [v [e|]] eqn:Hp.
    - right. exists v, e. split; [reflexivity|exact Heq].
    - left. exists v. split; [reflexivity|exact Heq]. }
  split; [|split; [exact Hemp|exists u; repeat split; assumption]].
  intros msg Hpanic.
  destruct Hcase as [[v [_ H]]|[v [e [_ H]]]]; congruence.
Qed.

(** C10.  In Part001 a blank line of the list file is a token like any
    other.  Without [-shuffle] the work list is what the scanner
    delivers on the list file (the file of [-l], or the one written from
    the directory of [-d]), and a blank line after complete lines is
    the empty item at that place; with [-shuffle] an empty item of the
    list is still in the shuffled one.  The task of an empty item, in
    every state of every run of the pool, has the empty string as its
    [f]: its [os.Open] is called on the [filepath.Join] of the directory
    and the empty string, which on Unix is the cleaned directory, or
    the empty path when [-d] was not given, and its writer is created
    for the object named by the [path.Join] of the prefix and the empty
    string, the cleaned prefix (the empty name when the prefix is
    empty). *)
Theorem C10_blank_lines_become_tasks
    (w : Run.os_world) (fl : Run.flags) (s s' : Run.os_state) (p : Run.plan) :
  Run.run_Part001 w fl s = (s', inr p) ->
  (forall k, Run.TempName w k <> "-"%string) ->
  (Run.flag_shuffle fl = false ->
   exists content,
     (if String.eqb (Run.flag_d fl) ""
      then snd (Run.openFile w (Run.flag_l fl) s) = Some content
      else content = Run.lines (fst (Run.WalkDir w (Run.flag_d fl)))) /\
     Run.work p = fst (bufio.ScanLines content) /\
     forall paths rest,
       Forall (fun q => bufio.no_newline q = true /\
                        (String.length q < bufio.MaxScanTokenSize)%nat) paths ->
       content = Run.lines paths +:+ String "010" rest ->
       Run.work p
       = map bufio.dropCR paths ++ EmptyString :: fst (bufio.ScanLines rest)) /\
  (Run.flag_shuffle fl = true ->
   exists s0 p0,
     Run.run_Part001 w (Run.without_shuffle fl) s = (s0, inr p0) /\
     (In EmptyString (Run.work p0) -> In EmptyString (Run.work p))) /\
  (forall i, Run.work p !! i = Some EmptyString ->
   forall (world : Upload.world) (st : Upload.state),
     Upload.reachable world (Run.cfg p) (Run.work p) st ->
     exists t,
       Upload.tasks st !! i = Some t /\ Upload.file t = EmptyString /\
       (Upload.panicked (Upload.sh st) = false ->
        Upload.at_ t = Upload.AtOpen ->
        exists st',
          Upload.apply_event world (Run.cfg p) (Upload.Run i) st = Some st' /\
          Upload.io (Upload.sh st')
          = Upload.OsOpen (filepath.Join (Run.the_host w)
                             [Run.flag_d fl; ""%string])
            :: Upload.io (Upload.sh st)) /\
       (Upload.panicked (Upload.sh st) = false ->
        Upload.at_ t = Upload.AtNewWriter ->
        forall prefix,
          Upload.Path (Upload.dest (Run.cfg p)) = String "/" prefix ->
          exists st',
            Upload.apply_event world (Run.cfg p) (Upload.Run i) st = Some st' /\
            Upload.io (Upload.sh st')
            = Upload.NewWriter (if String.eqb prefix "" then ""%string
                                else GoPath.Clean prefix)
              :: Upload.io (Upload.sh st))) /\
  (Run.the_host w = filepath.unix ->
   filepath.Join (Run.the_host w) [Run.flag_d fl; ""%string]
   = if String.eqb (Run.flag_d fl) "" then ""%string
     else GoPath.Clean (Run.flag_d fl)).
Proof.
  intros H Htemp.
  destruct (RunFacts.run_Part001_plan _ _ _ _ _ H)
    as (arg0' & dst & _ & _ & _ & _ & _ & _ & Hcfg & _).
  split; [|split; [|split]].
  - intros Hsh.
    destruct (ListFileRunFacts.run_Part001_steps _ _ _ _ _ H)
      as (arg0 & s1 & name1 & s2 & name2 & s3 & content
          & _ & H1 & H2 & Hopen & _ & Hwork & _).
    rewrite Hsh in H2. destruct H2 as [-> ->].
    exists content. split; [|split; [exact Hwork|]].
    + destruct (String.eqb (Run.flag_d fl) "").
      * destruct H1 as [-> ->].
        rewrite <- (ShuffleRunFacts.openFile_content w _ s (Run.ParseURI arg0)).
        now rewrite Hopen.
      * destruct H1 as (s1' & Hwrite & ->).
        destruct (ListFileRunFacts.writeListFile_ok _ _ _ _ _ Hwrite)
          as (Hname1 & _ & Hdisk1 & _).
        rewrite ListFileRunFacts.openFile_named in Hopen
          by (rewrite Hname1; apply Htemp).
        injection Hopen as _ Hc.
        rewrite ListFileRunFacts.disk_defer_Remove_if, Hdisk1 in Hc.
        now injection Hc as <-.
    + intros paths rest Hpaths ->. rewrite Hwork.
      now apply ScannerFacts.ScanLines_blank_after.
  - intros Hsh.
    destruct (ShuffleRunFacts.shuffled_work _ _ _ _ _ Hsh Htemp H)
      as (s0 & p0 & H0 & _ & Hperm & _).
    exists s0, p0. split; [exact H0|]. intros Hin.
    apply list_elem_of_In. rewrite Hperm. apply list_elem_of_In.
    change EmptyString with (bufio.dropCR EmptyString). now apply in_map.
  - intros i Hi world st Hreach.
    destruct (UploadFacts.reachable_structure _ _ _ _ Hreach) as (_ & _ & Hmap & _).
    assert (Hfile : Upload.file <$> Upload.tasks st !! i = Some EmptyString).
    { rewrite <- list_lookup_fmap.
      change (map Upload.file (Upload.tasks st) !! i = Some EmptyString).
      now rewrite Hmap. }
    destruct (Upload.tasks st !! i) as [t|] eqn:Ht; [|discriminate].
    injection Hfile as Hfile.
    exists t. split; [reflexivity|]. split; [exact Hfile|]. split.
    + intros Hp Hat.
      destruct (CrashFacts.run_task world (Run.cfg p) i st t Hp Ht)
        as (st' & E & _ & _ & G).
      { unfold Upload.runnable. now rewrite Hat. }
      exists st'. split; [exact E|]. rewrite G.
      unfold Upload.step_task. rewrite Hat, Hfile, Hcfg.
      unfold Upload.localPath. simpl.
      now destruct (Upload.open_ok world i _).
    + intros Hp Hat prefix Hpath.
      destruct (CrashFacts.run_task world (Run.cfg p) i st t Hp Ht)
        as (st' & E & _ & _ & G).
      { unfold Upload.runnable. now rewrite Hat. }
      exists st'. split; [exact E|]. rewrite G.
      unfold Upload.step_task. rewrite Hat, Hfile, Hpath.
      assert (Hname : Upload.objectName (Upload.rev (Run.cfg p))
          (filepath.Separator (Upload.host (Run.cfg p))) (String "/" prefix) ""
          = Some (if String.eqb prefix "" then ""%string else GoPath.Clean prefix)).
      { rewrite Hcfg. unfold Upload.objectName. simpl.
        rewrite PathFacts.ToSlash_empty. f_equal.
        apply PathFacts.Join_with_empty. }
      rewrite Hname. reflexivity.
  - intros Hhost. rewrite Hhost. apply PathFacts.Join_unix_with_empty.
Qed.

(** The list file [blank.txt] has a blank line between [a.txt] and
    [d.bin]: three items, the second one empty, and its task calls
    [os.Open] on the empty path (only [-l] is given). *)
Lemma C10_witness :
  let fl := Scenario.flags_of "blank.txt" "" false ["gs://bucket/prefix"] in
  let r := Run.run_Part001 Scenario.surroundings fl Scenario.at_start in
  exists p,
    snd r = inr p /\
    Run.work p = ["a.txt"; ""; "d.bin"]%string /\
    let st := Scenario.outcome Scenario.fair_weather (Run.cfg p)
                [Upload.Go; Upload.Go; Upload.Run 1] (Run.work p) in
    exists st',
      Upload.apply_event Scenario.fair_weather (Run.cfg p) (Upload.Run 1) st
      = Some st' /\
      Upload.io (Upload.sh st') = [Upload.OsOpen ""].
Proof.
  intros fl r.
  destruct r as [s' [e|p]] eqn:Hr; [vm_compute in Hr; discriminate|].
  exists p. split; [reflexivity|].
  destruct (C10_blank_lines_become_tasks Scenario.surroundings fl
              Scenario.at_start s' p Hr CasesFacts.TempName_not_dash)
    as (Hlist & _ & Htask & Hpath).
  destruct (Hlist eq_refl) as (content & Hc & _ & Hblank).
  vm_compute in Hc. injection Hc as <-.
  assert (Hwork : Run.work p = ["a.txt"; ""; "d.bin"]%string).
  { apply (Hblank ["a.txt"]%string ("d.bin" +:+ Scenario.newline)%string);
      [|reflexivity].
    apply List.Forall_cons; [|apply List.Forall_nil].
    split; [reflexivity|]. apply Nat.ltb_lt. vm_compute. reflexivity. }
  split; [exact Hwork|]. intros st.
  destruct (Htask 1%nat) with (world := Scenario.fair_weather) (st := st)
    as (t & Ht & _ & Hopen & _).
  - now rewrite Hwork.
  - exists [Upload.Go; Upload.Go; Upload.Run 1]. unfold st.
    vm_compute in Hr. injection Hr as _ <-. vm_compute. reflexivity.
  - destruct Hopen as (st' & E & Hio).
    + unfold st. vm_compute in Hr. injection Hr as _ <-. vm_compute. reflexivity.
    + unfold st in Ht. vm_compute in Hr. injection Hr as _ <-.
      vm_compute in Ht. injection Ht as <-. reflexivity.
    + exists st'. split; [exact E|]. rewrite Hio, (Hpath eq_refl).
      unfold st. vm_compute in Hr. injection Hr as _ <-. vm_compute. reflexivity.
Defined.

(* ================================================================== *)
(** * Further properties *)

(** X1.  [Set] reads every suffix of the unit table, in either case of
    letters: when the lowered argument is a number printed in decimal
    followed by a suffix of [bytesUnits], the number is read with that
    suffix's unit (no earlier entry of the table takes the string first).
    A number up to [2^64 - 1] is stored multiplied by the unit, the
    product wrapping as a [uint64] without an error; a larger number is
    a range error that leaves the receiver alone. *)
Theorem X1_Set_reads_every_unit (u : string * Z) (v b : Z) (s : string) :
  In u BytesValue.bytesUnits -> 0 <= v ->
  GoStrings.ToLowerASCII s = GoStrconv.Itoa v +:+ fst u ->
  BytesValue.bytesValue_Set GoStrings.ToLowerASCII b s =
    if v <=? GoStrconv.maxUint64
    then BytesValue.Returned (GoStrconv.wrap64 (v * snd u)) None
    else BytesValue.Returned b (Some (s, GoStrconv.ErrRange)).
Proof. apply BytesValueRoundTrip.Set_Itoa_unit. Qed.

(** [-buf 10MB] is ten mebibytes. *)
Lemma X1_Set_reads_every_unit_witness :
  BytesValue.bytesValue_Set GoStrings.ToLowerASCII 0 "10MB"
  = BytesValue.Returned (10 * 1024 * 1024) None.
Proof.
  refine (X1_Set_reads_every_unit ("mb"%string, 1 * 1024 * 1024) 10 0 "10MB" _ _ _).
  - simpl. tauto.
  - lia.
  - reflexivity.
Defined.

(** X2.  [Set] returns [nil] only on a non-empty run of decimal digits
    followed by a suffix of the unit table (after lowering): no sign, no
    blank, no fraction, no digit separator, and not a suffix alone.  The
    value stored is the number [ParseUint] reads from the digits times
    the unit, as a [uint64]. *)
Theorem X2_Set_accepts_digits_and_unit_only
    (ToLower : string -> string) (b v : Z) (s : string) :
  BytesValue.bytesValue_Set ToLower b s = BytesValue.Returned v None ->
  exists (d : string) (u : string * Z) (k : Z),
    In u BytesValue.bytesUnits /\
    ToLower s = d +:+ fst u /\
    d <> ""%string /\
    BytesValueString.decimal d = true /\
    GoStrconv.ParseUint d = (k, None) /\
    v = GoStrconv.wrap64 (k * snd u).
Proof.
  intros H.
  destruct (BytesValueFacts.Set_loop_returns BytesValue.bytesUnits b s (ToLower s))
    as (u & Hin & Hsuf & Heq).
  { exists (""%string, 1). split; [simpl; tauto|].
    apply GoStringsFacts.HasSuffix_empty. }
  fold (BytesValue.bytesValue_Set ToLower b s) in Heq. rewrite H in Heq.
  destruct (GoStrconv.ParseUint (GoStrings.TrimSuffix (ToLower s) (fst u)))
    as [k [e|]] eqn:Hp; [discriminate|].
  injection Heq as ->.
  destruct (BytesValueRoundTrip.ParseUint_decimal _ _ Hp) as [Hne Hdec].
  destruct (SuffixFacts.HasSuffix_inv _ _ Hsuf) as [Hx _].
  exists (GoStrings.TrimSuffix (ToLower s) (fst u)), u, k. auto 7.
Qed.

(** [512K] is accepted as the digits [512] and the suffix [k]. *)
Lemma X2_Set_accepts_digits_and_unit_only_witness :
  exists (d : string) (u : string * Z) (k : Z),
    In u BytesValue.bytesUnits /\
    GoStrings.ToLowerASCII "512K" = d +:+ fst u /\
    d <> ""%string /\
    BytesValueString.decimal d = true /\
    GoStrconv.ParseUint d = (k, None) /\
    524288 = GoStrconv.wrap64 (k * snd u).
Proof.
  apply (X2_Set_accepts_digits_and_unit_only GoStrings.ToLowerASCII 0 524288 "512K").
  vm_compute. reflexivity.
Defined.

(** X3.  [Set] reads back what [String] prints, rounded down to the unit
    [String] chose: mebibytes from [2^20] on, kibibytes from [2^10] on,
    bytes below.  The value comes back unchanged exactly when it is a
    multiple of that unit. *)
Theorem X3_Set_after_String_rounds_down (b0 b : Z) :
  0 <= b <= GoStrconv.maxUint64 ->
  let unit := if 2 ^ 20 <=? b then 2 ^ 20 else if 2 ^ 10 <=? b then 2 ^ 10 else 1 in
  BytesValue.bytesValue_Set GoStrings.ToLowerASCII b0
    (BytesValueString.bytesValue_String b)
  = BytesValue.Returned (b - b mod unit) None /\
  (b mod unit = 0 <->
   BytesValue.bytesValue_Set GoStrings.ToLowerASCII b0
     (BytesValueString.bytesValue_String b)
   = BytesValue.Returned b None).
Proof.
  intros Hb unit.
  assert (E : BytesValue.bytesValue_Set GoStrings.ToLowerASCII b0
                (BytesValueString.bytesValue_String b)
              = BytesValue.Returned (b - b mod unit) None).
  { rewrite BytesValueRoundTrip.Set_String by exact Hb. unfold unit.
    change (2 ^ 20) with 1048576. change (2 ^ 10) with 1024.
    destruct (Z.leb_spec 1048576 b); [|destruct (Z.leb_spec 1024 b)]; f_equal.
    - pose proof (Z.div_mod b 1048576 ltac:(lia)). lia.
    - pose proof (Z.div_mod b 1024 ltac:(lia)). lia.
    - rewrite Z.mod_1_r. lia. }
  split; [exact E|]. rewrite E. split.
  - intros ->. now rewrite Z.sub_0_r.
  - intros [= H]. lia.
Qed.

(** 1536 bytes print as [1k], which reads back as 1024. *)
Lemma X3_Set_after_String_rounds_down_witness :
  BytesValue.bytesValue_Set GoStrings.ToLowerASCII 0
    (BytesValueString.bytesValue_String 1536)
  = BytesValue.Returned 1024 None.
Proof.
  refine (proj1 (X3_Set_after_String_rounds_down 0 1536 _)).
  unfold GoStrconv.maxUint64. lia.
Defined.

(** X4.  The value [Set] reads from the output of [String] is not larger
    than the value printed, prints the same, and is read back unchanged
    from then on: one round trip reaches a fixed point. *)
Theorem X4_String_stable_after_round_trip (b0 b : Z) :
  0 <= b <= GoStrconv.maxUint64 ->
  exists v,
    BytesValue.bytesValue_Set GoStrings.ToLowerASCII b0
      (BytesValueString.bytesValue_String b) = BytesValue.Returned v None /\
    0 <= v <= b /\
    BytesValueString.bytesValue_String v = BytesValueString.bytesValue_String b /\
    BytesValue.bytesValue_Set GoStrings.ToLowerASCII b0
      (BytesValueString.bytesValue_String v) = BytesValue.Returned v None.
Proof.
  intros Hb.
  assert (Hmax : GoStrconv.maxUint64 = 18446744073709551615) by reflexivity.
  rewrite BytesValueRoundTrip.Set_String by exact Hb.
  eexists. split; [reflexivity|].
  destruct (Z.leb_spec 1048576 b) as [H1|H1];
    [|destruct (Z.leb_spec 1024 b) as [H2|H2]].
  - pose proof (Z.mul_div_le b 1048576 ltac:(lia)).
    pose proof (Z.div_le_lower_bound b 1048576 1 ltac:(lia) ltac:(lia)).
    assert (Hq : 1048576 * (b / 1048576) / 1048576 = b / 1048576).
    { rewrite Z.mul_comm. apply Z.div_mul. lia. }
    split; [lia|]. split.
    + rewrite !BytesValueRoundTrip.String_cases by lia.
      destruct (Z.leb_spec 1048576 (1048576 * (b / 1048576))); [|lia].
      destruct (Z.leb_spec 1048576 b); [|lia]. now rewrite Hq.
    + rewrite BytesValueRoundTrip.Set_String by lia.
      destruct (Z.leb_spec 1048576 (1048576 * (b / 1048576))); [|lia].
      now rewrite Hq.
  - pose proof (Z.mul_div_le b 1024 ltac:(lia)).
    pose proof (Z.div_le_lower_bound b 1024 1 ltac:(lia) ltac:(lia)).
    assert (Hq : 1024 * (b / 1024) / 1024 = b / 1024).
    { rewrite Z.mul_comm. apply Z.div_mul. lia. }
    split; [lia|]. split.
    + rewrite !BytesValueRoundTrip.String_cases by lia.
      destruct (Z.leb_spec 1048576 (1024 * (b / 1024))); [lia|].
      destruct (Z.leb_spec 1048576 b); [lia|].
      destruct (Z.leb_spec 1024 (1024 * (b / 1024))); [|lia].
      destruct (Z.leb_spec 1024 b); [|lia]. now rewrite Hq.
    + rewrite BytesValueRoundTrip.Set_String by lia.
      destruct (Z.leb_spec 1048576 (1024 * (b / 1024))); [lia|].
      destruct (Z.leb_spec 1024 (1024 * (b / 1024))); [|lia].
      now rewrite Hq.
  - split; [lia|]. split; [reflexivity|].
    rewrite BytesValueRoundTrip.Set_String by lia.
    destruct (Z.leb_spec 1048576 b); [lia|].
    destruct (Z.leb_spec 1024 b); [lia|]. reflexivity.
Qed.

(** 1536 bytes. *)
Lemma X4_String_stable_after_round_trip_witness :
  exists v,
    BytesValue.bytesValue_Set GoStrings.ToLowerASCII 0
      (BytesValueString.bytesValue_String 1536) = BytesValue.Returned v None /\
    0 <= v <= 1536 /\
    BytesValueString.bytesValue_String v = BytesValueString.bytesValue_String 1536 /\
    BytesValue.bytesValue_Set GoStrings.ToLowerASCII 0
      (BytesValueString.bytesValue_String v) = BytesValue.Returned v None.
Proof.
  apply (X4_String_stable_after_round_trip 0 1536).
  unfold GoStrconv.maxUint64. lia.
Defined.

(** X5.  In every revision [run] checks its arguments first: unless
    the destination argument is there, parses, and has the scheme [gs]
    (and, in Part001, exactly one of [-l] and [-d] is given), [run]
    returns one of its five argument errors after a single call,
    [flag.Usage()] or the parsing of the argument, neither of which
    touches the file system or the network: no directory is walked, no
    temp file created, no client made. *)
Theorem X5_destination_is_checked_before_any_call
    (w : Run.os_world) (fl : Run.flags) (s : Run.os_state) :
  (forall s' x, Run.run_Part001 w fl s = (s', x) ->
     (exists arg0 dst, Run.args fl = [arg0] /\
        ((Run.flag_l fl = ""%string /\ Run.flag_d fl <> ""%string) \/
         (Run.flag_l fl <> ""%string /\ Run.flag_d fl = ""%string)) /\
        Run.ParseRequestURI w arg0 = Some dst /\ Upload.Scheme dst = "gs"%string) \/
     (exists k e, s' = Run.called s k /\ Run.is_io k = false /\ x = inl e /\
        (e = Run.InvalidArgs \/ e = Run.TargetNotFound \/ e = Run.BothTargets \/
         e = Run.ParseDest \/ exists scheme, e = Run.DestScheme scheme))) /\
  (forall r s' x, Run.run_walk r w fl s = (s', x) ->
     (exists arg0 arg1 dst, Run.args fl = [arg0; arg1] /\
        Run.ParseRequestURI w arg1 = Some dst /\ Upload.Scheme dst = "gs"%string) \/
     (exists k e, s' = Run.called s k /\ Run.is_io k = false /\ x = inl e /\
        (e = Run.InvalidArgs \/ e = Run.ParseDest \/
         exists scheme, e = Run.DestScheme scheme))).
Proof.
  split; [intros s' x|intros r s' x].
  - unfold Run.run_Part001.
    destruct (Run.args fl) as [|arg0 [|? ?]];
      try (intros [= <- <-]; right; eexists _, _; repeat split; auto 6).
    destruct (String.eqb_spec (Run.flag_l fl) "") as [El|El];
      destruct (String.eqb_spec (Run.flag_d fl) "") as [Ed|Ed]; simpl;
      try (intros [= <- <-]; right; eexists _, _; repeat split; auto 6).
    + destruct (Run.ParseRequestURI w arg0) as [dst|] eqn:Hp;
        [|intros [= <- <-]; right; eexists _, _; repeat split; auto 6].
      destruct (String.eqb_spec (Upload.Scheme dst) "gs") as [E|E]; simpl;
        [|intros [= <- <-]; right; eexists _, _; repeat split; eauto 7].
      intros _. left. exists arg0, dst. repeat split; auto.
    + destruct (Run.ParseRequestURI w arg0) as [dst|] eqn:Hp;
        [|intros [= <- <-]; right; eexists _, _; repeat split; auto 6].
      destruct (String.eqb_spec (Upload.Scheme dst) "gs") as [E|E]; simpl;
        [|intros [= <- <-]; right; eexists _, _; repeat split; eauto 7].
      intros _. left. exists arg0, dst. repeat split; auto.
  - unfold Run.run_walk.
    destruct (Run.args fl) as [|arg0 [|arg1 [|? ?]]];
      try (intros [= <- <-]; right; eexists _, _; repeat split; auto).
    destruct (Run.ParseRequestURI w arg1) as [dst|] eqn:Hp;
      [|intros [= <- <-]; right; eexists _, _; repeat split; auto].
    destruct (String.eqb_spec (Upload.Scheme dst) "gs") as [E|E]; simpl;
      [|intros [= <- <-]; right; eexists _, _; repeat split; eauto].
    intros _. left. exists arg0, arg1, dst. repeat split; auto.
Qed.

(** A destination in [s3://] with [-d data]: the address parses, the
    scheme is refused, and nothing was touched. *)
Lemma X5_destination_is_checked_before_any_call_witness :
  let r := Run.run_Part001 Scenario.surroundings
             (Scenario.flags_of "" "data" false ["s3://bucket/prefix"]%string)
             Scenario.at_start in
  snd r = inl (Run.DestScheme "s3") /\
  exists k e,
    fst r = Run.called Scenario.at_start k /\ Run.is_io k = false /\ snd r = inl e.
Proof.
  intros r. split; [reflexivity|].
  destruct (proj1 (X5_destination_is_checked_before_any_call
              Scenario.surroundings
              (Scenario.flags_of "" "data" false ["s3://bucket/prefix"]%string)
              Scenario.at_start) _ _ (surjective_pairing _))
    as [(arg0 & dst & Ha & _ & Hp & Hs)|(k & e & H1 & H2 & H3 & _)].
  - injection Ha as <-. vm_compute in Hp. injection Hp as <-. discriminate.
  - exists k, e. auto.
Defined.

(** X6.  An empty source directory.  Part000, MainA and MainB
    return [nil] right after the walk, before the storage client is
    created.  Part001 with [-d] writes an empty list file, creates the
    client, and runs the group on an empty work list: [eg.Wait()]
    returns at once and [run] returns [nil]. *)
Theorem X6_empty_directory_uploads_nothing
    (w : Run.os_world) (fl : Run.flags) (s : Run.os_state) :
  (forall r arg0 arg1 dst,
     Run.args fl = [arg0; arg1] ->
     Run.ParseRequestURI w arg1 = Some dst -> Upload.Scheme dst = "gs"%string ->
     Run.WalkDir w arg0 = ([], false) ->
     Run.run_walk r w fl s
     = (Run.called (Run.called s (Run.ParseURI arg1)) (Run.WalkDirCall arg0),
        inr None)) /\
  (forall s' p,
     Run.run_Part001 w fl s = (s', inr p) ->
     Run.flag_d fl <> ""%string ->
     (forall k, Run.TempName w k <> "-"%string) ->
     fst (Run.WalkDir w (Run.flag_d fl)) = [] ->
     Run.work p = [] /\
     In Run.NewClient (Run.trace s') /\
     Upload.finished (Upload.init (Run.work p)) = true /\
     Run.run_result p (Upload.init (Run.work p)) = None).
Proof.
  split.
  - intros r arg0 arg1 dst Ha Hp Hs Hw. now apply RunFacts.run_walk_empty with dst.
  - intros s' p Hrun Hd Htemp Hw.
    destruct (ListFileRunFacts.run_Part001_steps _ _ _ _ _ Hrun)
      as (arg0 & s1 & name1 & s2 & name2 & s3 & content
          & _ & H1 & H2 & Hopen & Hs' & Hwork & Herr).
    destruct (String.eqb_spec (Run.flag_d fl) "") as [E|_]; [contradiction|].
    destruct H1 as (s1' & Hwrite & ->).
    destruct (ListFileRunFacts.writeListFile_ok _ _ _ _ _ Hwrite)
      as (Hname1 & _ & Hdisk1 & _).
    rewrite Hw in Hdisk1. simpl in Hdisk1.
    assert (Hn1 : name1 <> "-"%string) by (rewrite Hname1; apply Htemp).
    assert (Hc : content = ""%string).
    { destruct (Run.flag_shuffle fl).
      - destruct H2 as (s2' & Hshuf & ->).
        destruct (ListFileRunFacts.shuffleListFile_name _ _ _ _ _ Hshuf) as [k Hk].
        destruct (ListFileFacts.shuffleListFile_ok _ _ _ _ _ Hshuf)
          as (content1 & files & files' & Ho1 & Hs1 & _ & Hperm & Hdisk2).
        rewrite ListFileRunFacts.openFile_named in Ho1 by exact Hn1.
        simpl in Ho1. rewrite ListFileRunFacts.disk_defer_Remove_if, Hdisk1 in Ho1.
        injection Ho1 as <-. injection Hs1 as <-.
        apply Permutation_nil in Hperm. subst files'.
        rewrite ListFileRunFacts.openFile_named in Hopen by (rewrite Hk; apply Htemp).
        injection Hopen as _ Hc.
        rewrite ListFileRunFacts.disk_defer_Remove_if, Hdisk2 in Hc.
        now injection Hc as <-.
      - destruct H2 as [-> ->].
        rewrite ListFileRunFacts.openFile_named in Hopen by exact Hn1.
        injection Hopen as _ Hc.
        rewrite ListFileRunFacts.disk_defer_Remove_if, Hdisk1 in Hc.
        now injection Hc as <-. }
    subst content. simpl in Hwork, Herr.
    split; [exact Hwork|]. split; [rewrite Hs'; now left|].
    rewrite Hwork. split; [reflexivity|].
    unfold Run.run_result. simpl. now rewrite Herr.
Qed.

(** The directory [empty] in MainB and in Part001. *)
Lemma X6_empty_directory_uploads_nothing_witness :
  let fl := Scenario.flags_of "" "empty" false ["gs://bucket/prefix"]%string in
  let r := Run.run_Part001 Cases.with_empty_directory fl Scenario.at_start in
  Run.run_walk Upload.MainB Cases.with_empty_directory
    (Scenario.flags_of "" "" false ["empty"; "gs://bucket/prefix"]%string)
    Scenario.at_start
  = (Run.called (Run.called Scenario.at_start (Run.ParseURI "gs://bucket/prefix"))
       (Run.WalkDirCall "empty"), inr None) /\
  exists p, snd r = inr p /\ Run.work p = [] /\
            Run.run_result p (Upload.init (Run.work p)) = None.
Proof.
  intros fl r.
  pose proof (X6_empty_directory_uploads_nothing Cases.with_empty_directory) as H.
  split.
  - apply (proj1 (H _ _) Upload.MainB "empty"%string "gs://bucket/prefix"%string
             Scenario.bucket_prefix); reflexivity.
  - destruct r as [s' [e|p]] eqn:Hr; [vm_compute in Hr; discriminate|].
    exists p. split; [reflexivity|].
    destruct (proj2 (H fl Scenario.at_start) s' p Hr) as (H1 & _ & _ & H2).
    + discriminate.
    + intros k. cbv [Run.TempName Cases.with_empty_directory Scenario.surroundings append].
      discriminate.
    + reflexivity.
    + split; [exact H1|exact H2].
Defined.

(** X7.  In Part001 with [-d], when [run] gets to the uploads, the
    work list is what [fs.WalkDir] enumerated, through the list file
    [writeListFile] wrote (and the one [shuffleListFile] wrote from it):
    the paths themselves in the order of the walk without [-shuffle], a
    permutation of them with it, and the scanner reports no error.  This
    holds for paths that survive a line of a list file: no newline in
    them, shorter than the scanner's buffer, no carriage return at the
    end. *)
Theorem X7_directory_listing_is_the_work_list
    (w : Run.os_world) (fl : Run.flags) (s s' : Run.os_state) (p : Run.plan) :
  Run.run_Part001 w fl s = (s', inr p) ->
  Run.flag_d fl <> ""%string ->
  (forall k, Run.TempName w k <> "-"%string) ->
  Forall bufio.line_safe (fst (Run.WalkDir w (Run.flag_d fl))) ->
  fst (Run.WalkDir w (Run.flag_d fl)) ≡ₚ Run.work p /\
  (Run.flag_shuffle fl = false ->
   Run.work p = fst (Run.WalkDir w (Run.flag_d fl))) /\
  Run.scanErr p = false.
Proof.
  intros Hrun Hd Htemp Hsafe.
  destruct (ListFileRunFacts.run_Part001_steps _ _ _ _ _ Hrun)
    as (arg0 & s1 & name1 & s2 & name2 & s3 & content
        & _ & H1 & H2 & Hopen & _ & Hwork & Herr).
  destruct (String.eqb_spec (Run.flag_d fl) "") as [E|_]; [contradiction|].
  destruct H1 as (s1' & Hwrite & ->).
  destruct (ListFileRunFacts.writeListFile_ok _ _ _ _ _ Hwrite)
    as (Hname1 & _ & Hdisk1 & _).
  assert (Hn1 : name1 <> "-"%string) by (rewrite Hname1; apply Htemp).
  pose proof (ListFileFacts.ScanLines_lines _ Hsafe) as Hscan1.
  destruct (Run.flag_shuffle fl) eqn:Hsh.
  - destruct H2 as (s2' & Hshuf & ->).
    destruct (ListFileRunFacts.shuffleListFile_name _ _ _ _ _ Hshuf) as [k Hk].
    destruct (ListFileFacts.shuffleListFile_ok _ _ _ _ _ Hshuf)
      as (content1 & files & files' & Ho1 & Hs1 & _ & Hperm & Hdisk2).
    rewrite ListFileRunFacts.openFile_named in Ho1 by exact Hn1.
    simpl in Ho1. rewrite ListFileRunFacts.disk_defer_Remove_if, Hdisk1 in Ho1.
    injection Ho1 as <-. rewrite Hscan1 in Hs1. injection Hs1 as <-.
    rewrite ListFileRunFacts.openFile_named in Hopen by (rewrite Hk; apply Htemp).
    injection Hopen as _ Hc.
    rewrite ListFileRunFacts.disk_defer_Remove_if, Hdisk2 in Hc.
    injection Hc as <-.
    pose proof (ListFileFacts.ScanLines_lines _
                  (ListFileRunFacts.line_safe_Permutation _ _ Hperm Hsafe)) as Hscan2.
    rewrite Hscan2 in Hwork, Herr. simpl in Hwork, Herr.
    split; [rewrite Hwork; exact Hperm|]. split; [discriminate|exact Herr].
  - destruct H2 as [-> ->].
    rewrite ListFileRunFacts.openFile_named in Hopen by exact Hn1.
    injection Hopen as _ Hc.
    rewrite ListFileRunFacts.disk_defer_Remove_if, Hdisk1 in Hc.
    injection Hc as <-. rewrite Hscan1 in Hwork, Herr. simpl in *.
    rewrite Hwork. auto.
Qed.

(** The directory [data] of the scenario with [-shuffle]. *)
Lemma X7_directory_listing_is_the_work_list_witness :
  let fl := Scenario.flags_of "" "data" true ["gs://bucket/prefix"]%string in
  let r := Run.run_Part001 Scenario.surroundings fl Scenario.at_start in
  exists p, snd r = inr p /\ Scenario.three_files ≡ₚ Run.work p /\
            Run.scanErr p = false.
Proof.
  intros fl r.
  destruct r as [s' [e|p]] eqn:Hr; [vm_compute in Hr; discriminate|].
  exists p. split; [reflexivity|].
  destruct (X7_directory_listing_is_the_work_list Scenario.surroundings fl
              Scenario.at_start s' p Hr) as (H1 & _ & H2).
  - discriminate.
  - apply CasesFacts.TempName_not_dash.
  - apply CasesFacts.three_files_safe.
  - split; [exact H1|exact H2].
Defined.

(** X8.  The temp files of Part001.  However [run] ends, every temp
    file it created is scheduled for removal by a [defer os.Remove],
    with one exception: [shuffleListFile] returns the empty name with
    every error, so when writing or closing the shuffled list fails, the
    file it created stays on disk and is not scheduled for removal. *)
Theorem X8_temp_files_are_removed
    (w : Run.os_world) (fl : Run.flags) (s s' : Run.os_state)
    (r : Run.run_error + Run.plan) :
  Run.run_Part001 w fl s = (s', r) ->
  (forall k, Run.TempName w k <> ""%string) ->
  (Run.temps s <= Run.temps s')%nat /\
  (r = inl (Run.ShuffleListFileError Run.WritePath) \/
   r = inl (Run.ShuffleListFileError Run.CloseListFile) ->
   (Run.temps s < Run.temps s')%nat /\
   (length (Run.removals s') + 1
    = length (Run.removals s) + (Run.temps s' - Run.temps s))%nat /\
   is_Some (Run.disk s' !! Run.TempName w (Run.temps s' - 1))) /\
  (r <> inl (Run.ShuffleListFileError Run.WritePath) ->
   r <> inl (Run.ShuffleListFileError Run.CloseListFile) ->
   (length (Run.removals s')
    = length (Run.removals s) + (Run.temps s' - Run.temps s))%nat /\
   forall k, (Run.temps s <= k < Run.temps s')%nat ->
     In (Run.TempName w k) (Run.removals s')).
Proof.
  intros Hrun Hname.
  assert (Hquiet : forall s1 x,
            TempFiles.accounted w s s1 ->
            (forall e, x <> inl (Run.ShuffleListFileError e)) ->
            (s1, x) = (s', r) ->
            (Run.temps s <= Run.temps s')%nat /\
            (r = inl (Run.ShuffleListFileError Run.WritePath) \/
             r = inl (Run.ShuffleListFileError Run.CloseListFile) ->
             (Run.temps s < Run.temps s')%nat /\
             (length (Run.removals s') + 1
              = length (Run.removals s) + (Run.temps s' - Run.temps s))%nat /\
             is_Some (Run.disk s' !! Run.TempName w (Run.temps s' - 1))) /\
            (r <> inl (Run.ShuffleListFileError Run.WritePath) ->
             r <> inl (Run.ShuffleListFileError Run.CloseListFile) ->
             (length (Run.removals s')
              = length (Run.removals s) + (Run.temps s' - Run.temps s))%nat /\
             forall k, (Run.temps s <= k < Run.temps s')%nat ->
               In (Run.TempName w k) (Run.removals s'))).
  { intros s1 x (H1 & H2 & H3) Hx [= <- <-].
    split; [exact H1|]. split.
    - intros [E|E]; now destruct (Hx _ E).
    - intros _ _. split; [exact H2|exact H3]. }
  pose proof (TempFileFacts.accounted_refl w s) as H0.
  unfold Run.run_Part001 in Hrun.
  destruct (Run.args fl) as [|arg0 [|? ?]];
    try ((refine (Hquiet _ _ _ _ Hrun); [exact H0|intros; discriminate])).
  destruct (String.eqb (Run.flag_l fl) "" && String.eqb (Run.flag_d fl) "");
    [(refine (Hquiet _ _ _ _ Hrun); [exact H0|intros; discriminate])|].
  destruct (negb (String.eqb (Run.flag_l fl) "") && negb (String.eqb (Run.flag_d fl) ""));
    [(refine (Hquiet _ _ _ _ Hrun); [exact H0|intros; discriminate])|].
  destruct (Run.ParseRequestURI w arg0) as [dst|];
    [|(refine (Hquiet _ _ _ _ Hrun); [exact H0|intros; discriminate])].
  destruct (negb (String.eqb (Upload.Scheme dst) "gs"));
    [(refine (Hquiet _ _ _ _ Hrun); [exact H0|intros; discriminate])|].
  apply (TempFileFacts.accounted_called _ _ _ (Run.ParseURI arg0)) in H0.
  set (s0 := Run.called s (Run.ParseURI arg0)) in *.
  (* the list file of -d *)
  assert (Hstage1 : exists s1 r1,
    (if negb (String.eqb (Run.flag_d fl) "") then
       let '(s', (lf, e)) := Run.writeListFile w (Run.flag_d fl) s0 in
       (Run.defer_Remove_if s' lf,
        match e with
        | Some e' => inl (Run.WriteListFileError e')
        | None => inr lf
        end)
     else (s0, inr (Run.flag_l fl))) = (s1, r1) /\
    TempFiles.accounted w s s1 /\
    forall e1 e, r1 = inl e1 -> e1 <> Run.ShuffleListFileError e).
  { destruct (negb (String.eqb (Run.flag_d fl) "")).
    - destruct (Run.writeListFile w (Run.flag_d fl) s0) as [s1' [lf e]] eqn:Hw.
      eexists _, _. split; [reflexivity|]. split.
      + eapply TempFileFacts.accounted_writeListFile; eauto.
      + intros e1 x. destruct e; intros [= <-]; discriminate.
    - eexists _, _. split; [reflexivity|]. split; [exact H0|discriminate]. }
  destruct Hstage1 as (s1 & r1 & E1 & H1 & Hr1). rewrite E1 in Hrun.
  destruct r1 as [e1|name1].
  { refine (Hquiet _ _ H1 _ Hrun). intros e [= E]. now apply (Hr1 e1 e). }
  clear E1 Hr1.
  (* the shuffled list file *)
  destruct (Run.flag_shuffle fl).
  - destruct (Run.shuffleListFile w name1 s1) as [s2' [name2 e]] eqn:Hsh.
    destruct (TempFileFacts.shuffleListFile_temp _ _ _ _ _ _ Hsh)
      as [Hr [(-> & Ht & He & He1 & He2)|[(-> & Ht & He & Hd)|(-> & Ht & ->)]]].
    + destruct e as [e|]; [|contradiction].
      change (Run.defer_Remove_if s2' "") with s2' in Hrun.
      injection Hrun as <- <-.
      destruct H1 as (A1 & A2 & A3). rewrite Hr, Ht.
      split; [exact A1|]. split.
      * intros [[= E]|[= E]]; subst; contradiction.
      * intros _ _. split; [exact A2|exact A3].
    + change (Run.defer_Remove_if s2' "") with s2' in Hrun.
      assert (Hleak : r = inl (Run.ShuffleListFileError Run.WritePath) \/
                      r = inl (Run.ShuffleListFileError Run.CloseListFile)).
      { destruct He as [->| ->]; injection Hrun as _ <-; auto. }
      assert (Hs' : s' = s2').
      { destruct He as [->| ->]; injection Hrun as <- _; reflexivity. }
      subst s'. destruct H1 as (A1 & A2 & A3). rewrite Hr, Ht.
      split; [lia|]. split.
      * intros _. split; [lia|]. split; [lia|].
        replace (S (Run.temps s1) - 1)%nat with (Run.temps s1) by lia. exact Hd.
      * intros N1 N2. destruct Hleak; contradiction.
    + pose proof (TempFileFacts.accounted_grow w s s1 s2' Hname H1 Hr Ht) as H2.
      set (s2 := Run.defer_Remove_if s2' (Run.TempName w (Run.temps s1))) in *.
      destruct (Run.openFile w (Run.TempName w (Run.temps s1)) s2)
        as [s3 c] eqn:Ho.
      pose proof (TempFileFacts.accounted_openFile _ _ _ _ _ _ H2 Ho) as H3.
      destruct c as [content|];
        [|(refine (Hquiet _ _ _ _ Hrun); [exact H3|intros; discriminate])].
      apply (TempFileFacts.accounted_called _ _ _ Run.NewClient) in H3.
      destruct (negb (Run.NewClient_ok w));
        [(refine (Hquiet _ _ _ _ Hrun); [exact H3|intros; discriminate])|].
      destruct (bufio.ScanLines content).
      (refine (Hquiet _ _ _ _ Hrun); [exact H3|intros; discriminate]).
  - destruct (Run.openFile w name1 s1) as [s3 c] eqn:Ho.
    pose proof (TempFileFacts.accounted_openFile _ _ _ _ _ _ H1 Ho) as H3.
    destruct c as [content|];
      [|(refine (Hquiet _ _ _ _ Hrun); [exact H3|intros; discriminate])].
    apply (TempFileFacts.accounted_called _ _ _ Run.NewClient) in H3.
    destruct (negb (Run.NewClient_ok w));
      [(refine (Hquiet _ _ _ _ Hrun); [exact H3|intros; discriminate])|].
    destruct (bufio.ScanLines content).
    (refine (Hquiet _ _ _ _ Hrun); [exact H3|intros; discriminate]).
Qed.

(** [-d data -shuffle] in the scenario: two temp files, both scheduled for removal. *)
Lemma X8_temp_files_are_removed_witness :
  let fl := Scenario.flags_of "" "data" true ["gs://bucket/prefix"]%string in
  let s' := fst (Run.run_Part001 Scenario.surroundings fl Scenario.at_start) in
  Run.temps s' = 2%nat /\
  length (Run.removals s') = 2%nat /\
  In "/tmp/0"%string (Run.removals s') /\ In "/tmp/1"%string (Run.removals s').
Proof.
  intros fl s'.
  destruct (X8_temp_files_are_removed Scenario.surroundings fl Scenario.at_start s'
              (snd (Run.run_Part001 Scenario.surroundings fl Scenario.at_start)))
    as (_ & _ & H).
  - unfold s'. now destruct (Run.run_Part001 _ _ _).
  - apply CasesFacts.TempName_not_empty.
  - destruct H as [H1 H2].
    + vm_compute. discriminate.
    + vm_compute. discriminate.
    + split; [reflexivity|]. split; [exact H1|]. split.
      * apply (H2 0%nat). vm_compute. lia.
      * apply (H2 1%nat). vm_compute. lia.
Defined.

(** *** The list file of [-l] *)

Section ListFile.

Import Upload Run.

Variables (w : os_world) (fl : flags) (s : os_state) (arg0 : string) (dst : URL)
          (content : string).

Hypothesis Hargs : args fl = [arg0].
Hypothesis Hdst : ParseRequestURI w arg0 = Some dst.
Hypothesis Hgs : Scheme dst = "gs"%string.
Hypothesis Hd : flag_d fl = ""%string.
Hypothesis Hl : flag_l fl <> ""%string.
Hypothesis Hstdin : flag_l fl <> "-"%string.
Hypothesis Hdisk : disk s !! flag_l fl = Some content.

(** [run] of Part001 on a list file, without [-shuffle]. *)
Lemma run_Part001_list :
  flag_shuffle fl = false -> NewClient_ok w = true ->
  run_Part001 w fl s
  = (called (called (called s (ParseURI arg0)) (OpenFile (flag_l fl))) NewClient,
     inr {| cfg := {| rev := Part001; n := flag_n fl; verbose := flag_v fl;
                      gcInterval := flag_gc fl; bufSize := flag_buf fl;
                      src := flag_d fl; dest := dst; host := the_host w |};
            work := fst (bufio.ScanLines content);
            scanErr := snd (bufio.ScanLines content) |}).
Proof.
  intros Hsh Hnc. unfold run_Part001. rewrite Hargs, Hdst, Hgs, Hsh, Hnc.
  destruct (String.eqb_spec (flag_l fl) "") as [E|_]; [contradiction|].
  rewrite Hd. simpl.
  rewrite ListFileRunFacts.openFile_named by exact Hstdin.
  simpl. rewrite Hdisk.
  now destruct (bufio.ScanLines content).
Qed.

(** [run] of Part001 with [-shuffle] on a list file with a line that
    is too long. *)
Lemma run_Part001_shuffle_too_long :
  flag_shuffle fl = true -> snd (bufio.ScanLines content) = true ->
  run_Part001 w fl s
  = (called (called s (ParseURI arg0)) (OpenFile (flag_l fl)),
     inl (ShuffleListFileError ScanListFile)).
Proof.
  intros Hsh Hlong. unfold run_Part001. rewrite Hargs, Hdst, Hgs, Hsh.
  destruct (String.eqb_spec (flag_l fl) "") as [E|_]; [contradiction|].
  rewrite Hd. simpl. unfold shuffleListFile.
  rewrite ListFileRunFacts.openFile_named by exact Hstdin.
  simpl. rewrite Hdisk.
  destruct (bufio.ScanLines content) as [files tooLong]. simpl in Hlong.
  rewrite Hlong. reflexivity.
Qed.

(** X9.  A list file read with [-l] may end its lines with a carriage
    return and a newline, and may leave the last line without an end:
    the work list is the lines without their carriage returns, followed
    by the last line when it is not empty. *)
Theorem X9_list_file_line_endings (paths : list string) (last : string) :
  flag_shuffle fl = false -> NewClient_ok w = true ->
  Forall (fun q => bufio.no_newline q = true /\
                   (String.length q + 1 < bufio.MaxScanTokenSize)%nat) paths ->
  bufio.no_newline last = true ->
  (String.length last < bufio.MaxScanTokenSize)%nat ->
  content = lines (map (fun q => q +:+ String "013" "") paths) +:+ last ->
  exists s' p,
    run_Part001 w fl s = (s', inr p) /\
    work p = paths ++ (if String.eqb last "" then [] else [bufio.dropCR last]) /\
    scanErr p = false.
Proof.
  intros Hsh Hnc Hpaths Hnl Hlen Hc.
  rewrite (run_Part001_list Hsh Hnc). eexists _, _. split; [reflexivity|].
  assert (Hlast : bufio.ScanLines last
                  = (if String.eqb last "" then [] else [bufio.dropCR last], false)).
  { unfold bufio.ScanLines.
    now rewrite (ScannerFacts.ScanLines_from_last last "") by assumption. }
  simpl. rewrite Hc, ScannerFacts.ScanLines_lines_then.
  - rewrite Hlast. simpl. split; [|reflexivity].
    f_equal. rewrite map_map. rewrite <- (map_id paths) at 2.
    apply map_ext. intros q. apply ScannerFacts.dropCR_CR.
  - apply Forall_map. eapply Forall_impl; [exact Hpaths|].
    intros q [H1 H2]. simpl. split.
    + rewrite ScannerFacts.no_newline_app, H1. reflexivity.
    + rewrite ListFileFacts.length_append. simpl. lia.
Qed.

(** X10.  A line of 64 KiB or more in the list file.  With
    [-shuffle], [shuffleListFile] fails on it and [run] returns
    ["shuffle list file: scan list file"] after it has opened the list
    file, before any upload.  Without [-shuffle], the lines before it
    are the work list, the lines after it are never read, and once
    [eg.Wait()] has returned [run] returns the error of the uploads if
    there is one and ["scan list file"] otherwise. *)
Theorem X10_overlong_line_ends_the_list (paths : list string) (long rest : string) :
  Forall bufio.line_safe paths ->
  bufio.no_newline long = true ->
  String.length long = bufio.MaxScanTokenSize ->
  content = lines paths +:+ long +:+ rest ->
  (flag_shuffle fl = true ->
   run_Part001 w fl s
   = (called (called s (ParseURI arg0)) (OpenFile (flag_l fl)),
      inl (ShuffleListFileError ScanListFile))) /\
  (flag_shuffle fl = false -> NewClient_ok w = true ->
   exists s' p,
     run_Part001 w fl s = (s', inr p) /\
     work p = paths /\ scanErr p = true /\
     forall final,
       run_result p final
       = Some (match err (sh final) with
               | Some e => Uploads e
               | None => ScanError
               end)).
Proof.
  intros Hpaths Hnl Hlen Hc.
  assert (Hscan : bufio.ScanLines content = (paths, true)).
  { rewrite Hc, ScannerFacts.ScanLines_lines_then.
    - assert (Hover : bufio.ScanLines (long +:+ rest) = ([], true)).
      { unfold bufio.ScanLines. apply ScannerFacts.ScanLines_from_overlong;
          [exact Hnl|apply ScannerFacts.MaxScanTokenSize_pos|].
        rewrite Hlen. apply Nat.le_refl. }
      rewrite Hover. simpl. rewrite app_nil_r. f_equal.
      rewrite <- (map_id paths) at 2. apply map_ext_Forall.
      eapply Forall_impl; [exact Hpaths|]. intros q (_ & _ & Hq). exact Hq.
    - eapply Forall_impl; [exact Hpaths|]. intros q (H1 & H2 & _). auto. }
  split.
  - intros Hsh. apply run_Part001_shuffle_too_long; [exact Hsh|].
    now rewrite Hscan.
  - intros Hsh Hnc. rewrite (run_Part001_list Hsh Hnc).
    eexists _, _. split; [reflexivity|]. rewrite Hscan. simpl.
    split; [reflexivity|]. split; [reflexivity|].
    intros final. unfold run_result. simpl.
    now destruct (err (sh final)).
Qed.

End ListFile.

(** A list file written on Windows. *)
Lemma X9_list_file_line_endings_witness :
  exists s' p,
    Run.run_Part001 Scenario.surroundings
      (Scenario.flags_of "crlf.txt" "" false ["gs://bucket/prefix"]%string)
      Cases.with_lists = (s', inr p) /\
    Run.work p = ["a.txt"; "b/c.txt"; "d.bin"]%string /\
    Run.scanErr p = false.
Proof.
  refine (X9_list_file_line_endings Scenario.surroundings
            (Scenario.flags_of "crlf.txt" "" false ["gs://bucket/prefix"]%string)
            Cases.with_lists "gs://bucket/prefix" Scenario.bucket_prefix
            Cases.crlf_list _ _ _ _ _ _ _
            ["a.txt"; "b/c.txt"]%string "d.bin" _ _ _ _ _ _);
    try reflexivity; try discriminate.
  - repeat (apply List.Forall_cons;
            [split; [reflexivity|apply Nat.ltb_lt; vm_compute; reflexivity]|]).
    apply List.Forall_nil.
  - apply Nat.ltb_lt. vm_compute. reflexivity.
Defined.

(** The list file [long.txt] with [-shuffle]. *)
Lemma X10_overlong_line_ends_the_list_witness :
  Run.run_Part001 Scenario.surroundings
    (Scenario.flags_of "long.txt" "" true ["gs://bucket/prefix"]%string)
    Cases.with_lists
  = (Run.called (Run.called Cases.with_lists (Run.ParseURI "gs://bucket/prefix"))
       (Run.OpenFile "long.txt"),
     inl (Run.ShuffleListFileError Run.ScanListFile)).
Proof.
  refine (proj1 (X10_overlong_line_ends_the_list Scenario.surroundings
            (Scenario.flags_of "long.txt" "" true ["gs://bucket/prefix"]%string)
            Cases.with_lists "gs://bucket/prefix" Scenario.bucket_prefix
            Cases.long_list _ _ _ _ _ _ _
            ["a.txt"]%string Cases.long_line (Scenario.newline +:+ "d.bin") _ _ _ _) _);
    try reflexivity; try discriminate.
  - apply List.Forall_cons; [|apply List.Forall_nil].
    split; [reflexivity|]. split; [|reflexivity].
    apply Nat.ltb_lt. vm_compute. reflexivity.
Defined.

(** X11.  The main loop hands the items to [eg.Go] in the order of
    the work list: at every moment the items not yet submitted are a
    tail of the list, and the next [eg.Go] starts the first of them. *)
Theorem X11_items_are_submitted_in_order
    (w : Upload.world) (cfg : Upload.settings) (files : list string)
    (s : Upload.state) :
  Upload.reachable w cfg files s ->
  (forall i j ti tj, (i < j)%nat ->
     Upload.tasks s !! i = Some ti -> Upload.tasks s !! j = Some tj ->
     Upload.is_queued ti = true -> Upload.is_queued tj = true) /\
  (forall s', Upload.apply_event w cfg Upload.Go s = Some s' ->
     exists i t,
       Upload.tasks s !! i = Some t /\ files !! i = Some (Upload.file t) /\
       Upload.tasks s' = <[i := Upload.goto t Upload.AtSelect]> (Upload.tasks s) /\
       (forall j tj, (j < i)%nat -> Upload.tasks s !! j = Some tj ->
          Upload.is_queued tj = false) /\
       (forall j tj, (i <= j)%nat -> Upload.tasks s !! j = Some tj ->
          Upload.is_queued tj = true)).
Proof.
  intros Hreach.
  pose proof (PoolFacts.reachable_in_order _ _ _ _ Hreach) as Ho.
  destruct (UploadFacts.reachable_structure _ _ _ _ Hreach) as (_ & _ & Hmap & _).
  split; [exact Ho|].
  intros s' Hgo. unfold Upload.apply_event in Hgo.
  destruct (Upload.panicked (Upload.sh s)); [discriminate|].
  apply UploadFacts.go_inv in Hgo as (i & t & Hq & Hl & Hat & _ & ->).
  exists i, t. split; [exact Hl|]. split.
  { rewrite <- Hmap. rewrite list_lookup_fmap, Hl. reflexivity. }
  split; [reflexivity|]. split.
  - intros j tj Hj Htj. eapply PoolFacts.next_queued_first; eauto.
  - intros j tj Hj Htj.
    assert (Hqt : Upload.is_queued t = true)
      by (unfold Upload.is_queued; now rewrite Hat).
    destruct (decide (i = j)) as [->|Hne]; [congruence|].
    eapply (Ho i j); eauto. lia.
Qed.

(** After the first task of the scenario has started, the next one submitted is the second. *)
Lemma X11_items_are_submitted_in_order_witness :
  let cfg := Scenario.settings_of Upload.MainB false 0 in
  let s := Scenario.outcome Scenario.fair_weather cfg
             (Scenario.submit_and_run 0 3) Scenario.three_files in
  exists i t,
    Upload.tasks s !! i = Some t /\
    Scenario.three_files !! i = Some (Upload.file t) /\
    i = 1%nat.
Proof.
  intros cfg s.
  destruct (proj2 (X11_items_are_submitted_in_order Scenario.fair_weather cfg
                     Scenario.three_files s
                     ltac:(exists (Scenario.submit_and_run 0 3); vm_compute; reflexivity))
              (Scenario.outcome Scenario.fair_weather cfg
                 (Scenario.submit_and_run 0 3 ++ [Upload.Go]) Scenario.three_files))
    as (i & t & H1 & H2 & _ & H3 & H4).
  - vm_compute. reflexivity.
  - exists i, t. split; [exact H1|]. split; [exact H2|].
    destruct i as [|[|i]]; [| reflexivity|].
    + specialize (H4 O _ ltac:(lia) eq_refl). vm_compute in H4. discriminate.
    + specialize (H3 1%nat _ ltac:(lia) eq_refl). vm_compute in H3. discriminate.
Defined.



(** X13.  With [-n 0] the first [eg.Go] blocks for ever: no goroutine
    is ever started, no call is made, and with a work list that is not
    empty [eg.Wait()] is never reached. *)
Theorem X13_limit_zero_starts_nothing
    (w : Upload.world) (cfg : Upload.settings) (files : list string)
    (s : Upload.state) :
  Upload.n cfg = 0 ->
  Upload.reachable w cfg files s ->
  s = Upload.init files /\
  Upload.apply_event w cfg Upload.Go s = None /\
  (forall i, Upload.apply_event w cfg (Upload.Run i) s = None) /\
  (files <> [] -> Upload.finished s = false).
Proof.
  intros Hn Hreach.
  pose proof (PoolFacts.reachable_idle _ _ _ _ Hn Hreach) as ->.
  split; [reflexivity|]. split; [|split].
  - destruct (Upload.apply_event w cfg Upload.Go (Upload.init files)) as [s'|] eqn:H;
      [|reflexivity].
    unfold Upload.apply_event in H. simpl in H.
    apply UploadFacts.go_inv in H as (i & t & _ & _ & _ & Hadm & _).
    unfold Upload.admits in Hadm. rewrite Hn in Hadm.
    assert (Hrun : Upload.running (Upload.tasks (Upload.init files)) = O).
    { unfold Upload.running. apply UploadFacts.tally_none. simpl.
      clear. induction files; simpl; constructor; auto. }
    rewrite Hrun in Hadm. discriminate.
  - intros i.
    destruct (Upload.apply_event w cfg (Upload.Run i) (Upload.init files)) as [s'|] eqn:H;
      [|reflexivity].
    unfold Upload.apply_event in H. simpl in H.
    apply UploadFacts.exec_inv in H as (t & t' & g' & Hl & Hr & _).
    simpl in Hl. rewrite list_lookup_fmap in Hl.
    destruct (files !! i); [|discriminate]. injection Hl as <-. discriminate.
  - intros Hne. destruct files; [contradiction|reflexivity].
Qed.

(** The scenario with [-n 0]. *)
Lemma X13_limit_zero_starts_nothing_witness :
  let cfg := Scenario.limit_to 0 (Scenario.settings_of Upload.Part001 false 0) in
  Upload.apply_event Scenario.fair_weather cfg Upload.Go
    (Upload.init Scenario.three_files) = None /\
  Upload.finished (Upload.init Scenario.three_files) = false.
Proof.
  intros cfg.
  destruct (X13_limit_zero_starts_nothing Scenario.fair_weather cfg
              Scenario.three_files (Upload.init Scenario.three_files))
    as (_ & H1 & _ & H2).
  - reflexivity.
  - exists []. reflexivity.
  - split; [exact H1|]. apply H2. discriminate.
Defined.

(** X14.  The error of the group is the error of the first goroutine
    that ended with one: once it is recorded the context is cancelled,
    no later failure replaces it, and it is the error [run] returns
    (["uploads: ..."]), whatever the scanner reports. *)
Theorem X14_first_error_is_kept
    (w : Upload.world) (cfg : Upload.settings) (files : list string)
    (s : Upload.state) (x : Upload.task_error) :
  Upload.reachable w cfg files s ->
  Upload.err (Upload.sh s) = Some x ->
  Upload.ctxDone (Upload.sh s) = true /\
  (exists i t, Upload.tasks s !! i = Some t /\
               Upload.at_ t = Upload.Done (Upload.Failed x)) /\
  forall es s', Upload.run_events w cfg es s = Some s' ->
    Upload.err (Upload.sh s') = Some x /\
    forall p, Run.run_result p s' = Some (Run.Uploads x).
Proof.
  intros Hreach Hx.
  destruct (UploadFacts.reachable_cancelling _ _ _ _ Hreach) as (Hiff & _ & _).
  split; [apply Hiff; congruence|].
  split; [now apply (PoolFacts.reachable_blaming _ _ _ _ Hreach)|].
  intros es s' Hrun.
  pose proof (PoolFacts.err_kept_run _ _ _ _ _ _ Hrun Hx) as Hx'.
  split; [exact Hx'|]. intros p. unfold Run.run_result. now rewrite Hx'.
Qed.

(** The scenario when the first file cannot be opened. *)
Lemma X14_first_error_is_kept_witness :
  let w := Scenario.first_open_fails in
  let cfg := Scenario.settings_of Upload.Part001 true 0 in
  let s := Scenario.outcome w cfg
             [Upload.Go; Upload.Go; Upload.Run 0; Upload.Run 0; Upload.Run 0]
             Scenario.three_files in
  Upload.ctxDone (Upload.sh s) = true /\
  Upload.err (Scenario.outcome w cfg
                 ([Upload.Go; Upload.Go; Upload.Run 0; Upload.Run 0; Upload.Run 0]
                  ++ [Upload.Run 1; Upload.Run 1; Upload.Go; Upload.Run 2; Upload.Run 2])
                 Scenario.three_files).(Upload.sh)
  = Some (Upload.OpenUploadFile "data/a.txt").
Proof.
  intros w cfg s.
  destruct (X14_first_error_is_kept w cfg Scenario.three_files s
              (Upload.OpenUploadFile "data/a.txt")) as (H1 & _ & H2).
  - exists [Upload.Go; Upload.Go; Upload.Run 0; Upload.Run 0; Upload.Run 0].
    vm_compute. reflexivity.
  - vm_compute. reflexivity.
  - split; [exact H1|].
    refine (proj1 (H2 [Upload.Run 1; Upload.Run 1; Upload.Go; Upload.Run 2; Upload.Run 2] _ _)).
    vm_compute. reflexivity.
Defined.

(** X15.  The values [count.Add(1)] returned to the tasks that have
    executed it are the numbers from 1 to the counter, each one once:
    no two uploads are given the same running number. *)
Theorem X15_running_numbers_are_one_to_count
    (w : Upload.world) (cfg : Upload.settings) (files : list string)
    (s : Upload.state) :
  Upload.reachable w cfg files s ->
  map Upload.c (List.filter (Upload.counted cfg) (Upload.tasks s))
    ≡ₚ seqZ 1 (Upload.count (Upload.sh s)) /\
  NoDup (map Upload.c (List.filter (Upload.counted cfg) (Upload.tasks s))).
Proof.
  intros Hreach.
  destruct (PoolFacts.reachable_numbering _ _ _ _ Hreach) as [_ Hp].
  split; [exact Hp|]. rewrite Hp. apply NoDup_seqZ.
Qed.

(** The scenario, two goroutines at a time. *)
Lemma X15_running_numbers_are_one_to_count_witness :
  let cfg := Scenario.settings_of Upload.MainB true 0 in
  let s := Scenario.outcome Scenario.fair_weather cfg
             Scenario.two_at_a_time Scenario.three_files in
  map Upload.c (List.filter (Upload.counted cfg) (Upload.tasks s)) ≡ₚ [1; 2; 3].
Proof.
  intros cfg s.
  refine (proj1 (X15_running_numbers_are_one_to_count Scenario.fair_weather cfg
                   Scenario.three_files s _)).
  exists Scenario.two_at_a_time. vm_compute. reflexivity.
Defined.

(** X16.  The running number of a log line fits its column.  The
    number is between 1 and the number of work items, so in Part000,
    MainA and MainB, where the column is as wide as the number of files
    has digits, [%*d] prints exactly that many bytes.  In Part001 [%7d]
    prints exactly 7 bytes up to the upload number 9999999, and more
    from then on. *)
Theorem X16_count_column_is_aligned
    (w : Upload.world) (cfg : Upload.settings) (files : list string)
    (s : Upload.state) (t : Upload.task) :
  Upload.reachable w cfg files s ->
  In t (Upload.tasks s) ->
  Upload.counted cfg t = true ->
  let width := Upload.countWidth (Upload.rev cfg) (length files) in
  1 <= Upload.c t <= Z.of_nat (length files) /\
  (Upload.rev cfg <> Upload.Part001 ->
   String.length (fmt.pad_d width (Upload.c t)) = width) /\
  (Upload.rev cfg = Upload.Part001 ->
   width = 7%nat /\
   (Upload.c t < 10 ^ 7 -> String.length (fmt.pad_d width (Upload.c t)) = 7%nat) /\
   (10 ^ 7 <= Upload.c t -> (7 < String.length (fmt.pad_d width (Upload.c t)))%nat)).
Proof.
  intros Hreach Hin Hc width.
  destruct (UploadFacts.reachable_counting _ _ _ _ Hreach) as [Hcount Hrange].
  destruct (UploadFacts.reachable_structure _ _ _ _ Hreach) as (_ & _ & Hmap & _).
  pose proof (proj1 (Forall_forall _ _) Hrange t (proj2 (list_elem_of_In _ _) Hin) Hc)
    as Hct.
  assert (Hlen : length (Upload.tasks s) = length files)
    by (rewrite <- Hmap; now rewrite length_map).
  pose proof (WidthFacts.tally_le_length (Upload.counted cfg) (Upload.tasks s)) as Hle.
  assert (Hn : 1 <= Upload.c t <= Z.of_nat (length files)) by lia.
  split; [exact Hn|]. split.
  - intros Hrev. apply WidthFacts.length_pad_d. unfold width, Upload.countWidth.
    destruct (Upload.rev cfg); try contradiction;
      apply WidthFacts.Itoa_length_le; lia.
  - intros Hrev. unfold width. rewrite Hrev. split; [reflexivity|]. split.
    + intros Hlt. apply WidthFacts.length_pad_d.
      apply (WidthFacts.Itoa_length_below _ 7). simpl Z.of_nat. lia.
    + intros Hge. unfold fmt.pad_d.
      rewrite ListFileFacts.length_append, WidthFacts.length_spaces.
      pose proof (WidthFacts.Itoa_bounds (Upload.c t) ltac:(lia)) as Hb.
      destruct (Nat.le_gt_cases (String.length (GoStrconv.Itoa (Upload.c t))) 7)
        as [H|H]; [exfalso|simpl; lia].
      assert (10 ^ Z.of_nat (String.length (GoStrconv.Itoa (Upload.c t)))
              <= 10 ^ Z.of_nat 7) by (apply Z.pow_le_mono_r; lia).
      simpl Z.of_nat in *. lia.
Qed.

(** Three files: a column of one byte. *)
Lemma X16_count_column_is_aligned_witness :
  Upload.c Cases.second_task = 2 /\
  String.length (fmt.pad_d (Upload.countWidth Upload.MainB 3) 2) = 1%nat.
Proof.
  split; [reflexivity|].
  refine (proj1 (proj2 (X16_count_column_is_aligned Scenario.fair_weather
            (Scenario.settings_of Upload.MainB true 0) Scenario.three_files
            (Scenario.outcome Scenario.fair_weather
               (Scenario.settings_of Upload.MainB true 0)
               Scenario.one_by_one Scenario.three_files)
            Cases.second_task _ _ _)) _).
  - exists Scenario.one_by_one. vm_compute. reflexivity.
  - vm_compute. auto.
  - vm_compute. reflexivity.
  - discriminate.
Defined.

(** X17.  The calls of [io.CopyBuffer] made so far are one for each
    task that is past that statement, from the local path of its item
    to the object name of its item.  When [eg.Wait()] returns [nil],
    they are one for each item of the work list: nothing is copied
    twice, nothing is left out. *)
Theorem X17_every_item_copied_once
    (w : Upload.world) (cfg : Upload.settings) (files : list string)
    (s : Upload.state) :
  Upload.reachable w cfg files s ->
  map Some (Ledger.copies (Upload.sh s))
    ≡ₚ map (fun t => Ledger.upload_of cfg (Upload.file t))
         (List.filter Ledger.copied (Upload.tasks s)) /\
  (Upload.finished s = true -> Upload.err (Upload.sh s) = None ->
   map Some (Ledger.copies (Upload.sh s)) ≡ₚ map (Ledger.upload_of cfg) files).
Proof.
  intros Hreach.
  destruct (LedgerFacts.reachable_ledger _ _ _ _ Hreach) as [Hc Hn].
  destruct (UploadFacts.reachable_structure _ _ _ _ Hreach) as (_ & _ & Hmap & _).
  assert (Hgen : map Some (Ledger.copies (Upload.sh s))
    ≡ₚ map (fun t => Ledger.upload_of cfg (Upload.file t))
         (List.filter Ledger.copied (Upload.tasks s))).
  { rewrite Hc, map_map. apply Permutation_refl'.
    apply map_ext_in. intros t Ht. apply filter_In in Ht as [Ht Hcop].
    pose proof (proj1 (Forall_forall _ _) Hn t (proj2 (list_elem_of_In _ _) Ht)) as Hnm.
    unfold Ledger.upload_of. rewrite Hnm; [reflexivity|].
    unfold Ledger.copied, Ledger.has_name in *.
    destruct (Upload.at_ t); try discriminate; auto. }
  split; [exact Hgen|].
  intros Hfin Herr. rewrite Hgen.
  pose proof (LedgerFacts.clean_finish_all_copied _ _ _ _ Hreach Hfin Herr) as Hall.
  rewrite LedgerFacts.filter_all.
  - rewrite <- Hmap, map_map. reflexivity.
  - eapply Forall_impl; [exact Hall|]. simpl. tauto.
Qed.

(** The scenario, two goroutines at a time. *)
Lemma X17_every_item_copied_once_witness :
  let cfg := Scenario.settings_of Upload.MainB false 0 in
  let s := Scenario.outcome Scenario.fair_weather cfg
             Scenario.two_at_a_time Scenario.three_files in
  map Some (Ledger.copies (Upload.sh s))
  ≡ₚ [Some (Upload.CopyBuffer "prefix/a.txt" "data/a.txt");
      Some (Upload.CopyBuffer "prefix/b/c.txt" "data/b/c.txt");
      Some (Upload.CopyBuffer "prefix/d.bin" "data/d.bin")].
Proof.
  intros cfg s.
  refine (proj2 (X17_every_item_copied_once Scenario.fair_weather cfg
                   Scenario.three_files s _) _ _).
  - exists Scenario.two_at_a_time. vm_compute. reflexivity.
  - vm_compute. reflexivity.
  - vm_compute. reflexivity.
Defined.

(** X18.  The deferred calls balance the calls.  At any moment there
    are at most as many [r.Close()] as [os.Open], as many copies as
    writers, as many writers as [os.Open], one [os.Open] per item at
    most, and at most two [w.Close()] per writer; and unless the slice
    expression [dest.Path[1:]] can panic, at most as many [r.Close()] as
    writers.  When [eg.Wait()] returns, there were as many [r.Close()]
    as writers (one for each file that was opened), every writer has
    been used for one copy and closed at least once; and when it
    returns [nil], every item was opened, copied and closed once and
    its writer closed twice (by the statement [w.Close()] and by the
    deferred one). *)
Theorem X18_every_opened_file_is_closed
    (w : Upload.world) (cfg : Upload.settings) (files : list string)
    (s : Upload.state) :
  Upload.reachable w cfg files s ->
  let opens := Calls.calls Calls.is_open (Upload.sh s) in
  let writers := Calls.calls Calls.is_new_writer (Upload.sh s) in
  let copies := Calls.calls Ledger.is_copy (Upload.sh s) in
  let writer_closes := Calls.calls Calls.is_writer_close (Upload.sh s) in
  let file_closes := Calls.calls Calls.is_file_close (Upload.sh s) in
  ((file_closes <= opens)%nat /\ (copies <= writers)%nat /\
   (writers <= opens)%nat /\ (opens <= length files)%nat /\
   (writer_closes <= 2 * writers)%nat) /\
  (Upload.rev cfg = Upload.Part000 \/
   Upload.Path (Upload.dest cfg) <> EmptyString ->
   (file_closes <= writers)%nat) /\
  (Upload.finished s = true ->
   file_closes = writers /\ copies = writers /\
   (writers <= writer_closes)%nat) /\
  (Upload.finished s = true -> Upload.err (Upload.sh s) = None ->
   opens = length files /\ writers = length files /\ copies = length files /\
   file_closes = length files /\ writer_closes = (2 * length files)%nat).
Proof.
  intros Hreach. cbv zeta.
  destruct (CallsFacts.reachable_balanced _ _ _ _ Hreach)
    as (Hret & -> & -> & -> & -> & ->).
  destruct (UploadFacts.reachable_structure _ _ _ _ Hreach) as (Hok & _ & Hmap & _).
  assert (Hlen : length (Upload.tasks s) = length files)
    by (rewrite <- Hmap; now rewrite length_map).
  split; [|split; [|split]].
  - repeat split.
    + apply CallsFacts.total_le. apply Forall_forall. intros t _.
      CallsFacts.by_statement t.
    + apply CallsFacts.total_le. apply Forall_forall. intros t _.
      CallsFacts.by_statement t.
    + apply CallsFacts.total_le. apply Forall_forall. intros t _.
      CallsFacts.by_statement t.
    + rewrite <- Hlen.
      rewrite <- (Nat.mul_1_l (length (Upload.tasks s))).
      rewrite <- (CallsFacts.total_const 1 (fun _ => 1%nat))
        by (apply Forall_forall; auto).
      apply CallsFacts.total_le. apply Forall_forall. intros t _.
      CallsFacts.by_statement t.
    + apply CallsFacts.total_double. apply Forall_forall. intros t _.
      CallsFacts.by_statement t.
  - intros Hin. apply CallsFacts.total_le.
    eapply Forall_impl; [exact (CrashFacts.reachable_in_range _ _ _ _ Hin Hreach)|].
    intros t Ht. simpl in Ht. CallsFacts.by_statement t.
  - intros Hfin. unfold Upload.finished in Hfin. rewrite forallb_forall in Hfin.
    assert (Hd : Forall (fun t => exists r, Upload.at_ t = Upload.Done r) (Upload.tasks s)).
    { apply Forall_forall. intros t Ht.
      specialize (Hfin t (proj1 (list_elem_of_In _ _) Ht)).
      unfold Upload.is_done in Hfin. destruct (Upload.at_ t); try discriminate. eauto. }
    split; [|split].
    + apply CallsFacts.total_ext. eapply Forall_impl; [exact Hd|].
      intros t [r Hr]. unfold Calls.file_closes, Calls.writers. now rewrite Hr.
    + apply CallsFacts.total_ext. eapply Forall_impl; [exact Hd|].
      intros t [r Hr]. unfold Ledger.copied, Calls.writers. now rewrite Hr.
    + apply CallsFacts.total_le. eapply Forall_impl; [exact Hd|].
      intros t [r Hr]. unfold Calls.writer_closes, Calls.writers. rewrite Hr. lia.
  - intros Hfin Herr.
    pose proof (LedgerFacts.clean_finish_all_copied _ _ _ _ Hreach Hfin Herr) as Hall.
    unfold Upload.finished in Hfin. rewrite forallb_forall in Hfin.
    assert (Hd : Forall (fun t => Upload.at_ t = Upload.Done Upload.Uploaded)
                   (Upload.tasks s)).
    { apply Forall_forall. intros t Ht.
      pose proof (Hfin t (proj1 (list_elem_of_In _ _) Ht)) as Hdone.
      destruct (UploadFacts.reachable_cancelling _ _ _ _ Hreach) as (Hiff & Hsk & Hfa).
      pose proof (proj1 (Forall_forall _ _) Hsk t Ht) as H1.
      pose proof (proj1 (Forall_forall _ _) Hfa t Ht) as H2.
      unfold Upload.is_done, Upload.skipped, Upload.failed in *.
      destruct (Upload.at_ t) as [| | | | | | | | | | | |r|v]; try discriminate.
      destruct r as [| |e]; [reflexivity| |].
      - specialize (H1 eq_refl). apply Hiff in H1. contradiction.
      - specialize (H2 eq_refl). contradiction. }
    rewrite <- Hlen. repeat split.
    + rewrite (CallsFacts.total_const 1); [lia|].
      eapply Forall_impl; [exact Hd|]. intros t Ht. unfold Calls.opens. now rewrite Ht.
    + rewrite (CallsFacts.total_const 1); [lia|].
      eapply Forall_impl; [exact Hd|]. intros t Ht. unfold Calls.writers. now rewrite Ht.
    + rewrite (CallsFacts.total_const 1); [lia|].
      eapply Forall_impl; [exact Hd|]. intros t Ht. unfold Ledger.copied. now rewrite Ht.
    + rewrite (CallsFacts.total_const 1); [lia|].
      eapply Forall_impl; [exact Hd|]. intros t Ht. unfold Calls.file_closes. now rewrite Ht.
    + rewrite (CallsFacts.total_const 2); [lia|].
      eapply Forall_impl; [exact Hd|]. intros t Ht. unfold Calls.writer_closes. now rewrite Ht.
Qed.

(** The scenario, two goroutines at a time. *)
Lemma X18_every_opened_file_is_closed_witness :
  let cfg := Scenario.settings_of Upload.Part001 false 0 in
  let s := Scenario.outcome Scenario.fair_weather cfg
             Scenario.two_at_a_time Scenario.three_files in
  Calls.calls Calls.is_open (Upload.sh s) = 3%nat /\
  Calls.calls Calls.is_file_close (Upload.sh s) = 3%nat /\
  Calls.calls Calls.is_writer_close (Upload.sh s) = 6%nat.
Proof.
  intros cfg s.
  destruct (X18_every_opened_file_is_closed Scenario.fair_weather cfg
              Scenario.three_files s) as (_ & _ & _ & H).
  - exists Scenario.two_at_a_time. vm_compute. reflexivity.
  - destruct H as (H1 & _ & _ & H4 & H5).
    + vm_compute. reflexivity.
    + vm_compute. reflexivity.
    + split; [exact H1|]. split; [exact H4|exact H5].
Defined.

(** X19.  Part000, MainA and MainB from end to end: when [run] gets to
    the uploads and [eg.Wait()] returns [nil], the copies made are one
    for each file [fs.WalkDir] enumerated, from its local path to its
    object name, and [run] returns [nil]. *)
Theorem X19_walked_files_are_copied_once
    (r : Upload.revision) (w : Run.os_world) (fl : Run.flags)
    (s s' : Run.os_state) (p : Run.plan) (arg0 arg1 : string)
    (world : Upload.world) (final : Upload.state) :
  Run.args fl = [arg0; arg1] ->
  Run.run_walk r w fl s = (s', inr (Some p)) ->
  Upload.reachable world (Run.cfg p) (Run.work p) final ->
  Upload.finished final = true ->
  Upload.err (Upload.sh final) = None ->
  map Some (Ledger.copies (Upload.sh final))
    ≡ₚ map (Ledger.upload_of (Run.cfg p)) (fst (Run.WalkDir w arg0)) /\
  Run.run_result p final = None.
Proof.
  intros Hargs Hrun Hreach Hfin Herr.
  destruct (RunFacts.run_walk_plan _ _ _ _ _ _ Hrun)
    as (a0 & a1 & files & Ha & Hwalk & _ & Hperm & _ & _ & _ & _ & Hscan).
  rewrite Hargs in Ha. injection Ha as <- <-. rewrite Hwalk. simpl.
  destruct (LedgerFacts.reachable_ledger _ _ _ _ Hreach) as [Hc Hn].
  destruct (UploadFacts.reachable_structure _ _ _ _ Hreach) as (_ & _ & Hmap & _).
  pose proof (LedgerFacts.clean_finish_all_copied _ _ _ _ Hreach Hfin Herr) as Hall.
  split.
  - rewrite Hperm, <- Hmap, Hc, !map_map.
    rewrite LedgerFacts.filter_all
      by (eapply Forall_impl; [exact Hall|]; simpl; tauto).
    apply Permutation_refl'. apply map_ext_in. intros t Ht.
    apply list_elem_of_In in Ht.
    pose proof (proj1 (Forall_forall _ _) Hall t Ht) as [_ Hnm].
    pose proof (proj1 (Forall_forall _ _) Hn t Ht Hnm) as Hname.
    unfold Ledger.upload_of. now rewrite Hname.
  - unfold Run.run_result. now rewrite Herr, Hscan.
Qed.

(** The scenario in MainB. *)
Lemma X19_walked_files_are_copied_once_witness :
  let fl := Scenario.flags_of "" "" false ["data"; "gs://bucket/prefix"]%string in
  let r := Run.run_walk Upload.MainB Scenario.surroundings fl Scenario.at_start in
  exists p,
    snd r = inr (Some p) /\
    let final := Scenario.outcome Scenario.fair_weather (Run.cfg p)
                   Scenario.one_by_one (Run.work p) in
    map Some (Ledger.copies (Upload.sh final))
      ≡ₚ map (Ledger.upload_of (Run.cfg p)) Scenario.three_files /\
    Run.run_result p final = None.
Proof.
  intros fl r.
  destruct r as [s' [e|[p|]]] eqn:Hr;
    try (vm_compute in Hr; discriminate).
  exists p. split; [reflexivity|]. intros final.
  pose proof Hr as Hp. vm_compute in Hp. injection Hp as _ Hp.
  apply (X19_walked_files_are_copied_once Upload.MainB Scenario.surroundings fl
           Scenario.at_start s' p "data" "gs://bucket/prefix"
           Scenario.fair_weather final).
  - reflexivity.
  - exact Hr.
  - exists Scenario.one_by_one. unfold final. rewrite <- Hp. vm_compute. reflexivity.
  - unfold final. rewrite <- Hp. vm_compute. reflexivity.
  - unfold final. rewrite <- Hp. vm_compute. reflexivity.
Defined.

(** X20.  A destination without a path ([gs://bucket]).  From MainA
    on the closure takes [dest.Path[1:]], which is out of range on the
    empty string: a task whose [os.Open] succeeded panics at its next
    statement, its deferred [r.Close()] runs, and the process ends.  So
    in every state of every run the only calls made are calls of
    [os.Open] and of [r.Close()]: no writer is created, nothing is
    copied, counted or printed. *)
Theorem X20_empty_destination_path_panics
    (w : Upload.world) (cfg : Upload.settings) (files : list string)
    (s : Upload.state) :
  Upload.rev cfg <> Upload.Part000 ->
  Upload.Path (Upload.dest cfg) = EmptyString ->
  Upload.reachable w cfg files s ->
  (forall e, In e (Upload.io (Upload.sh s)) ->
     exists p, e = Upload.OsOpen p \/ e = Upload.FileClose p) /\
  Upload.count (Upload.sh s) = 0 /\
  Upload.logged (Upload.sh s) = [] /\
  (forall i t,
     Upload.tasks s !! i = Some t -> Upload.at_ t = Upload.AtNewWriter ->
     Upload.panicked (Upload.sh s) = false ->
     exists s1 s2 s3,
       Upload.apply_event w cfg (Upload.Run i) s = Some s1 /\
       Upload.apply_event w cfg (Upload.Run i) s1 = Some s2 /\
       Upload.apply_event w cfg (Upload.Run i) s2 = Some s3 /\
       Upload.tasks s1 !! i
         = Some (Upload.goto t (Upload.Panicking Upload.SliceBounds)) /\
       Upload.io (Upload.sh s1) = Upload.io (Upload.sh s) /\
       Upload.panicked (Upload.sh s1) = false /\
       Upload.io (Upload.sh s2)
         = Upload.FileClose (Upload.localPath cfg (Upload.file t))
           :: Upload.io (Upload.sh s) /\
       Upload.panicked (Upload.sh s2) = false /\
       Upload.io (Upload.sh s3) = Upload.io (Upload.sh s2) /\
       Upload.panicked (Upload.sh s3) = true /\
       forall e, Upload.apply_event w cfg e s3 = None).
Proof.
  intros Hrev Hpath Hreach.
  destruct (CrashFacts.reachable_nameless _ _ _ _ Hrev Hpath Hreach) as [Ht Hio].
  destruct (UploadFacts.reachable_counting _ _ _ _ Hreach) as [Hcount _].
  destruct (UploadFacts.reachable_logging _ _ _ _ Hreach) as (Hlen & _ & _).
  assert (Hup : Forall (fun t => Upload.uploaded t = false) (Upload.tasks s)).
  { eapply Forall_impl; [exact Ht|]. intros t Hb.
    unfold Watch.before_name, Upload.uploaded in *.
    destruct (Upload.at_ t) as [| | | | | | | | | | |r|r|v];
      try reflexivity; try contradiction;
      destruct Hb as [Hw _]; destruct r as [| |e]; try discriminate; reflexivity. }
  assert (Hcnt : Forall (fun t => Upload.counted cfg t = false) (Upload.tasks s)).
  { eapply Forall_impl; [exact Ht|]. intros t Hb.
    unfold Watch.before_name, Upload.counted, Upload.uploaded in *.
    destruct (Upload.rev cfg); [contradiction|..];
    destruct (Upload.at_ t) as [| | | | | | | | | | |r|r|v];
      try reflexivity; try contradiction;
      destruct Hb as [Hw _]; destruct r as [| |e]; try discriminate; reflexivity. }
  split; [|split; [|split]].
  - intros e He. rewrite forallb_forall in Hio. specialize (Hio e He).
    destruct e; try discriminate; eauto.
  - rewrite Hcount, UploadFacts.tally_none; [reflexivity|exact Hcnt].
  - rewrite UploadFacts.tally_none in Hlen by exact Hup.
    destruct (Upload.verbose cfg); now destruct (Upload.logged (Upload.sh s)).
  - intros i t Hl Hat Hp.
    pose proof (Forall_lookup_1 _ _ _ _ Ht Hl) as Hb.
    unfold Watch.before_name in Hb. rewrite Hat in Hb.
    assert (Hname : Upload.objectName (Upload.rev cfg)
                      (filepath.Separator (Upload.host cfg))
                      (Upload.Path (Upload.dest cfg)) (Upload.file t) = None).
    { rewrite Hpath. destruct (Upload.rev cfg); [contradiction|reflexivity..]. }
    destruct (CrashFacts.run_task w cfg i s t Hp Hl) as (s1 & E1 & T1 & L1 & G1).
    { unfold Upload.runnable. now rewrite Hat. }
    unfold Upload.step_task in T1, G1. rewrite Hat, Hname in T1, G1.
    simpl in T1, G1.
    assert (P1 : Upload.panicked (Upload.sh s1) = false) by (now rewrite G1).
    destruct (CrashFacts.run_task w cfg i s1 _ P1 T1 eq_refl)
      as (s2 & E2 & T2 & L2 & G2).
    unfold Upload.step_task in T2, G2. simpl in T2, G2. rewrite Hb in T2, G2.
    simpl in T2, G2.
    assert (P2 : Upload.panicked (Upload.sh s2) = false)
      by (rewrite G2, G1; exact Hp).
    destruct (CrashFacts.run_task w cfg i s2 _ P2 T2 eq_refl)
      as (s3 & E3 & T3 & L3 & G3).
    unfold Upload.step_task in G3. simpl in G3.
    exists s1, s2, s3. rewrite G3, G2, G1. simpl.
    repeat split; auto.
    intros e. unfold Upload.apply_event. now rewrite G3.
Qed.

(** One file, destination [gs://bucket]: the file is opened and closed,
    and the process ends. *)
Lemma X20_empty_destination_path_panics_witness :
  let cfg := Cases.sent_to Cases.bucket_only
               (Scenario.settings_of Upload.Part001 false 0) in
  let s := Scenario.outcome Scenario.fair_weather cfg
             [Upload.Go; Upload.Run 0; Upload.Run 0] ["a.txt"]%string in
  Upload.io (Upload.sh s) = [Upload.OsOpen "data/a.txt"] /\
  exists s1 s2 s3,
    Upload.apply_event Scenario.fair_weather cfg (Upload.Run 0) s = Some s1 /\
    Upload.apply_event Scenario.fair_weather cfg (Upload.Run 0) s1 = Some s2 /\
    Upload.apply_event Scenario.fair_weather cfg (Upload.Run 0) s2 = Some s3 /\
    Upload.io (Upload.sh s3)
      = [Upload.FileClose "data/a.txt"; Upload.OsOpen "data/a.txt"] /\
    Upload.panicked (Upload.sh s3) = true.
Proof.
  intros cfg s. split; [reflexivity|].
  destruct (X20_empty_destination_path_panics Scenario.fair_weather cfg
              ["a.txt"]%string s) as (_ & _ & _ & H).
  - discriminate.
  - reflexivity.
  - exists [Upload.Go; Upload.Run 0; Upload.Run 0]. vm_compute. reflexivity.
  - destruct (H O (Upload.goto (Upload.defer (Upload.new_task "a.txt")
                                  Upload.DeferFileClose) Upload.AtNewWriter))
      as (s1 & s2 & s3 & E1 & E2 & E3 & _ & _ & _ & H2 & _ & H3 & H4 & _).
    + vm_compute. reflexivity.
    + reflexivity.
    + vm_compute. reflexivity.
    + exists s1, s2, s3. repeat split; try assumption.
      rewrite H3, H2. reflexivity.
Defined.

(** X21.  A buffer size of zero ([-buf 0] in MainB and Part001), or
    one that [make] refuses (negative, or above the allocation limit,
    which every [uint64] from [2^63] on is).  [io.CopyBuffer] panics on
    a buffer of length 0 and [make] on a length out of range, so a task
    panics at its copy (at its [Get] when no buffer can be made), its
    deferred calls run ([Put] if it has a buffer, [w.Close()], which
    completes an object nothing was copied to, and [r.Close()]), and
    the process ends: nothing is ever copied, counted or printed. *)
Theorem X21_empty_buffer_panics
    (w : Upload.world) (cfg : Upload.settings) (files : list string)
    (s : Upload.state) :
  Upload.bufSize cfg <= 0 \/ Upload.maxAlloc < Upload.bufSize cfg ->
  Upload.reachable w cfg files s ->
  Ledger.copies (Upload.sh s) = [] /\
  Upload.count (Upload.sh s) = 0 /\
  Upload.logged (Upload.sh s) = [] /\
  (forall i t,
     Upload.tasks s !! i = Some t ->
     Upload.panicked (Upload.sh s) = false ->
     Upload.bufSize cfg = 0 -> Upload.at_ t = Upload.AtCopy ->
     exists b s',
       Upload.buf t = Some b /\
       Upload.run_events w cfg (repeat (Upload.Run i) 5) s = Some s' /\
       Upload.panicked (Upload.sh s') = true /\
       Upload.io (Upload.sh s')
         = Upload.FileClose (Upload.localPath cfg (Upload.file t))
           :: Upload.WriterClose (Upload.name t) :: Upload.io (Upload.sh s) /\
       Upload.idle (Upload.sh s') = b :: Upload.idle (Upload.sh s)) /\
  (forall i t,
     Upload.tasks s !! i = Some t ->
     Upload.panicked (Upload.sh s) = false ->
     Upload.bufSize cfg <> 0 -> Upload.at_ t = Upload.AtPoolGet ->
     exists s',
       Upload.run_events w cfg (repeat (Upload.Run i) 4) s = Some s' /\
       Upload.panicked (Upload.sh s') = true /\
       Upload.io (Upload.sh s')
         = Upload.FileClose (Upload.localPath cfg (Upload.file t))
           :: Upload.WriterClose (Upload.name t) :: Upload.io (Upload.sh s)).
Proof.
  intros Hbuf Hreach.
  destruct (CrashFacts.reachable_bufferless _ _ _ _ Hbuf Hreach)
    as (Ht & Hok & Hidle & Hcop).
  destruct (UploadFacts.reachable_counting _ _ _ _ Hreach) as [Hcount _].
  destruct (UploadFacts.reachable_logging _ _ _ _ Hreach) as (Hlen & _ & _).
  destruct (UploadFacts.reachable_structure _ _ _ _ Hreach) as (_ & Hrev & _).
  assert (Hup : Forall (fun t => Upload.uploaded t = false) (Upload.tasks s)).
  { eapply Forall_impl; [exact Ht|]. intros t [_ Hb].
    unfold Upload.uploaded.
    destruct (Upload.at_ t) as [| | | | | | | | | | |r|r|v];
      try reflexivity; try contradiction;
      destruct r as [| |e]; try discriminate; reflexivity. }
  split; [exact Hcop|]. split; [|split; [|split]].
  - rewrite Hcount, UploadFacts.tally_none; [reflexivity|].
    apply Forall_forall. intros t Hin.
    pose proof (proj1 (Forall_forall _ _) Ht t Hin) as [_ Hb].
    pose proof (proj1 (Forall_forall _ _) Hup t Hin) as Hu.
    pose proof (proj1 (Forall_forall _ _) Hrev t Hin) as Hr.
    unfold Upload.counted, Upload.in_revision in *. rewrite Hu.
    destruct (Upload.rev cfg); [now rewrite andb_false_r|..];
      destruct (Upload.at_ t); try reflexivity; contradiction.
  - rewrite UploadFacts.tally_none in Hlen by exact Hup.
    destruct (Upload.verbose cfg); now destruct (Upload.logged (Upload.sh s)).
  - intros i t Hl Hp Hz Hat.
    pose proof (Forall_lookup_1 _ _ _ _ Hok Hl) as Htok.
    unfold Upload.task_ok in Htok. rewrite Hat in Htok.
    destruct Htok as [Hd Hh]. unfold Upload.holds in Hh.
    destruct (Upload.buf t) as [b|] eqn:Hb; [|discriminate].
    exists b.
    destruct (CrashFacts.run_task w cfg i s t Hp Hl) as (s1 & E1 & T1 & L1 & G1).
    { unfold Upload.runnable. now rewrite Hat. }
    unfold Upload.step_task in T1, G1. rewrite Hat, Hz in T1, G1.
    simpl in T1, G1.
    assert (P1 : Upload.panicked (Upload.sh s1) = false) by (now rewrite G1).
    destruct (CrashFacts.run_task w cfg i s1 _ P1 T1 eq_refl)
      as (s2 & E2 & T2 & L2 & G2).
    unfold Upload.step_task in T2, G2. simpl in T2, G2. rewrite Hd in T2, G2.
    simpl in T2, G2. rewrite Hb in G2. simpl in G2.
    assert (P2 : Upload.panicked (Upload.sh s2) = false)
      by (rewrite G2, G1; exact Hp).
    destruct (CrashFacts.run_task w cfg i s2 _ P2 T2 eq_refl)
      as (s3 & E3 & T3 & L3 & G3).
    unfold Upload.step_task in T3, G3. simpl in T3, G3.
    assert (P3 : Upload.panicked (Upload.sh s3) = false)
      by (rewrite G3, G2, G1; exact Hp).
    destruct (CrashFacts.run_task w cfg i s3 _ P3 T3 eq_refl)
      as (s4 & E4 & T4 & L4 & G4).
    unfold Upload.step_task in T4, G4. simpl in T4, G4.
    assert (P4 : Upload.panicked (Upload.sh s4) = false)
      by (rewrite G4, G3, G2, G1; exact Hp).
    destruct (CrashFacts.run_task w cfg i s4 _ P4 T4 eq_refl)
      as (s5 & E5 & T5 & L5 & G5).
    unfold Upload.step_task in G5. simpl in G5.
    exists s5. split; [reflexivity|]. split.
    { simpl. now rewrite E1, E2, E3, E4, E5. }
    rewrite G5, G4, G3, G2, G1. simpl. auto.
  - intros i t Hl Hp Hnz Hat.
    pose proof (Forall_lookup_1 _ _ _ _ Hok Hl) as Htok.
    unfold Upload.task_ok in Htok. rewrite Hat in Htok.
    destruct Htok as [Hd Hb].
    assert (Hnew : Upload.pool_Get w cfg i (Upload.sh s) = Upload.NewPanics).
    { unfold Upload.pool_Get, Upload.pool_New. rewrite (Hidle Hnz).
      destruct (Z.ltb_spec (Upload.bufSize cfg) 0); [reflexivity|].
      destruct (Z.ltb_spec Upload.maxAlloc (Upload.bufSize cfg)); [reflexivity|].
      lia. }
    destruct (CrashFacts.run_task w cfg i s t Hp Hl) as (s1 & E1 & T1 & L1 & G1).
    { unfold Upload.runnable. now rewrite Hat. }
    unfold Upload.step_task in T1, G1. rewrite Hat, Hnew in T1, G1.
    simpl in T1, G1.
    assert (P1 : Upload.panicked (Upload.sh s1) = false) by (now rewrite G1).
    destruct (CrashFacts.run_task w cfg i s1 _ P1 T1 eq_refl)
      as (s2 & E2 & T2 & L2 & G2).
    unfold Upload.step_task in T2, G2. simpl in T2, G2. rewrite Hd in T2, G2.
    simpl in T2, G2.
    assert (P2 : Upload.panicked (Upload.sh s2) = false)
      by (rewrite G2, G1; exact Hp).
    destruct (CrashFacts.run_task w cfg i s2 _ P2 T2 eq_refl)
      as (s3 & E3 & T3 & L3 & G3).
    unfold Upload.step_task in T3, G3. simpl in T3, G3.
    assert (P3 : Upload.panicked (Upload.sh s3) = false)
      by (rewrite G3, G2, G1; exact Hp).
    destruct (CrashFacts.run_task w cfg i s3 _ P3 T3 eq_refl)
      as (s4 & E4 & T4 & L4 & G4).
    unfold Upload.step_task in G4. simpl in G4.
    exists s4. split.
    { simpl. now rewrite E1, E2, E3, E4. }
    rewrite G4, G3, G2, G1. simpl. auto.
Qed.

(** [-buf 0] in MainB: [Set] stores 0; the task panics at its copy, its
    writer and its file are closed, and the process ends. *)
Lemma X21_empty_buffer_panics_witness :
  let cfg := Cases.buffers_of 0 (Scenario.settings_of Upload.MainB false 0) in
  let s := Scenario.outcome Scenario.fair_weather cfg
             (Scenario.submit_and_run 0 5) ["a.txt"]%string in
  BytesValue.bytesValue_Set GoStrings.ToLowerASCII (512 * 1024) "0"
  = BytesValue.Returned (Upload.bufSize cfg) None /\
  Ledger.copies (Upload.sh s) = [] /\
  exists s', Upload.run_events Scenario.fair_weather cfg
               (repeat (Upload.Run 0) 5) s = Some s' /\
             Upload.panicked (Upload.sh s') = true /\
             Upload.io (Upload.sh s')
               = [Upload.FileClose "data/a.txt"; Upload.WriterClose "prefix/a.txt";
                  Upload.NewWriter "prefix/a.txt"; Upload.OsOpen "data/a.txt"].
Proof.
  intros cfg s. split; [reflexivity|].
  destruct (X21_empty_buffer_panics Scenario.fair_weather cfg ["a.txt"]%string s)
    as (H1 & _ & _ & H2 & _).
  - left. simpl. lia.
  - exists (Scenario.submit_and_run 0 5). vm_compute. reflexivity.
  - split; [exact H1|].
    destruct (Upload.tasks s !! O) as [t|] eqn:Ht; [|vm_compute in Ht; discriminate].
    destruct (H2 O t Ht) as (b & s' & _ & E & P & I & _).
    + vm_compute. reflexivity.
    + reflexivity.
    + vm_compute in Ht. injection Ht as <-. reflexivity.
    + exists s'. split; [exact E|]. split; [exact P|].
      rewrite I. vm_compute in Ht. injection Ht as <-. reflexivity.
Defined.
